(** * Planning poker room coordinator (worker/index.ts)

    A shallow embedding of the [PlanningPokerRoom] durable object: the
    session registry, the hidden/revealed flag, the per-connection
    attachments that survive hibernation, and the handlers
    [handleSession], [webSocketMessage], [closeOrErrorHandler] and
    [broadcast]; the worker in front of the rooms ([fetch],
    [handleApiRequest], the check of Cloudflare Access and the room's own
    [fetch]); and the hook of the client that mirrors the room
    (hooks/useWebSocket.ts), followed by the properties of the room
    protocol. *)

From Stdlib Require Import ZArith Ascii.
From stdpp Require Import gmap strings list fin_maps.

Open Scope string_scope.
Open Scope list_scope.

Set Warnings "-clear-no-such-hyp".

(** ** Data model *)

(** A connection object is known by its identity only ([Map] keys are compared
    by reference). *)
Abbreviation WebSocket := nat.

Local Unset Elimination Schemes.

(** A value produced by [JSON.parse]. The members of an object are listed in
    the order of the text; a later duplicate overrides an earlier one. *)
Inductive json :=
| JNull
| JBool (b : bool)
| JNumber (n : Z)
| JString (s : string)
| JArray (items : list json)
| JObject (members : list (string * json)).

Local Set Elimination Schemes.

(** What a property or a field holds: a value that [JSON.parse] produced, or
    [undefined] when a message did not have the property. *)
Abbreviation undefined := (@None json).
Abbreviation null := (Some JNull).

(** [type ServerMessage], as the JSON text of a message carries it: the
    [votes] record is a finite map from user ids to the values written, and
    [JSON.stringify] writes no property whose value is [undefined]. *)
Record UserInfo := mkUser {
  user_id : string;
  user_name : string;
  user_hasVoted : bool
}.

Inductive ServerMessage :=
| s_joined (userId name : string)
| s_userJoined (userId name : string)
| s_userLeft (userId : string)
| s_voted (userId : string) (hasVoted : bool)
| s_revealed (votes : gmap string json)
| s_reset
| s_state (users : list UserInfo) (revealed : bool)
          (votes : option (gmap string json))
| s_emoji (fromUserId toUserId emoji : string)
| s_error (message : string).

(** [interface SessionData]. The field [vote] is declared [string | null];
    it holds what the last [vote] message had as [card], which is stored
    unchecked and is [undefined] when the message had none. *)
Record SessionData := mkSession {
  userId : string;
  name : string;
  vote : option json;
  webSocket : WebSocket
}.

(** The object given to [serializeAttachment] and read back by
    [deserializeAttachment]. *)
Record Attachment := mkMeta {
  meta_userId : string;
  meta_name : string;
  meta_vote : option json
}.

(** The part of [DurableObjectState] the room uses: the accepted sockets that
    are still connected ([getWebSockets()]) and the attachment of every socket
    that was ever accepted. *)
Record DurableObjectState := mkState {
  webSockets : list WebSocket;
  attachments : gmap nat Attachment
}.

(** The three private fields of [class PlanningPokerRoom]. [sessions] is a
    JavaScript [Map]: entries are kept in insertion order. *)
Record PlanningPokerRoom := mkRoom {
  state : DurableObjectState;
  sessions : list (WebSocket * SessionData);
  revealed : bool
}.

(** What a handler does to the outside world. *)
Inductive Effect :=
| Sent (ws : WebSocket) (m : ServerMessage)       (* ws.send of the text of m returned *)
| SendThrew (ws : WebSocket) (m : ServerMessage)  (* ws.send of the text of m threw *)
| Closed (ws : WebSocket) (code : nat) (reason : string).

(** ** The [Map] of sessions *)

Fixpoint Map_get {V} (ws : WebSocket) (m : list (WebSocket * V)) : option V :=
  match m with
  | [] => None
  | (k, v) :: rest => if decide (k = ws) then Some v else Map_get ws rest
  end.

(** [Map.set]: an existing key keeps its position, a new key goes last. *)
Fixpoint Map_set {V} (ws : WebSocket) (v : V) (m : list (WebSocket * V))
  : list (WebSocket * V) :=
  match m with
  | [] => [(ws, v)]
  | (k, w) :: rest =>
      if decide (k = ws) then (k, v) :: rest else (k, w) :: Map_set ws v rest
  end.

(** [Map.delete]: no entry with that key is left. *)
Fixpoint Map_delete {V} (ws : WebSocket) (m : list (WebSocket * V))
  : list (WebSocket * V) :=
  match m with
  | [] => []
  | (k, w) :: rest =>
      if decide (k = ws) then Map_delete ws rest else (k, w) :: Map_delete ws rest
  end.

Definition Map_values {V} (m : list (WebSocket * V)) : list V := m.*2.
Definition Map_keys {V} (m : list (WebSocket * V)) : list WebSocket := m.*1.

(** ** Small JavaScript helpers *)

(** Truthiness of a string: only the empty string is falsy. *)
Definition truthy (s : string) : bool :=
  match s with
  | EmptyString => false
  | String _ _ => true
  end.

(** [v !== null]: [undefined] is not [null]. *)
Definition notNull (v : option json) : bool :=
  match v with
  | Some JNull => false
  | _ => true
  end.

(** [s.slice(0, 32)]: the first 32 characters, or all of them when there are
    fewer. A character here is one element of the string, as a UTF-16 code
    unit is in JavaScript. *)
Definition slice_0_32 (s : string) : string := String.substring 0 32 s.

(** [Object.fromEntries]: entries are defined in order, so a later entry with
    the same key wins. *)
Definition Object_fromEntries (entries : list (string * option json))
  : gmap string (option json) :=
  foldl (λ o kv, <[kv.1 := kv.2]> o) ∅ entries.

(** What [JSON.stringify] writes of a record: a property whose value is
    [undefined] is left out. *)
Definition JSON_stringify (o : gmap string (option json)) : gmap string json :=
  omap id o.

(** Reading the own property [key] of a parsed object. *)
Fixpoint member_of (key : string) (members : list (string * json)) : option json :=
  match members with
  | [] => None
  | (k, v) :: rest =>
      match member_of key rest with
      | Some later => Some later
      | None => if decide (k = key) then Some v else None
      end
  end.

(** [data.key]: throws a TypeError on [null], is [undefined] ([None]) on
    the other values that are not objects, which have no such property. *)
Definition member (data : json) (key : string) : string + option json :=
  match data with
  | JNull => inl ("Cannot read properties of null (reading '" ++ key ++ "')")%string
  | JObject members => inr (member_of key members)
  | _ => inr None
  end.

(** The labels of [switch (data.type)]. *)
Inductive Case := case_join | case_vote | case_reveal | case_emoji | case_reset.

#[global] Instance Case_eq_dec : EqDecision Case.
Proof. solve_decision. Defined.

(** Which label is strictly equal to the value of [data.type], if any. *)
Definition switch (type : option json) : option Case :=
  match type with
  | Some (JString t) =>
      if decide (t = "join") then Some case_join
      else if decide (t = "vote") then Some case_vote
      else if decide (t = "reveal") then Some case_reveal
      else if decide (t = "emoji") then Some case_emoji
      else if decide (t = "reset") then Some case_reset
      else None
  | _ => None
  end.

(** ** Handlers

    A handler reads and writes the room, appends to the log of effects, and
    either returns or throws; what it wrote before throwing stays written.
    [Unmodelled] is the outcome of a payload that carries, under a recognised
    tag, a field outside its declared type which the code would store or
    forward as it is (an array as [name], a number as [emoji], ...): the
    name of a session and the fields of an [emoji] message keep their
    declared types here. *)

Inductive Outcome (A : Type) :=
| Returned (r : PlanningPokerRoom) (log : list Effect) (a : A)
| Threw (r : PlanningPokerRoom) (log : list Effect) (err : string)
| Unmodelled.

Arguments Returned {A} r log a.
Arguments Threw {A} r log err.
Arguments Unmodelled {A}.

Definition Handler (A : Type) : Type :=
  PlanningPokerRoom → list Effect → Outcome A.

#[global] Instance handler_ret : MRet Handler :=
  λ A a r log, Returned r log a.

#[global] Instance handler_bind : MBind Handler :=
  λ A B k m r log,
    match m r log with
    | Returned r' log' a => k a r' log'
    | Threw r' log' err => Threw r' log' err
    | Unmodelled => Unmodelled
    end.

Definition throw {A} (err : string) : Handler A :=
  λ r log, Threw r log err.

Definition unmodelled {A} : Handler A :=
  λ _ _, Unmodelled.

(** [try { body } catch (err) { handler(err) }]. *)
Definition try_catch (body : Handler unit) (handler : string → Handler unit)
  : Handler unit :=
  λ r log,
    match body r log with
    | Threw r' log' err => handler err r' log'
    | done => done
    end.

Definition gets {A} (f : PlanningPokerRoom → A) : Handler A :=
  λ r log, Returned r log (f r).

Definition set_sessions (f : list (WebSocket * SessionData) → list (WebSocket * SessionData))
  : Handler unit :=
  λ r log, Returned (mkRoom (state r) (f (sessions r)) (revealed r)) log ().

Definition set_revealed (b : bool) : Handler unit :=
  λ r log, Returned (mkRoom (state r) (sessions r) b) log ().

(** [this.state.acceptWebSocket(ws)]. *)
Definition acceptWebSocket (ws : WebSocket) : Handler unit :=
  λ r log,
    Returned (mkRoom (mkState (webSockets (state r) ++ [ws]) (attachments (state r)))
                     (sessions r) (revealed r)) log ().

(** [ws.serializeAttachment(meta)]. *)
Definition serializeAttachment (ws : WebSocket) (meta : Attachment) : Handler unit :=
  λ r log,
    Returned (mkRoom (mkState (webSockets (state r)) (<[ws := meta]> (attachments (state r))))
                     (sessions r) (revealed r)) log ().

(** [ws.close(code, reason)]. *)
Definition close (ws : WebSocket) (code : nat) (reason : string) : Handler unit :=
  λ r log, Returned r (log ++ [Closed ws code reason]) ().

(** The recoverable fields of a session, as every call of
    [serializeAttachment] lists them. *)
Definition meta_of (s : SessionData) : Attachment :=
  mkMeta (userId s) (name s) (vote s).

(** The entry of the [users] array for a session. *)
Definition user_of (s : SessionData) : UserInfo :=
  mkUser (userId s) (name s) (notNull (vote s)).

(** [JSON.parse(message as string)], given by its outcome: the message of the
    SyntaxError it throws (as it does on text that is not JSON, and on an
    [ArrayBuffer]), or the value it returns. *)
Definition JSON_parse (message : string + json) : Handler json :=
  match message with
  | inl err => throw err
  | inr data => mret data
  end.

(** [data.key] inside a handler. *)
Definition property (data : json) (key : string) : Handler (option json) :=
  match member data key with
  | inl err => throw err
  | inr v => mret v
  end.

(** [data.name.slice(0, 32)]: a TypeError unless [data.name] is a string or
    an array; the slice of an array is not a name of the declared type. *)
Definition name_slice (v : option json) : Handler string :=
  match v with
  | Some (JString s) => mret (slice_0_32 s)
  | None => throw "Cannot read properties of undefined (reading 'slice')"
  | Some JNull => throw "Cannot read properties of null (reading 'slice')"
  | Some (JArray _) => unmodelled
  | Some _ => throw "data.name.slice is not a function"
  end.

(** Reading a field declared [string], which is forwarded as it is. *)
Definition as_string (v : option json) : Handler string :=
  match v with
  | Some (JString s) => mret s
  | _ => unmodelled
  end.

(** [quitters.forEach((ws) => this.sessions.delete(ws))]. *)
Definition drop (quitters : list WebSocket) (m : list (WebSocket * SessionData))
  : list (WebSocket * SessionData) :=
  foldl (λ m ws, Map_delete ws m) m quitters.

(** The [votes] object of the reveal case, filled by [forEach]. *)
Definition collect_votes (entries : list (WebSocket * SessionData))
  : gmap string (option json) :=
  foldl (λ votes e, if truthy (name e.2) then <[userId e.2 := vote e.2]> votes else votes)
        ∅ entries.

(** [Array.from(this.sessions.values()).filter((s) => s.name)]. *)
Definition named_sessions (entries : list (WebSocket * SessionData)) : list SessionData :=
  filter (λ s, truthy (name s) = true) (Map_values entries).

(** [session.name = n] and [session.vote = card]. *)
Definition with_name (s : SessionData) (n : string) : SessionData :=
  mkSession (userId s) n (vote s) (webSocket s).

Definition with_vote (s : SessionData) (card : option json) : SessionData :=
  mkSession (userId s) (name s) card (webSocket s).

(** The [state] message of the join case. *)
Definition stateMessage (all : list (WebSocket * SessionData)) (shown : bool)
  : ServerMessage :=
  s_state (user_of <$> named_sessions all) shown
          (if shown
           then Some (JSON_stringify
                        (Object_fromEntries
                           ((λ s, (userId s, vote s)) <$> named_sessions all)))
           else None).

Section Room.

(** Whether [ws.send] throws, and with which message. It is the same for
    every send of one handler run. *)
Variable throws : WebSocket → option string.

(** [ws.send(JSON.stringify(m))]. *)
Definition send (ws : WebSocket) (m : ServerMessage) : Handler unit :=
  λ r log,
    match throws ws with
    | None => Returned r (log ++ [Sent ws m]) ()
    | Some err => Threw r (log ++ [SendThrew ws m]) err
    end.

(** The [forEach] loop of [broadcast]: the sends it attempts, and the
    [quitters] it collects. The registry is only read. *)
Fixpoint fanOut (message : ServerMessage) (exclude : option WebSocket)
    (entries : list (WebSocket * SessionData)) : list Effect * list WebSocket :=
  match entries with
  | [] => ([], [])
  | (ws, session) :: rest =>
      let (log, quitters) := fanOut message exclude rest in
      if decide (exclude = Some ws) then (log, quitters)
      else if negb (truthy (name session)) then (log, quitters)
      else match throws ws with
           | None => (Sent ws message :: log, quitters)
           | Some _ => (SendThrew ws message :: log, ws :: quitters)
           end
  end.

Definition broadcast (message : ServerMessage) (exclude : option WebSocket)
  : Handler unit :=
  λ r log,
    let (sent, quitters) := fanOut message exclude (sessions r) in
    Returned (mkRoom (state r) (drop quitters (sessions r)) (revealed r))
             (log ++ sent) ().

Definition handleSession (ws : WebSocket) (randomUUID : string) : Handler unit :=
  acceptWebSocket ws;;
  let sessionData := mkSession randomUUID "" null ws in
  serializeAttachment ws (mkMeta randomUUID "" null);;
  set_sessions (Map_set ws sessionData).

Definition must_join_first (ws : WebSocket) : Handler unit :=
  send ws (s_error "Must join first").

Definition webSocketMessage (ws : WebSocket) (message : string + json)
  : Handler unit :=
  try_catch
    (found ← gets (λ r, Map_get ws (sessions r));
     match found with
     | None => close ws 1011 "Session not found"
     | Some session =>
       data ← JSON_parse message;
       type ← property data "type";
       match switch type with
       | Some case_join =>
           sliced ← property data "name" ≫= name_slice;
           let session := with_name session sliced in
           set_sessions (Map_set ws session);;
           serializeAttachment ws (meta_of session);;
           all ← gets sessions;
           shown ← gets revealed;
           send ws (stateMessage all shown);;
           send ws (s_joined (userId session) (name session));;
           broadcast (s_userJoined (userId session) (name session)) (Some ws)
       | Some case_vote =>
           if negb (truthy (name session)) then must_join_first ws
           else
             card ← property data "card";
             let session := with_vote session card in
             set_sessions (Map_set ws session);;
             serializeAttachment ws (meta_of session);;
             broadcast (s_voted (userId session) (notNull (vote session))) None
       | Some case_reveal =>
           if negb (truthy (name session)) then must_join_first ws
           else
             set_revealed true;;
             all ← gets sessions;
             broadcast (s_revealed (JSON_stringify (collect_votes all))) None
       | Some case_emoji =>
           if negb (truthy (name session)) then must_join_first ws
           else
             toUserId ← property data "targetUserId" ≫= as_string;
             emoji ← property data "emoji" ≫= as_string;
             broadcast (s_emoji (userId session) toUserId emoji) None
       | Some case_reset =>
           if negb (truthy (name session)) then must_join_first ws
           else
             set_revealed false;;
             all ← gets sessions;
             (* forEach: s.vote = null, then s.webSocket.serializeAttachment *)
             set_sessions (fmap (λ e, (e.1, with_vote e.2 null)));;
             foldr (λ e rest,
                      serializeAttachment (webSocket e.2)
                        (mkMeta (userId e.2) (name e.2) null);; rest)
                   (mret ()) all;;
             broadcast s_reset None
       | None => mret ()
       end
     end)
    (λ err, send ws (s_error err)).

Definition closeOrErrorHandler (ws : WebSocket) : Handler unit :=
  found ← gets (λ r, Map_get ws (sessions r));
  match found with
  | Some session =>
      if truthy (name session) then broadcast (s_userLeft (userId session)) None
      else mret ()
  | None => mret ()
  end;;
  set_sessions (Map_delete ws).

End Room.

(** [{ ...meta, webSocket }]. *)
Definition restored_session (ws : WebSocket) (meta : Attachment) : SessionData :=
  mkSession (meta_userId meta) (meta_name meta) (meta_vote meta) ws.

(** [new PlanningPokerRoom(state)]: the registry is rebuilt from the
    attachments of the sockets that are still connected. A socket without
    an attachment would give a session without fields: [None]. *)
Definition constructor (st : DurableObjectState) : option PlanningPokerRoom :=
  restored ← foldl (λ acc webSocket,
                      all ← acc;
                      meta ← attachments st !! webSocket;
                      Some (Map_set webSocket (restored_session webSocket meta) all))
                   (Some []) (webSockets st);
  Some (mkRoom st restored false).

(** ** Reading outcomes *)

(** The room a handler leaves behind, whether it returned or threw. *)
Definition room_after {A} (o : Outcome A) : option PlanningPokerRoom :=
  match o with
  | Returned r _ _ | Threw r _ _ => Some r
  | Unmodelled => None
  end.

Definition effects_of {A} (o : Outcome A) : list Effect :=
  match o with
  | Returned _ log _ | Threw _ log _ => log
  | Unmodelled => []
  end.

(** The connection an effect acts on, and the message it carries. *)
Definition target (e : Effect) : WebSocket :=
  match e with
  | Sent ws _ | SendThrew ws _ | Closed ws _ _ => ws
  end.

Definition payload (e : Effect) : option ServerMessage :=
  match e with
  | Sent _ m | SendThrew _ m => Some m
  | Closed _ _ _ => None
  end.

(** A message that carries vote values: a [votes] object is present. *)
Definition carries_votes (m : ServerMessage) : bool :=
  match m with
  | s_revealed _ => true
  | s_state _ _ (Some _) => true
  | _ => false
  end.

(** The label the [switch] selects for a payload, if it gets that far. *)
Definition case_of (message : string + json) : option Case :=
  match message with
  | inl _ => None
  | inr data =>
      match member data "type" with
      | inl _ => None
      | inr type => switch type
      end
  end.

(** One attempt of [broadcast]'s loop on a recipient. *)
Definition attempt (throws : WebSocket → option string) (message : ServerMessage)
    (ws : WebSocket) : Effect :=
  match throws ws with
  | None => Sent ws message
  | Some _ => SendThrew ws message
  end.

(** A recipient of [broadcast]: not the excluded socket, and named. *)
Definition eligible (exclude : option WebSocket) (e : WebSocket * SessionData) : Prop :=
  exclude ≠ Some e.1 ∧ truthy (name e.2) = true.

#[global] Instance eligible_dec exclude e : Decision (eligible exclude e).
Proof. unfold eligible. apply _. Defined.

(** No effect of the log carries votes. *)
Definition quiet (log : list Effect) : Prop :=
  ∀ e m, e ∈ log → payload e = Some m → carries_votes m = false.

(** The handler leaves the votes hidden and has sent none of them. *)
Definition hidden_at {A} (o : Outcome A) : Prop :=
  match o with
  | Returned r log _ | Threw r log _ => revealed r = false ∧ quiet log
  | Unmodelled => True
  end.

(** What holds of a room between two events: the registry has one entry per
    connection, every session equals the attachment of its connection, every
    connected socket has an attachment, and no two connections were given the
    same user id. *)
Record consistent (r : PlanningPokerRoom) : Prop := mkConsistent {
  keys_distinct : NoDup (Map_keys (sessions r));
  attached : ∀ ws s, (ws, s) ∈ sessions r →
               attachments (state r) !! ws = Some (meta_of s) ∧ webSocket s = ws;
  accepted_attached : ∀ ws, ws ∈ webSockets (state r) →
                        is_Some (attachments (state r) !! ws);
  ids_distinct : ∀ k1 k2 a1 a2,
                   attachments (state r) !! k1 = Some a1 →
                   attachments (state r) !! k2 = Some a2 →
                   meta_userId a1 = meta_userId a2 → k1 = k2
}.

Definition consistent_at {A} (o : Outcome A) : Prop :=
  match o with
  | Returned r _ _ | Threw r _ _ => consistent r
  | Unmodelled => True
  end.

(** A handler that leaves the room as it is. *)
Definition keeps_room {A} (h : Handler A) : Prop :=
  ∀ r log, match h r log with
           | Returned r' _ _ | Threw r' _ _ => r' = r
           | Unmodelled => True
           end.

(** ** The host: events and reachable rooms *)

Inductive Event :=
| ev_connect (ws : WebSocket) (randomUUID : string)   (* fetch /websocket *)
| ev_message (ws : WebSocket) (message : string + json)
| ev_close (ws : WebSocket)                           (* webSocketClose, webSocketError *)
| ev_wake.                                            (* the object is constructed again *)

(** [crypto.randomUUID()] returns an id that no connection was given before. *)
Definition fresh_uuid (st : DurableObjectState) (uuid : string) : Prop :=
  map_Forall (λ _ meta, meta_userId meta ≠ uuid) (attachments st).

(** The host removes a closed socket from [getWebSockets()]. *)
Definition disconnected (ws : WebSocket) (r : PlanningPokerRoom) : PlanningPokerRoom :=
  mkRoom (mkState (filter (λ k, k ≠ ws) (webSockets (state r))) (attachments (state r)))
         (sessions r) (revealed r).

(** One event, handled to the end. The handler may throw; the room it leaves
    is the next room. A socket is new when it is accepted, and messages and
    closes come from connected sockets. There is no step on a payload that
    the handlers do not model. *)
Definition step (throws : WebSocket → option string) (r : PlanningPokerRoom)
    (e : Event) : option PlanningPokerRoom :=
  match e with
  | ev_connect ws uuid =>
      if decide (attachments (state r) !! ws = None ∧ fresh_uuid (state r) uuid)
      then room_after (handleSession ws uuid r [])
      else None
  | ev_message ws message =>
      if decide (ws ∈ webSockets (state r))
      then room_after (webSocketMessage throws ws message r [])
      else None
  | ev_close ws =>
      if decide (ws ∈ webSockets (state r))
      then disconnected ws <$> room_after (closeOrErrorHandler throws ws r [])
      else None
  | ev_wake => constructor (state r)
  end.

Definition initial : PlanningPokerRoom := mkRoom (mkState [] ∅) [] false.

Inductive reachable : PlanningPokerRoom → Prop :=
| reachable_initial : reachable initial
| reachable_step throws r e r' :
    reachable r → step throws r e = Some r' → reachable r'.

(** The attachments after the loop of the reset case went over [all]. *)
Definition reset_attachments (all : list (WebSocket * SessionData))
    (atts : gmap nat Attachment) : gmap nat Attachment :=
  foldl (λ a e, <[webSocket e.2 := mkMeta (userId e.2) (name e.2) null]> a) atts all.

(** Runs a sequence of events from a room. *)
Definition run_events (throws : WebSocket → option string) (events : list Event)
    (r : PlanningPokerRoom) : option PlanningPokerRoom :=
  foldl (λ acc e, r ← acc; step throws r e) (Some r) events.

(** ** A worked scenario

    Two connections, 1 and 2, with user ids A and B. *)

Definition no_failure : WebSocket → option string := λ _, None.

(** Every send on connection 1 throws. *)
Definition stale_1 : WebSocket → option string :=
  λ ws, if decide (ws = 1) then Some "WebSocket is closed" else None.

Definition msg_join (n : string) : string + json :=
  inr (JObject [("type", JString "join"); ("name", JString n)]).
Definition msg_vote (card : string) : string + json :=
  inr (JObject [("type", JString "vote"); ("card", JString card)]).
Definition msg_reveal : string + json := inr (JObject [("type", JString "reveal")]).
Definition msg_reset : string + json := inr (JObject [("type", JString "reset")]).
Definition msg_ping : string + json := inr (JObject [("type", JString "ping")]).
(** A vote that has no [card]. *)
Definition msg_vote_no_card : string + json := inr (JObject [("type", JString "vote")]).

Definition anonymous_A := mkSession "A" "" null 1.
Definition anonymous_B := mkSession "B" "" null 2.
Definition alice := mkSession "A" "Alice" null 1.
Definition alice_5 := mkSession "A" "Alice" (Some (JString "5")) 1.
Definition bob := mkSession "B" "Bob" null 2.
Definition bob_no_card := mkSession "B" "Bob" undefined 2.

Definition room_of (a b : SessionData) (shown : bool) : PlanningPokerRoom :=
  mkRoom (mkState [1; 2] (<[2 := meta_of b]> (<[1 := meta_of a]> ∅)))
         [(1, a); (2, b)] shown.

(** Both connected, nobody joined. *)
Definition lobby : PlanningPokerRoom := room_of anonymous_A anonymous_B false.
(** Alice joined, B is still anonymous. *)
Definition alice_alone : PlanningPokerRoom := room_of alice anonymous_B false.
(** Alice and Bob joined, Alice voted 5, votes hidden. *)
Definition voting : PlanningPokerRoom := room_of alice_5 bob false.
(** The same after a reveal. *)
Definition shown : PlanningPokerRoom := room_of alice_5 bob true.
(** Alice voted 5 and Bob sent a vote without a card; votes hidden, and the
    same after a reveal. *)
Definition no_card : PlanningPokerRoom := room_of alice_5 bob_no_card false.
Definition no_card_shown : PlanningPokerRoom := room_of alice_5 bob_no_card true.

Definition to_lobby : list Event := [ev_connect 1 "A"; ev_connect 2 "B"].
Definition to_alice_alone : list Event := to_lobby ++ [ev_message 1 (msg_join "Alice")].
Definition to_voting : list Event :=
  to_alice_alone ++ [ev_message 2 (msg_join "Bob"); ev_message 1 (msg_vote "5")].
Definition to_shown : list Event := to_voting ++ [ev_message 2 msg_reveal].

(** ** What a message does, case by case *)

(** The reply of the catch clause. *)
Definition error_reply (throws : WebSocket → option string) (ws : WebSocket)
    (r : PlanningPokerRoom) (log : list Effect) (err : string) : Outcome () :=
  match throws ws with
  | None => Returned r (log ++ [Sent ws (s_error err)]) ()
  | Some e => Threw r (log ++ [SendThrew ws (s_error err)]) e
  end.

(** The room after [broadcast] went over [all]. *)
Definition after_broadcast (throws : WebSocket → option string) (message : ServerMessage)
    (exclude : option WebSocket) (st : DurableObjectState)
    (all : list (WebSocket * SessionData)) (shown : bool) : PlanningPokerRoom :=
  mkRoom st (drop (fanOut throws message exclude all).2 all) shown.

Definition with_attachment (st : DurableObjectState) (ws : WebSocket) (meta : Attachment)
  : DurableObjectState :=
  mkState (webSockets st) (<[ws := meta]> (attachments st)).

(** The outcomes of the five cases on a session that may act. *)
Definition join_outcome (throws : WebSocket → option string) (r : PlanningPokerRoom)
    (ws : WebSocket) (session : SessionData) (n : string) : Outcome () :=
  let joined := with_name session (slice_0_32 n) in
  let all := Map_set ws joined (sessions r) in
  let st := with_attachment (state r) ws (meta_of joined) in
  let announce := s_userJoined (userId session) (slice_0_32 n) in
  match throws ws with
  | None =>
      Returned (after_broadcast throws announce (Some ws) st all (revealed r))
               ([Sent ws (stateMessage all (revealed r));
                 Sent ws (s_joined (userId session) (slice_0_32 n))]
                ++ (fanOut throws announce (Some ws) all).1) ()
  | Some err =>
      Threw (mkRoom st all (revealed r))
            [SendThrew ws (stateMessage all (revealed r)); SendThrew ws (s_error err)] err
  end.

Definition vote_outcome (throws : WebSocket → option string) (r : PlanningPokerRoom)
    (ws : WebSocket) (session : SessionData) (card : option json) : Outcome () :=
  let voted := with_vote session card in
  let all := Map_set ws voted (sessions r) in
  let st := with_attachment (state r) ws (meta_of voted) in
  let announce := s_voted (userId session) (notNull card) in
  Returned (after_broadcast throws announce None st all (revealed r))
           (fanOut throws announce None all).1 ().

Definition reveal_outcome (throws : WebSocket → option string) (r : PlanningPokerRoom)
  : Outcome () :=
  let announce := s_revealed (JSON_stringify (collect_votes (sessions r))) in
  Returned (after_broadcast throws announce None (state r) (sessions r) true)
           (fanOut throws announce None (sessions r)).1 ().

Definition emoji_outcome (throws : WebSocket → option string) (r : PlanningPokerRoom)
    (session : SessionData) (toUserId emoji : string) : Outcome () :=
  let announce := s_emoji (userId session) toUserId emoji in
  Returned (after_broadcast throws announce None (state r) (sessions r) (revealed r))
           (fanOut throws announce None (sessions r)).1 ().

Definition reset_outcome (throws : WebSocket → option string) (r : PlanningPokerRoom)
  : Outcome () :=
  let all := (λ e, (e.1, with_vote e.2 null)) <$> sessions r in
  let st := mkState (webSockets (state r))
                    (reset_attachments (sessions r) (attachments (state r))) in
  Returned (after_broadcast throws s_reset None st all false)
           (fanOut throws s_reset None all).1 ().

Definition unjoined_outcome (throws : WebSocket → option string) (r : PlanningPokerRoom)
    (ws : WebSocket) : Outcome () :=
  match throws ws with
  | None => Returned r [Sent ws (s_error "Must join first")] ()
  | Some err =>
      Threw r [SendThrew ws (s_error "Must join first"); SendThrew ws (s_error err)] err
  end.

(** What [webSocketMessage] does, case by case. *)
Inductive handled (throws : WebSocket → option string) (r : PlanningPokerRoom)
    (ws : WebSocket) (message : string + json) : Outcome () → Prop :=
| handled_unregistered :
    Map_get ws (sessions r) = None →
    handled throws r ws message (Returned r [Closed ws 1011 "Session not found"] ())
| handled_error session err :
    Map_get ws (sessions r) = Some session →
    (case_of message = None ∨ case_of message = Some case_join) →
    handled throws r ws message (error_reply throws ws r [] err)
| handled_ignored session :
    Map_get ws (sessions r) = Some session →
    case_of message = None →
    handled throws r ws message (Returned r [] ())
| handled_unmodelled session c :
    Map_get ws (sessions r) = Some session →
    case_of message = Some c →
    handled throws r ws message Unmodelled
| handled_unjoined session c :
    Map_get ws (sessions r) = Some session →
    case_of message = Some c → c ≠ case_join →
    name session = "" →
    handled throws r ws message (unjoined_outcome throws r ws)
| handled_join session n :
    Map_get ws (sessions r) = Some session →
    case_of message = Some case_join →
    handled throws r ws message (join_outcome throws r ws session n)
| handled_vote session card :
    Map_get ws (sessions r) = Some session →
    case_of message = Some case_vote →
    truthy (name session) = true →
    handled throws r ws message (vote_outcome throws r ws session card)
| handled_reveal session :
    Map_get ws (sessions r) = Some session →
    case_of message = Some case_reveal →
    truthy (name session) = true →
    handled throws r ws message (reveal_outcome throws r)
| handled_emoji session toUserId emoji :
    Map_get ws (sessions r) = Some session →
    case_of message = Some case_emoji →
    truthy (name session) = true →
    handled throws r ws message (emoji_outcome throws r session toUserId emoji)
| handled_reset session :
    Map_get ws (sessions r) = Some session →
    case_of message = Some case_reset →
    truthy (name session) = true →
    handled throws r ws message (reset_outcome throws r).

(** ** Between events *)

(** [r'] is reached from [r] by some events. *)
Inductive reaches (r : PlanningPokerRoom) : PlanningPokerRoom → Prop :=
| reaches_here : reaches r r
| reaches_step throws r1 e r2 :
    reaches r r1 → step throws r1 e = Some r2 → reaches r r2.

(** Every connected socket is listed once, and every registered connection is
    a connected socket. *)
Definition connected (r : PlanningPokerRoom) : Prop :=
  NoDup (webSockets (state r))
  ∧ ∀ k, k ∈ Map_keys (sessions r) → k ∈ webSockets (state r).

(** ** The client's mirror (src/hooks/useWebSocket.ts) *)

Module useWebSocket.

(** The state of the hook that [ws.onmessage] writes, and the calls it makes
    to the registered emoji callback. *)
Record State := mkState {
  users : list UserInfo;
  myUserId : option string;
  revealed : bool;
  votes : gmap string json;
  error : option string;
  emojiCallback : bool;                          (* emojiCallbackRef.current is set *)
  emojiCalls : list (string * string * string)   (* its calls so far *)
}.

(** [ws.onmessage], on a parsed message. *)
Definition onmessage (message : ServerMessage) (c : State) : State :=
  match message with
  | s_joined userId _ =>
      mkState (users c) (Some userId) (revealed c) (votes c) (error c)
              (emojiCallback c) (emojiCalls c)
  | s_state us shown vs =>
      mkState us (myUserId c) shown
              (match vs with Some v => v | None => votes c end) (error c)
              (emojiCallback c) (emojiCalls c)
  | s_userJoined userId name =>
      mkState (users c ++ [mkUser userId name false]) (myUserId c) (revealed c)
              (votes c) (error c) (emojiCallback c) (emojiCalls c)
  | s_userLeft userId =>
      mkState (filter (λ u, user_id u ≠ userId) (users c)) (myUserId c) (revealed c)
              (delete userId (votes c)) (error c) (emojiCallback c) (emojiCalls c)
  | s_voted userId hasVoted =>
      mkState ((λ u, if decide (user_id u = userId)
                     then mkUser (user_id u) (user_name u) hasVoted else u) <$> users c)
              (myUserId c) (revealed c) (votes c) (error c)
              (emojiCallback c) (emojiCalls c)
  | s_revealed vs =>
      mkState (users c) (myUserId c) true vs (error c) (emojiCallback c) (emojiCalls c)
  | s_reset =>
      mkState ((λ u, mkUser (user_id u) (user_name u) false) <$> users c)
              (myUserId c) false ∅ (error c) (emojiCallback c) (emojiCalls c)
  | s_emoji fromUserId toUserId emoji =>
      mkState (users c) (myUserId c) (revealed c) (votes c) (error c) (emojiCallback c)
              (if emojiCallback c
               then emojiCalls c ++ [(fromUserId, toUserId, emoji)]
               else emojiCalls c)
  | s_error message =>
      mkState (users c) (myUserId c) (revealed c) (votes c) (Some message)
              (emojiCallback c) (emojiCalls c)
  end.

End useWebSocket.

(** ** Room and clients together *)

(** The clients, one per connection. *)
Definition Clients := WebSocket → useWebSocket.State.

(** The messages of a log reach the clients in order. *)
Definition deliver (log : list Effect) (clients : Clients) : Clients :=
  foldl (λ cs e,
           match e with
           | Sent ws m => λ k, if decide (k = ws) then useWebSocket.onmessage m (cs k) else cs k
           | _ => cs
           end) clients log.

(** What the participants list of the room is. *)
Definition listing (all : list (WebSocket * SessionData)) : list UserInfo :=
  user_of <$> named_sessions all.

(** What reaches the room from the clients. *)
Inductive Traffic :=
| t_connect (ws : WebSocket) (randomUUID : string)
| t_message (ws : WebSocket) (message : string + json)
| t_close (ws : WebSocket).

(** Traffic of the client as written: the hook joins when the connection
    opens and never again, and [App] lets nobody in without a name. *)
Definition polite (r : PlanningPokerRoom) (t : Traffic) : Prop :=
  match t with
  | t_message ws message =>
      case_of message = Some case_join →
      ∃ session data n,
        Map_get ws (sessions r) = Some session ∧ name session = ""
        ∧ message = inr data ∧ member data "name" = inr (Some (JString n)) ∧ n ≠ ""
  | _ => True
  end.

(** The room handles one piece of traffic, no send failing, and each client
    handles what was sent to it. *)
Definition serve (r : PlanningPokerRoom) (clients : Clients) (t : Traffic)
  : option (PlanningPokerRoom * Clients) :=
  match t with
  | t_connect ws uuid =>
      r' ← step no_failure r (ev_connect ws uuid); Some (r', clients)
  | t_message ws message =>
      r' ← step no_failure r (ev_message ws message);
      Some (r', deliver (effects_of (webSocketMessage no_failure ws message r [])) clients)
  | t_close ws =>
      r' ← step no_failure r (ev_close ws);
      Some (r', deliver (effects_of (closeOrErrorHandler no_failure ws r [])) clients)
  end.

(** The rooms and clients that polite traffic leads to, from an empty room and
    clients in any state. *)
Inductive served : PlanningPokerRoom → Clients → Prop :=
| served_initial clients : served initial clients
| served_step r clients t r' clients' :
    served r clients → polite r t → serve r clients t = Some (r', clients') →
    served r' clients'.

(** What a joined client shows agrees with the room. *)
Definition mirrored (r : PlanningPokerRoom) (clients : Clients) : Prop :=
  ∀ ws session,
    Map_get ws (sessions r) = Some session → truthy (name session) = true →
    useWebSocket.users (clients ws) ≡ₚ listing (sessions r)
    ∧ useWebSocket.revealed (clients ws) = revealed r
    ∧ useWebSocket.myUserId (clients ws) = Some (userId session).

(** Who has no name has no vote. *)
Definition unnamed_unvoted (r : PlanningPokerRoom) : Prop :=
  ∀ ws s, (ws, s) ∈ sessions r → name s = "" → vote s = null.

(** The [map] of the [voted] case. *)
Definition mark (userId : string) (hasVoted : bool) (u : UserInfo) : UserInfo :=
  if decide (user_id u = userId) then mkUser (user_id u) (user_name u) hasVoted else u.

(** Messages that leave the mirror of the participants alone. *)
Definition harmless (m : ServerMessage) : Prop :=
  match m with
  | s_error _ | s_emoji _ _ _ => True
  | _ => False
  end.

(** Messages that leave the cards of a client alone. *)
Definition keeps_cards (m : ServerMessage) : Prop :=
  match m with
  | s_voted _ _ | s_error _ | s_joined _ _ | s_userJoined _ _ | s_emoji _ _ _ => True
  | _ => False
  end.

(** The hook before any message: the initial values of its [useState]s. *)
Definition fresh_client : useWebSocket.State :=
  useWebSocket.mkState [] None false ∅ None false [].

(** The clients of the worked scenario after Alice joined, and after Bob did. *)
Definition one_joined : Clients :=
  deliver (effects_of (webSocketMessage no_failure 1 (msg_join "Alice") lobby []))
          (λ _, fresh_client).
Definition two_joined : Clients :=
  deliver (effects_of (webSocketMessage no_failure 2 (msg_join "Bob") alice_alone []))
          one_joined.

(** ** The worker in front of the rooms *)

(** [s.split(sep)] for a separator of one character, and [parts.join(sep)]. *)
Fixpoint split (sep : ascii) (s : string) : list string :=
  match s with
  | EmptyString => [""]
  | String a s' =>
      if decide (a = sep) then "" :: split sep s'
      else match split sep s' with
           | seg :: rest => String a seg :: rest
           | [] => [String a ""]
           end
  end.

Fixpoint join (sep : string) (parts : list string) : string :=
  match parts with
  | [] => ""
  | [part] => part
  | part :: rest => (part ++ sep ++ join sep rest)%string
  end.

(** [s.slice(1)]. *)
Definition slice_1 (s : string) : string :=
  match s with
  | EmptyString => ""
  | String _ s' => s'
  end.

(** [s.trim()] strips white space and line terminators from both ends. Of
    the code units that a string holds here, those below 256, these are the
    codes 9 to 13, 32 and 160 (the no-break space). *)
Definition is_space (a : ascii) : bool :=
  bool_decide (nat_of_ascii a ∈ [9; 10; 11; 12; 13; 32; 160]).

Fixpoint trimStart (s : string) : string :=
  match s with
  | EmptyString => ""
  | String a s' => if is_space a then trimStart s' else s
  end.

Fixpoint trimEnd (s : string) : string :=
  match s with
  | EmptyString => ""
  | String a s' =>
      match trimEnd s' with
      | EmptyString => if is_space a then "" else String a ""
      | rest => String a rest
      end
  end.

Definition trim (s : string) : string := trimEnd (trimStart s).

(** [/^[0-9a-f]{64}$/]. *)
Definition is_hex_digit (a : ascii) : bool :=
  let n := nat_of_ascii a in
  bool_decide (48 ≤ n ≤ 57)%nat || bool_decide (97 ≤ n ≤ 102)%nat.

Definition matches_hex64 (s : string) : bool :=
  bool_decide (String.length s = 64) && forallb is_hex_digit (String.list_ascii_of_string s).

(** What the worker reads of a request. *)
Record Request := mkRequest {
  method : string;
  pathname : string;          (* new URL(request.url).pathname *)
  Upgrade : option string;    (* request.headers.get("Upgrade") *)
  Cookie : option string      (* request.headers.get("Cookie") *)
}.

Record CloudflareIdentity := mkIdentity {
  identity_id : string;
  identity_name : string;
  identity_email : string;
  identity_groups : list (string * string)
}.

(** The body of a response, before [JSON.stringify] where it is an object. *)
Inductive Body :=
| body_null
| body_text (text : string)
| body_whoami (id name email : string) (groups : list (string * string))
              (authenticated : bool)
| body_roomId (roomId : string)
| body_error (error : string).

(** The server end of the pair whose client end a 101 response carries: a
    socket handed to the room, or one that was sent an error and closed. *)
Inductive ServerEnd :=
| in_session (ws : WebSocket)
| turned_away (message : string) (code : nat) (reason : string).

Record Response := mkResponse {
  status : nat;
  body : Body;
  content_type : option string;
  allow_origin : option string;
  response_webSocket : option ServerEnd
}.

(** [new Response(text, { status })]: a body that is a string brings its
    content type. *)
Definition plain (status : nat) (text : string) : Response :=
  mkResponse status (body_text text) (Some "text/plain;charset=UTF-8") None None.

Definition as_json (status : nat) (body : Body) : Response :=
  mkResponse status body (Some "application/json") (Some "*") None.

Definition switching (server : ServerEnd) : Response :=
  mkResponse 101 body_null None None (Some server).

(** [getCFAuthorizationCookie]; [None] is [null] or [undefined]. *)
Fixpoint first_CF_Authorization (cookies : list string) : option string :=
  match cookies with
  | [] => None
  | cookie :: rest =>
      let parts := split "=" cookie in
      if decide (parts !! 0%nat = Some "CF_Authorization") then parts !! 1%nat
      else first_CF_Authorization rest
  end.

Definition getCFAuthorizationCookie (request : Request) : option string :=
  match Cookie request with
  | None => None
  | Some cookieHeader =>
      if truthy cookieHeader
      then first_CF_Authorization (trim <$> split ";" cookieHeader)
      else None
  end.

(** [handleErrors], around a handler of the room. *)
Definition handleErrors (request : Request) (func : Handler Response) : Handler Response :=
  λ r log,
    match func r log with
    | Threw r' log' stack =>
        Returned r' log'
          (if decide (Upgrade request = Some "websocket")
           then switching (turned_away stack 1011 "Uncaught exception during session setup")
           else plain 500 stack)
    | o => o
    end.

(** [PlanningPokerRoom.fetch]; [pair1] is the server end of the new pair and
    [randomUUID] the id that [handleSession] draws. *)
Definition fetch (request : Request) (pair1 : WebSocket) (randomUUID : string)
  : Handler Response :=
  handleErrors request
    (if decide (pathname request = "/websocket")
     then if decide (Upgrade request ≠ Some "websocket")
          then mret (plain 400 "Expected websocket")
          else handleSession pair1 randomUUID;;
               mret (switching (in_session pair1))
     else mret (plain 404 "Not found")).

Module Worker.
Section Worker.

(** The environment: the team of [ALLOW_CONNECTION_FROM_CF_ZERO_TRUST_TEAM],
    the answer of the team's identity endpoint to a token ([None] when the
    answer is not ok, is [null], or the call fails), and the [ROOMS]
    namespace. *)
Variable team : option string.
Variable get_identity : string → string → option CloudflareIdentity.
Variable DurableObjectId : Type.
Variable newUniqueId : string.
Variable idFromString : string → option DurableObjectId.
Variable idFromName : string → DurableObjectId.

Definition getCloudflareAccessUserInfo (request : Request) (teamName : string)
  : option CloudflareIdentity :=
  match getCFAuthorizationCookie request with
  | Some cfAuthToken => if truthy cfAuthToken then get_identity teamName cfAuthToken else None
  | None => None
  end.

Definition verifyCloudflareAccess (request : Request) (teamName : string) : bool :=
  bool_decide (getCloudflareAccessUserInfo request teamName ≠ None).

(** A request is answered by the worker or goes on to a room under a new
    path. *)
Inductive Routed :=
| answered (response : Response)
| forwarded (id : DurableObjectId) (newPathname : string).

(** The [whoami] case of [handleApiRequest]. *)
Definition whoami (request : Request) : Response :=
  let anonymous := as_json 200 (body_whoami "" "" "" [] false) in
  match team with
  | Some teamName =>
      if truthy teamName
      then match getCloudflareAccessUserInfo request teamName with
           | Some who =>
               as_json 200 (body_whoami (identity_id who) (identity_name who)
                              (identity_email who) (identity_groups who) true)
           | None => anonymous
           end
      else anonymous
  | None => anonymous
  end.

Definition handleApiRequest (path : list string) (request : Request) : Routed :=
  if decide (path !! 0%nat = Some "whoami") then answered (whoami request)
  else if decide (path !! 0%nat = Some "room") then
    match path !! 1%nat with
    | Some roomName =>
        if truthy roomName then
          let newPathname := ("/" ++ join "/" (skipn 2 path))%string in
          if matches_hex64 roomName then
            match idFromString roomName with
            | Some id => forwarded id newPathname
            | None =>
                answered (as_json 400 (body_error "Invalid room ID. Please create a new room."))
            end
          else if decide (String.length roomName ≤ 32)%nat
               then forwarded (idFromName roomName) newPathname
               else answered (plain 400 "Room name too long")
        else if decide (method request = "POST")
             then answered (as_json 200 (body_roomId newUniqueId))
             else answered (plain 405 "Method not allowed")
    | None =>
        if decide (method request = "POST")
        then answered (as_json 200 (body_roomId newUniqueId))
        else answered (plain 405 "Method not allowed")
    end
  else answered (plain 404 "Not found").

(** Whether the check of Cloudflare Access turns the request away. *)
Definition turned_back (request : Request) : bool :=
  match team with
  | Some teamName => truthy teamName && negb (verifyCloudflareAccess request teamName)
  | None => false
  end.

(** [fetch] of the default export. Nothing in its body throws in this model,
    so the [handleErrors] around it is left out. *)
Definition fetch (request : Request) : Routed :=
  let path := split "/" (slice_1 (pathname request)) in
  if turned_back request then
    if decide (Upgrade request = Some "websocket")
    then answered (switching (turned_away "Authentication required" 1008
                                          "Authentication required"))
    else answered (mkResponse 401 (body_text "Authentication required")
                              (Some "text/plain") None None)
  else if decide (path !! 0%nat = Some "api")
       then handleApiRequest (skipn 1 path) request
       else answered (plain 404 "Not found").

(** The id under which a room segment is looked up, if it is admitted. *)
Definition room_id (roomName : string) : option DurableObjectId :=
  if matches_hex64 roomName then idFromString roomName
  else if decide (String.length roomName ≤ 32)%nat then Some (idFromName roomName)
  else None.

End Worker.
End Worker.

(** The characters of a string. *)
Abbreviation chars := String.list_ascii_of_string.


(** A cookie header as a browser writes it. *)
Definition cookie_header (cookies : list (string * string)) : string :=
  join "; " ((λ c, c.1 ++ "=" ++ c.2)%string <$> cookies).

(** Text without separators and blanks. *)
Definition token_text (s : string) : Prop :=
  Forall (λ a, a ≠ ";"%char ∧ a ≠ "="%char ∧ is_space a = false) (chars s).

(** A worker without a team, whose ids are the names themselves. *)
Definition open_route : Request → Worker.Routed string :=
  Worker.fetch None (λ _ _, None) string "fresh" Some id.
Definition team_route : Request → Worker.Routed string :=
  Worker.fetch (Some "acme") (λ _ _, None) string "fresh" Some id.
Definition upgrade_request : Request :=
  mkRequest "GET" "/api/room/demo/websocket" (Some "websocket") None.

(** ** Laws of the session [Map] *)

Section MapLaws.
Context {V : Type}.
Implicit Types (m : list (WebSocket * V)) (ws k : WebSocket) (v : V).

Lemma Map_get_set_eq ws v m : Map_get ws (Map_set ws v m) = Some v.
Proof.
  induction m as [|[k w] rest IH]; simpl.
  - by rewrite decide_True.
  - destruct (decide (k = ws)) as [->|Hne]; simpl.
    + by rewrite decide_True.
    + by rewrite decide_False.
Qed.

Lemma Map_get_set_ne ws k v m : k ≠ ws → Map_get k (Map_set ws v m) = Map_get k m.
Proof.
  intros Hne. induction m as [|[k' w] rest IH]; simpl.
  - by rewrite decide_False.
  - destruct (decide (k' = ws)) as [->|Hne']; simpl.
    + by rewrite !decide_False.
    + destruct (decide (k' = k)); [done | apply IH].
Qed.

Lemma Map_get_delete_eq ws m : Map_get ws (Map_delete ws m) = None.
Proof.
  induction m as [|[k w] rest IH]; simpl; [done|].
  destruct (decide (k = ws)); simpl; [done|]. by rewrite decide_False.
Qed.

Lemma Map_get_delete_ne ws k m : k ≠ ws → Map_get k (Map_delete ws m) = Map_get k m.
Proof.
  intros Hne. induction m as [|[k' w] rest IH]; simpl; [done|].
  destruct (decide (k' = ws)) as [->|Hne']; simpl.
  - by rewrite decide_False.
  - destruct (decide (k' = k)); [done | apply IH].
Qed.

Lemma Map_get_elem_of ws v m : Map_get ws m = Some v → (ws, v) ∈ m.
Proof.
  induction m as [|[k w] rest IH]; simpl; [done|].
  destruct (decide (k = ws)) as [->|Hne].
  - intros [= ->]. apply list_elem_of_here.
  - intros H. apply list_elem_of_further, IH, H.
Qed.

Lemma Map_get_None ws m : Map_get ws m = None ↔ ws ∉ Map_keys m.
Proof.
  unfold Map_keys. induction m as [|[k w] rest IH]; simpl.
  - split; [intros _; apply not_elem_of_nil | done].
  - rewrite not_elem_of_cons. destruct (decide (k = ws)) as [->|Hne].
    + split; [done | intros [? _]; done].
    + rewrite IH. naive_solver.
Qed.

Lemma Map_elem_of_get ws v m : NoDup (Map_keys m) → (ws, v) ∈ m → Map_get ws m = Some v.
Proof.
  unfold Map_keys. induction m as [|[k w] rest IH]; simpl.
  - intros _ H. by apply elem_of_nil in H.
  - rewrite NoDup_cons. intros [Hk Hnd] [Heq|Hin]%elem_of_cons.
    + simplify_eq. by rewrite decide_True.
    + destruct (decide (k = ws)) as [->|Hne]; [|by apply IH].
      exfalso. apply Hk. apply list_elem_of_fmap. by exists (ws, v).
Qed.

Lemma Map_set_keys_present ws v m :
  ws ∈ Map_keys m → Map_keys (Map_set ws v m) = Map_keys m.
Proof.
  unfold Map_keys. induction m as [|[k w] rest IH]; simpl.
  - intros H. by apply elem_of_nil in H.
  - intros Hin. destruct (decide (k = ws)) as [->|Hne]; simpl; [done|].
    f_equal. apply IH. apply elem_of_cons in Hin as [?|?]; [congruence | done].
Qed.

Lemma Map_set_keys_absent ws v m :
  ws ∉ Map_keys m → Map_keys (Map_set ws v m) = Map_keys m ++ [ws].
Proof.
  unfold Map_keys. induction m as [|[k w] rest IH]; simpl; [done|].
  rewrite not_elem_of_cons. intros [Hne Hnin].
  rewrite decide_False by done. simpl. f_equal. by apply IH.
Qed.

Lemma Map_set_NoDup ws v m : NoDup (Map_keys m) → NoDup (Map_keys (Map_set ws v m)).
Proof.
  intros Hnd. destruct (decide (ws ∈ Map_keys m)) as [Hin|Hnin].
  - by rewrite Map_set_keys_present.
  - rewrite Map_set_keys_absent by done. apply NoDup_app. split; [done|].
    split; [|apply NoDup_singleton].
    intros x Hx ->%list_elem_of_singleton. done.
Qed.

Lemma Map_delete_keys ws m : Map_keys (Map_delete ws m) = filter (λ k, k ≠ ws) (Map_keys m).
Proof.
  unfold Map_keys. induction m as [|[k w] rest IH]; simpl; [done|].
  destruct (decide (k = ws)) as [->|Hne].
  - rewrite filter_cons_False by (simpl; naive_solver). apply IH.
  - rewrite filter_cons_True by done. simpl. by f_equal.
Qed.

Lemma Map_delete_NoDup ws m : NoDup (Map_keys m) → NoDup (Map_keys (Map_delete ws m)).
Proof. intros H. rewrite Map_delete_keys. by apply NoDup_filter. Qed.

Lemma Map_delete_elem_of ws k v m : (k, v) ∈ Map_delete ws m ↔ k ≠ ws ∧ (k, v) ∈ m.
Proof.
  induction m as [|[k' w] rest IH]; simpl.
  - split; [intros H; by apply elem_of_nil in H | intros [_ H]; by apply elem_of_nil in H].
  - destruct (decide (k' = ws)) as [->|Hne].
    + rewrite IH, elem_of_cons. naive_solver.
    + rewrite !elem_of_cons, IH. naive_solver.
Qed.

End MapLaws.

(** ** Deleting the quitters *)

Lemma Map_get_drop quitters (entries : list (WebSocket * SessionData)) ws :
  Map_get ws (drop quitters entries)
  = if decide (ws ∈ quitters) then None else Map_get ws entries.
Proof.
  unfold drop. revert entries.
  induction quitters as [|q quitters IH]; intros entries; simpl; [done|].
  rewrite IH. destruct (decide (ws ∈ quitters)) as [Hin|Hnin].
  - rewrite decide_True; [done | by apply list_elem_of_further].
  - destruct (decide (ws = q)) as [->|Hne].
    + rewrite decide_True by apply list_elem_of_here. apply Map_get_delete_eq.
    + rewrite decide_False by (rewrite elem_of_cons; naive_solver).
      by apply Map_get_delete_ne.
Qed.

Lemma drop_NoDup quitters (entries : list (WebSocket * SessionData)) :
  NoDup (Map_keys entries) → NoDup (Map_keys (drop quitters entries)).
Proof.
  unfold drop. revert entries.
  induction quitters as [|q quitters IH]; intros entries Hnd; simpl; [done|].
  by apply IH, Map_delete_NoDup.
Qed.

Lemma drop_elem_of quitters (entries : list (WebSocket * SessionData)) ws s :
  (ws, s) ∈ drop quitters entries ↔ (ws ∉ quitters) ∧ (ws, s) ∈ entries.
Proof.
  unfold drop. revert entries.
  induction quitters as [|q quitters IH]; intros entries; simpl.
  - split; [intros H; split; [apply not_elem_of_nil | done] | intros [_ ?]; done].
  - rewrite IH, Map_delete_elem_of, not_elem_of_cons. naive_solver.
Qed.

(** ** The fan-out loop *)

Section FanOut.
Variable throws : WebSocket → option string.
Implicit Types (entries : list (WebSocket * SessionData)) (ws : WebSocket).

(** The sends of the loop: one attempt per eligible entry, in the order of
    the registry. *)
Lemma fanOut_log message exclude entries :
  (fanOut throws message exclude entries).1
  = attempt throws message <$> (filter (eligible exclude) entries).*1.
Proof.
  induction entries as [|[ws s] rest IH]; simpl; [done|].
  destruct (fanOut throws message exclude rest) as [log quitters] eqn:E.
  simpl in IH. subst log.
  destruct (decide (exclude = Some ws)) as [He|He].
  { rewrite filter_cons_False; [done | intros [H _]; by apply H]. }
  destruct (truthy (name s)) eqn:Hn; simpl.
  - rewrite filter_cons_True by (by split). simpl.
    destruct (throws ws) eqn:Ht; simpl; unfold attempt; rewrite Ht; reflexivity.
  - rewrite filter_cons_False; [done | intros [_ H]; simpl in H; congruence].
Qed.

(** The quitters: the eligible entries whose send threw. *)
Lemma fanOut_quitters message exclude entries :
  (fanOut throws message exclude entries).2
  = filter (λ ws, throws ws ≠ None) (filter (eligible exclude) entries).*1.
Proof.
  induction entries as [|[ws s] rest IH]; simpl; [done|].
  destruct (fanOut throws message exclude rest) as [log quitters] eqn:E.
  simpl in IH. subst quitters.
  destruct (decide (exclude = Some ws)) as [He|He].
  { rewrite filter_cons_False; [done | intros [H _]; by apply H]. }
  destruct (truthy (name s)) eqn:Hn; simpl.
  - rewrite (filter_cons_True (eligible exclude)) by (by split). simpl.
    destruct (throws ws) eqn:Ht; simpl.
    + by rewrite filter_cons_True by (by rewrite Ht).
    + by rewrite filter_cons_False by (rewrite Ht; naive_solver).
  - rewrite filter_cons_False; [done | intros [_ H]; simpl in H; congruence].
Qed.

(** Running [broadcast]. *)
Lemma broadcast_run message exclude r log :
  broadcast throws message exclude r log
  = Returned (mkRoom (state r)
                     (drop (fanOut throws message exclude (sessions r)).2 (sessions r))
                     (revealed r))
             (log ++ (fanOut throws message exclude (sessions r)).1) ().
Proof.
  unfold broadcast. by destruct (fanOut throws message exclude (sessions r)).
Qed.

End FanOut.

(** Attempts of one message. *)

Lemma attempt_target throws message ws : target (attempt throws message ws) = ws.
Proof. unfold attempt. by destruct (throws ws). Qed.

Lemma attempt_payload throws message ws : payload (attempt throws message ws) = Some message.
Proof. unfold attempt. by destruct (throws ws). Qed.

(** Among attempts on distinct connections, exactly one is on a given one. *)
Lemma attempts_on throws message (l : list WebSocket) ws :
  NoDup l → ws ∈ l →
  filter (λ e, target e = ws) (attempt throws message <$> l) = [attempt throws message ws].
Proof.
  induction l as [|k l IH]; intros Hnd Hin; [by apply elem_of_nil in Hin|].
  apply NoDup_cons in Hnd as [Hk Hnd]. rewrite fmap_cons.
  destruct (decide (k = ws)) as [->|Hne].
  - rewrite filter_cons_True by apply attempt_target. f_equal.
    clear IH Hin Hnd. induction l as [|k l IH]; [done|].
    apply not_elem_of_cons in Hk as [Hne Hk]. rewrite fmap_cons.
    rewrite filter_cons_False by (rewrite attempt_target; congruence). by apply IH.
  - rewrite filter_cons_False by (rewrite attempt_target; congruence).
    apply IH; [done|]. apply elem_of_cons in Hin as [?|?]; [congruence | done].
Qed.

Lemma eligible_keys_NoDup exclude (entries : list (WebSocket * SessionData)) :
  NoDup (Map_keys entries) → NoDup (filter (eligible exclude) entries).*1.
Proof.
  unfold Map_keys. intros Hnd. eapply sublist_NoDup; [exact Hnd|].
  apply fmap_sublist, sublist_filter.
Qed.

(** ** Running the handlers *)

(** Unfolds the plumbing of handlers, leaving the matches on the data. *)
Ltac run_handler :=
  unfold webSocketMessage, closeOrErrorHandler, handleSession, must_join_first,
    try_catch, JSON_parse, property, send, close, gets, set_sessions, set_revealed,
    serializeAttachment, acceptWebSocket, throw, unmodelled,
    mbind, handler_bind, mret, handler_ret; simpl.

Section Rejections.
Variable throws : WebSocket → option string.

(** The reply of a join-gated case to a session without a name. *)
Lemma must_join_first_run ws r :
  try_catch (must_join_first throws ws) (λ err, send throws ws (s_error err)) r []
  = match throws ws with
    | None => Returned r [Sent ws (s_error "Must join first")] ()
    | Some err =>
        Threw r [SendThrew ws (s_error "Must join first"); SendThrew ws (s_error err)] err
    end.
Proof. run_handler. destruct (throws ws) eqn:Ht; simpl; by rewrite ?Ht. Qed.

End Rejections.

Lemma closeOrErrorHandler_run throws ws r :
  closeOrErrorHandler throws ws r []
  = match Map_get ws (sessions r) with
    | Some session =>
        if truthy (name session)
        then let message := s_userLeft (userId session) in
             Returned (mkRoom (state r)
                         (Map_delete ws
                            (drop (fanOut throws message None (sessions r)).2 (sessions r)))
                         (revealed r))
                      ((fanOut throws message None (sessions r)).1) ()
        else Returned (mkRoom (state r) (Map_delete ws (sessions r)) (revealed r)) [] ()
    | None => Returned (mkRoom (state r) (Map_delete ws (sessions r)) (revealed r)) [] ()
    end.
Proof.
  run_handler. destruct (Map_get ws (sessions r)) as [session|]; [|done].
  destruct (truthy (name session)); [|done].
  by rewrite broadcast_run.
Qed.

(** The cases of [webSocketMessage], run on a registered connection. *)

Section Cases.
Variable throws : WebSocket → option string.
Variables (r : PlanningPokerRoom) (ws : WebSocket) (session : SessionData) (data : json).
Hypothesis registered : Map_get ws (sessions r) = Some session.

Lemma join_run n :
  member data "type" = inr (Some (JString "join")) →
  member data "name" = inr (Some (JString n)) →
  let joined := with_name session (slice_0_32 n) in
  let all := Map_set ws joined (sessions r) in
  let st := mkState (webSockets (state r)) (<[ws := meta_of joined]> (attachments (state r))) in
  let announce := s_userJoined (userId session) (slice_0_32 n) in
  webSocketMessage throws ws (inr data) r []
  = match throws ws with
    | None =>
        Returned (mkRoom st (drop (fanOut throws announce (Some ws) all).2 all) (revealed r))
                 ([Sent ws (stateMessage all (revealed r));
                   Sent ws (s_joined (userId session) (slice_0_32 n))]
                  ++ (fanOut throws announce (Some ws) all).1) ()
    | Some err =>
        Threw (mkRoom st all (revealed r))
              [SendThrew ws (stateMessage all (revealed r)); SendThrew ws (s_error err)] err
    end.
Proof.
  intros Htype Hname. run_handler. rewrite registered, Htype, Hname. simpl.
  destruct (throws ws) eqn:Ht; simpl; [by rewrite ?Ht|].
  by rewrite broadcast_run.
Qed.

Lemma vote_run card :
  truthy (name session) = true →
  member data "type" = inr (Some (JString "vote")) →
  member data "card" = inr card →
  let voted := with_vote session card in
  let all := Map_set ws voted (sessions r) in
  let st := mkState (webSockets (state r)) (<[ws := meta_of voted]> (attachments (state r))) in
  let message := s_voted (userId session) (notNull card) in
  webSocketMessage throws ws (inr data) r []
  = Returned (mkRoom st (drop (fanOut throws message None all).2 all) (revealed r))
             (fanOut throws message None all).1 ().
Proof.
  intros Hnamed Htype Hcard. run_handler. rewrite registered, Htype, Hnamed, Hcard. simpl.
  by rewrite broadcast_run.
Qed.

Lemma reveal_run :
  truthy (name session) = true →
  member data "type" = inr (Some (JString "reveal")) →
  let message := s_revealed (JSON_stringify (collect_votes (sessions r))) in
  webSocketMessage throws ws (inr data) r []
  = Returned (mkRoom (state r) (drop (fanOut throws message None (sessions r)).2 (sessions r)) true)
             (fanOut throws message None (sessions r)).1 ().
Proof.
  intros Hnamed Htype. run_handler. rewrite registered, Htype, Hnamed. simpl.
  by rewrite broadcast_run.
Qed.

Lemma emoji_run toUserId emoji :
  truthy (name session) = true →
  member data "type" = inr (Some (JString "emoji")) →
  member data "targetUserId" = inr (Some (JString toUserId)) →
  member data "emoji" = inr (Some (JString emoji)) →
  let message := s_emoji (userId session) toUserId emoji in
  webSocketMessage throws ws (inr data) r []
  = Returned (mkRoom (state r) (drop (fanOut throws message None (sessions r)).2 (sessions r))
                     (revealed r))
             (fanOut throws message None (sessions r)).1 ().
Proof.
  intros Hnamed Htype Hto Hemoji. run_handler.
  rewrite registered, Htype, Hnamed, Hto, Hemoji. simpl.
  by rewrite broadcast_run.
Qed.

End Cases.

Lemma serialize_all_run (all : list (WebSocket * SessionData)) r log :
  foldr (λ e rest,
           serializeAttachment (webSocket e.2) (mkMeta (userId e.2) (name e.2) null);; rest)
        (mret ()) all r log
  = Returned (mkRoom (mkState (webSockets (state r))
                              (reset_attachments all (attachments (state r))))
                     (sessions r) (revealed r)) log ().
Proof.
  revert r. induction all as [|e all IH]; intros r; simpl.
  - by destruct r as [[] ? ?].
  - unfold mbind, handler_bind, serializeAttachment at 1. simpl. by rewrite IH.
Qed.

Lemma reset_run throws r ws session data :
  Map_get ws (sessions r) = Some session →
  truthy (name session) = true →
  member data "type" = inr (Some (JString "reset")) →
  let all := (λ e, (e.1, with_vote e.2 null)) <$> sessions r in
  let st := mkState (webSockets (state r))
                    (reset_attachments (sessions r) (attachments (state r))) in
  webSocketMessage throws ws (inr data) r []
  = Returned (mkRoom st (drop (fanOut throws s_reset None all).2 all) false)
             (fanOut throws s_reset None all).1 ().
Proof.
  intros Hget Hnamed Htype.
  pose proof serialize_all_run as Hs.
  unfold mbind, handler_bind, serializeAttachment, mret, handler_ret in Hs.
  run_handler. rewrite Hget, Htype, Hnamed. simpl.
  rewrite Hs. simpl. by rewrite broadcast_run.
Qed.

(** ** Truncation and listings *)



Lemma named_sessions_elem_of (all : list (WebSocket * SessionData)) s :
  s ∈ named_sessions all ↔ truthy (name s) = true ∧ ∃ k, (k, s) ∈ all.
Proof.
  unfold named_sessions, Map_values. rewrite list_elem_of_filter, list_elem_of_fmap.
  split.
  - intros [? ([k s'] & -> & ?)]. eauto.
  - intros [? [k ?]]. split; [done|]. by exists (k, s).
Qed.

(** ** Vote maps *)

Lemma Object_fromEntries_snoc entries k v :
  Object_fromEntries (entries ++ [(k, v)]) = <[k := v]> (Object_fromEntries entries).
Proof. unfold Object_fromEntries. by rewrite foldl_app. Qed.

Lemma Object_fromEntries_dom entries k :
  k ∈ dom (Object_fromEntries entries) ↔ k ∈ entries.*1.
Proof.
  induction entries as [|[k' v] entries IH] using rev_ind.
  - unfold Object_fromEntries. simpl. rewrite dom_empty_L. set_solver.
  - rewrite Object_fromEntries_snoc, dom_insert_L, fmap_app, elem_of_app. simpl.
    rewrite elem_of_union, IH. set_solver.
Qed.


(** The [forEach] of the reveal case builds the map that [Object.fromEntries]
    builds in the join case. *)
Lemma collect_votes_fromEntries (entries : list (WebSocket * SessionData)) :
  collect_votes entries
  = Object_fromEntries ((λ s, (userId s, vote s)) <$> named_sessions entries).
Proof.
  induction entries as [|[k s] entries IH] using rev_ind; [done|].
  unfold collect_votes in *. rewrite foldl_app. simpl. rewrite IH.
  unfold named_sessions, Map_values. rewrite fmap_app, filter_app. simpl.
  destruct (truthy (name s)) eqn:Hn.
  - rewrite filter_cons_True by done. rewrite filter_nil, fmap_app. simpl.
    by rewrite Object_fromEntries_snoc.
  - rewrite filter_cons_False by congruence. by rewrite filter_nil, app_nil_r.
Qed.






(** ** Hidden votes *)

Lemma quiet_nil : quiet [].
Proof. intros e m Hin. by apply elem_of_nil in Hin. Qed.

Lemma quiet_app log1 log2 : quiet log1 → quiet log2 → quiet (log1 ++ log2).
Proof. intros H1 H2 e m [?|?]%elem_of_app; eauto. Qed.

Lemma quiet_fanOut throws message exclude entries :
  carries_votes message = false → quiet (fanOut throws message exclude entries).1.
Proof.
  intros Hm e m. rewrite fanOut_log. intros (k & -> & _)%list_elem_of_fmap.
  rewrite attempt_payload. by intros [= <-].
Qed.

(** Each step of a handler keeps a hidden room hidden, as long as the messages
    it sends carry no votes. *)

Section Hidden.
Variable throws : WebSocket → option string.

Lemma hidden_bind {A B} (m : Handler A) (k : A → Handler B) r log :
  hidden_at (m r log) →
  (∀ r' log' a, m r log = Returned r' log' a → revealed r' = false → quiet log' →
                hidden_at (k a r' log')) →
  hidden_at ((m ≫= k) r log).
Proof.
  unfold mbind, handler_bind. destruct (m r log); simpl; [|done..].
  intros [? ?] Hk. by apply Hk.
Qed.

Lemma hidden_try_catch body handler r log :
  hidden_at (body r log) →
  (∀ r' log' err, revealed r' = false → quiet log' → hidden_at (handler err r' log')) →
  hidden_at (try_catch body handler r log).
Proof.
  unfold try_catch. destruct (body r log); simpl; [done| |done].
  intros [? ?] Hk. by apply Hk.
Qed.

Lemma hidden_send ws m r log :
  carries_votes m = false → revealed r = false → quiet log →
  hidden_at (send throws ws m r log).
Proof.
  intros Hm Hr Hq. unfold send.
  destruct (throws ws); simpl; (split; [done|]); apply quiet_app; try done.
  all: intros e m' ->%list_elem_of_singleton [= <-]; done.
Qed.

Lemma hidden_broadcast message exclude r log :
  carries_votes message = false → revealed r = false → quiet log →
  hidden_at (broadcast throws message exclude r log).
Proof.
  intros Hm Hr Hq. rewrite broadcast_run. simpl. split; [done|].
  apply quiet_app; [done | by apply quiet_fanOut].
Qed.

Lemma hidden_close ws code reason r log :
  revealed r = false → quiet log → hidden_at (close ws code reason r log).
Proof.
  intros Hr Hq. unfold close. simpl. split; [done|]. apply quiet_app; [done|].
  by intros e m ->%list_elem_of_singleton.
Qed.

Lemma hidden_serialize_all (all : list (WebSocket * SessionData)) r log :
  revealed r = false → quiet log →
  hidden_at (foldr (λ e rest,
           serializeAttachment (webSocket e.2) (mkMeta (userId e.2) (name e.2) null);; rest)
        (mret ()) all r log).
Proof. intros Hr Hq. by rewrite serialize_all_run. Qed.

Lemma hidden_webSocketMessage r ws message :
  revealed r = false →
  (case_of message = Some case_reveal →
   ∀ session, Map_get ws (sessions r) = Some session → name session = "") →
  hidden_at (webSocketMessage throws ws message r []).
Proof.
  intros Hr Hreveal. unfold webSocketMessage.
  apply hidden_try_catch; [|intros; by apply hidden_send].
  apply hidden_bind; [split; [done | apply quiet_nil]|].
  intros r1 log1 found [= <- <- <-] _ Hq.
  destruct (Map_get ws (sessions r)) as [session|] eqn:Hget.
  2:{ by apply hidden_close. }
  apply hidden_bind.
  { destruct message; simpl; done. }
  intros r2 log2 data0 Hdata _ _.
  destruct message as [err|data]; simpl in Hdata; [done|].
  injection Hdata as <- <- <-.
  apply hidden_bind.
  { unfold property. destruct (member data "type"); simpl; done. }
  intros r3 log3 type0 Htype _ _. unfold property in Htype.
  destruct (member data "type") as [err|type] eqn:Hmember; simpl in Htype; [done|].
  injection Htype as <- <- <-.
  simpl in Hreveal. rewrite Hmember in Hreveal.
  destruct (switch type) as [[]|] eqn:Hswitch.
  - apply hidden_bind.
    { apply hidden_bind; [unfold property; by destruct (member data "name")|].
      intros r4 log4 v Hv Hr4 Hq4. unfold name_slice.
      by destruct v as [[]|]. }
    intros r4 log4 sliced _ Hr4 Hq4.
    apply hidden_bind; [done|]. intros r5 log5 [] [= <- <-] _ _.
    apply hidden_bind; [done|]. intros r6 log6 [] [= <- <-] _ _.
    apply hidden_bind; [done|]. intros r7 log7 all [= <- <- <-] _ _.
    apply hidden_bind; [done|]. intros r8 log8 shown [= <- <- <-] _ _.
    simpl. rewrite Hr4.
    apply hidden_bind; [by apply hidden_send|]. intros r9 log9 [] _ Hr9 Hq9.
    apply hidden_bind; [by apply hidden_send|]. intros r10 log10 [] _ Hr10 Hq10.
    by apply hidden_broadcast.
  - destruct (truthy (name session)); simpl; [|by apply hidden_send].
    apply hidden_bind; [unfold property; by destruct (member data "card")|].
    intros r4 log4 card _ Hr4 Hq4.
    apply hidden_bind; [done|]. intros r5 log5 [] [= <- <-] _ _.
    apply hidden_bind; [done|]. intros r6 log6 [] [= <- <-] _ _.
    by apply hidden_broadcast.
  - rewrite (Hreveal eq_refl session eq_refl). simpl. by apply hidden_send.
  - destruct (truthy (name session)); simpl; [|by apply hidden_send].
    apply hidden_bind.
    { apply hidden_bind; [unfold property; by destruct (member data "targetUserId")|].
      intros r4 log4 v Hv Hr4 Hq4. unfold as_string.
      by destruct v as [[]|]. }
    intros r4 log4 toUserId _ Hr4 Hq4.
    apply hidden_bind.
    { apply hidden_bind; [unfold property; by destruct (member data "emoji")|].
      intros r5 log5 v Hv Hr5 Hq5. unfold as_string.
      by destruct v as [[]|]. }
    intros r5 log5 emoji _ Hr5 Hq5.
    by apply hidden_broadcast.
  - destruct (truthy (name session)); simpl; [|by apply hidden_send].
    apply hidden_bind; [done|]. intros r4 log4 [] [= <- <-] _ _.
    apply hidden_bind; [done|]. intros r5 log5 all [= <- <- <-] _ _.
    apply hidden_bind; [done|]. intros r6 log6 [] [= <- <-] _ _.
    apply hidden_bind; [by apply hidden_serialize_all|].
    intros r7 log7 [] _ Hr7 Hq7.
    by apply hidden_broadcast.
  - done.
Qed.
End Hidden.

(** ** Consistency of the registry with the attachments *)

Lemma Map_set_elem_of {V} ws (v : V) k w (m : list (WebSocket * V)) :
  NoDup (Map_keys m) → (k, w) ∈ Map_set ws v m →
  (k = ws ∧ w = v) ∨ (k ≠ ws ∧ (k, w) ∈ m).
Proof.
  intros Hnd Hin.
  apply Map_elem_of_get in Hin; [|by apply Map_set_NoDup].
  destruct (decide (k = ws)) as [->|Hne].
  - rewrite Map_get_set_eq in Hin. left. by simplify_eq.
  - rewrite Map_get_set_ne in Hin by done. right. split; [done|].
    by apply Map_get_elem_of.
Qed.

Lemma meta_of_restored ws meta : meta_of (restored_session ws meta) = meta.
Proof. by destruct meta. Qed.

(** New attachments that keep the user id of each connection keep the user
    ids distinct. *)
Lemma ids_distinct_kept (atts atts' : gmap nat Attachment) :
  (∀ k1 k2 a1 a2, atts !! k1 = Some a1 → atts !! k2 = Some a2 →
                  meta_userId a1 = meta_userId a2 → k1 = k2) →
  (∀ k a', atts' !! k = Some a' →
           ∃ a, atts !! k = Some a ∧ meta_userId a = meta_userId a') →
  ∀ k1 k2 a1 a2, atts' !! k1 = Some a1 → atts' !! k2 = Some a2 →
                 meta_userId a1 = meta_userId a2 → k1 = k2.
Proof.
  intros Hids Hkept k1 k2 a1 a2 H1 H2 Heq.
  apply Hkept in H1 as (b1 & H1 & E1). apply Hkept in H2 as (b2 & H2 & E2).
  eapply Hids; [exact H1 | exact H2 | congruence].
Qed.

Lemma reset_attachments_lookup (all : list (WebSocket * SessionData)) atts k :
  NoDup (Map_keys all) →
  (∀ ws s, (ws, s) ∈ all → webSocket s = ws) →
  reset_attachments all atts !! k
  = match Map_get k all with
    | Some s => Some (mkMeta (userId s) (name s) null)
    | None => atts !! k
    end.
Proof.
  unfold reset_attachments, Map_keys. revert atts.
  induction all as [|[k' s'] all IH]; intros atts Hnd Hws; simpl; [done|].
  apply NoDup_cons in Hnd as [Hk' Hnd].
  rewrite IH; [|done|intros ws s Hin; apply Hws; by apply list_elem_of_further].
  assert (webSocket s' = k') as -> by (apply Hws; apply list_elem_of_here).
  destruct (decide (k' = k)) as [->|Hne].
  - assert (Map_get k all = None) as -> by (by apply Map_get_None).
    apply lookup_insert_eq.
  - destruct (Map_get k all); [done|]. by apply lookup_insert_ne.
Qed.

Section Consistency.
Variable r : PlanningPokerRoom.
Hypothesis Hr : consistent r.

Lemma consistent_revealed b : consistent (mkRoom (state r) (sessions r) b).
Proof. by destruct Hr. Qed.

Lemma consistent_drop quitters b :
  consistent (mkRoom (state r) (drop quitters (sessions r)) b).
Proof.
  destruct Hr as [Hnd Hatt Hacc Hids]. split; simpl; [|intros ws s|done..].
  - by apply drop_NoDup.
  - intros [_ Hin]%drop_elem_of. by apply Hatt.
Qed.

Lemma consistent_delete ws :
  consistent (mkRoom (state r) (Map_delete ws (sessions r)) (revealed r)).
Proof.
  destruct Hr as [Hnd Hatt Hacc Hids]. split; simpl; [|intros k s|done..].
  - by apply Map_delete_NoDup.
  - intros [_ Hin]%Map_delete_elem_of. by apply Hatt.
Qed.

Lemma consistent_disconnected ws : consistent (disconnected ws r).
Proof.
  destruct Hr as [Hnd Hatt Hacc Hids]. split; simpl; [done..| |done].
  intros k [_ Hin]%list_elem_of_filter. by apply Hacc.
Qed.

(** [session.field = ...; ws.serializeAttachment({...})]. *)
Lemma consistent_update ws s s' b :
  Map_get ws (sessions r) = Some s →
  userId s' = userId s → webSocket s' = webSocket s →
  consistent (mkRoom (mkState (webSockets (state r))
                              (<[ws := meta_of s']> (attachments (state r))))
                     (Map_set ws s' (sessions r)) b).
Proof.
  intros Hget Hid Hsock. destruct Hr as [Hnd Hatt Hacc Hids].
  apply Map_get_elem_of in Hget. destruct (Hatt ws s Hget) as [Hmeta Hws].
  split; simpl.
  - by apply Map_set_NoDup.
  - intros k x [[-> ->]|[Hne Hin]]%Map_set_elem_of; [| |done].
    + rewrite lookup_insert_eq. split; [done | congruence].
    + rewrite lookup_insert_ne by done. by apply Hatt.
  - intros k Hk. destruct (decide (ws = k)) as [->|Hne].
    + by rewrite lookup_insert_eq.
    + rewrite lookup_insert_ne by done. by apply Hacc.
  - apply (ids_distinct_kept (attachments (state r))); [done|].
    intros k a'. destruct (decide (ws = k)) as [->|Hne].
    + rewrite lookup_insert_eq. intros [= <-]. exists (meta_of s). split; [done|].
      simpl. congruence.
    + rewrite lookup_insert_ne by done. eauto.
Qed.

(** The loop of the reset case. *)
Lemma consistent_reset b :
  consistent (mkRoom (mkState (webSockets (state r))
                              (reset_attachments (sessions r) (attachments (state r))))
                     ((λ e, (e.1, with_vote e.2 null)) <$> sessions r) b).
Proof.
  destruct Hr as [Hnd Hatt Hacc Hids].
  assert (Hlook := λ k, reset_attachments_lookup (sessions r) (attachments (state r)) k
                          Hnd (λ ws s Hin, proj2 (Hatt ws s Hin))).
  split; simpl.
  - unfold Map_keys in *. by rewrite <- list_fmap_compose.
  - intros k x ([k' s] & [= -> ->] & Hin)%list_elem_of_fmap. simpl.
    rewrite Hlook. rewrite (Map_elem_of_get _ _ _ Hnd Hin).
    split; [done | by apply Hatt].
  - intros k Hk. rewrite Hlook. destruct (Map_get k (sessions r)); [done | by apply Hacc].
  - apply (ids_distinct_kept (attachments (state r))); [done|].
    intros k a'. rewrite Hlook.
    destruct (Map_get k (sessions r)) as [s|] eqn:Hget; [|eauto].
    intros [= <-]. apply Map_get_elem_of in Hget.
    exists (meta_of s). split; [by apply Hatt | done].
Qed.

(** [handleSession] on a new socket with a new user id. *)
Lemma consistent_handleSession ws uuid :
  attachments (state r) !! ws = None →
  fresh_uuid (state r) uuid →
  consistent (mkRoom (mkState (webSockets (state r) ++ [ws])
                              (<[ws := mkMeta uuid "" null]> (attachments (state r))))
                     (Map_set ws (mkSession uuid "" null ws) (sessions r)) (revealed r)).
Proof.
  intros Hnew Hfresh. destruct Hr as [Hnd Hatt Hacc Hids]. split; simpl.
  - by apply Map_set_NoDup.
  - intros k x [[-> ->]|[Hne Hin]]%Map_set_elem_of; [| |done].
    + by rewrite lookup_insert_eq.
    + rewrite lookup_insert_ne by done. by apply Hatt.
  - intros k Hk. destruct (decide (ws = k)) as [->|Hne].
    + by rewrite lookup_insert_eq.
    + rewrite lookup_insert_ne by done. apply Hacc.
      apply elem_of_app in Hk as [Hk|Hk%list_elem_of_singleton]; [done | congruence].
  - intros k1 k2 a1 a2.
    destruct (decide (k1 = ws)) as [E1|Hne1]; destruct (decide (k2 = ws)) as [E2|Hne2];
      subst; rewrite ?lookup_insert_eq, ?lookup_insert_ne by done;
      [done| | |by apply Hids].
    + intros [= <-] H2 Heq. exfalso. by apply (Hfresh k2 a2 H2).
    + intros H1 [= <-] Heq. exfalso. by apply (Hfresh k1 a1 H1).
Qed.

End Consistency.

(** ** Waking up *)

Lemma restore_fold (st : DurableObjectState) wss acc :
  (∀ ws, ws ∈ wss → is_Some (attachments st !! ws)) →
  NoDup (Map_keys acc) →
  (∀ k s, (k, s) ∈ acc → attachments st !! k = Some (meta_of s) ∧ webSocket s = k) →
  ∃ restored,
    foldl (λ acc webSocket,
             all ← acc;
             meta ← attachments st !! webSocket;
             Some (Map_set webSocket (restored_session webSocket meta) all))
          (Some acc) wss = Some restored
    ∧ NoDup (Map_keys restored)
    ∧ (∀ k s, (k, s) ∈ restored →
         attachments st !! k = Some (meta_of s) ∧ webSocket s = k)
    ∧ (∀ k, k ∈ wss ∨ is_Some (Map_get k acc) → is_Some (Map_get k restored)).
Proof.
  revert acc. induction wss as [|w wss IH]; intros acc Hatt Hnd Hacc; simpl.
  - exists acc. split; [done|]. split; [done|]. split; [done|].
    intros k [Hk|Hk]; [by apply elem_of_nil in Hk | done].
  - destruct (Hatt w) as [meta Hmeta]; [apply list_elem_of_here|]. rewrite Hmeta. simpl.
    destruct (IH (Map_set w (restored_session w meta) acc)) as (restored & Hfold & Hnd' & Hacc' & Hget).
    + intros ws Hws. apply Hatt. by apply list_elem_of_further.
    + by apply Map_set_NoDup.
    + intros k s [[-> ->]|[Hne Hin]]%Map_set_elem_of; [| |done].
      * by rewrite meta_of_restored.
      * by apply Hacc.
    + exists restored. split; [done|]. split; [done|]. split; [done|].
      intros k Hk. apply Hget.
      destruct (decide (k = w)) as [->|Hne].
      * right. by rewrite Map_get_set_eq.
      * rewrite Map_get_set_ne by done.
        destruct Hk as [Hk|Hk]; [|by right].
        left. apply elem_of_cons in Hk as [?|?]; [done | done].
Qed.

Lemma session_eq (s1 s2 : SessionData) :
  meta_of s1 = meta_of s2 → webSocket s1 = webSocket s2 → s1 = s2.
Proof. destruct s1, s2. unfold meta_of. simpl. by intros [= -> -> ->] ->. Qed.

(** The constructor succeeds on the state of a consistent room, gives a
    consistent room again, with the votes hidden, and every session of a
    connected socket is back as it was. *)
Lemma constructor_consistent r :
  consistent r →
  ∃ r', constructor (state r) = Some r'
        ∧ consistent r'
        ∧ state r' = state r
        ∧ revealed r' = false
        ∧ (∀ ws s, Map_get ws (sessions r) = Some s → ws ∈ webSockets (state r) →
             Map_get ws (sessions r') = Some s).
Proof.
  intros [Hnd Hatt Hacc Hids].
  destruct (restore_fold (state r) (webSockets (state r)) []) as (restored & Hfold & Hnd' & Hatt' & Hget).
  - done.
  - apply NoDup_nil_2.
  - intros k s Hin. by apply elem_of_nil in Hin.
  - unfold constructor. rewrite Hfold. simpl. eexists. split; [done|].
    split; [by split|]. split; [done|]. split; [done|]. simpl.
    intros ws s Hs Hws.
    destruct (Hget ws) as [s' Hs']; [by left|]. rewrite Hs'. f_equal.
    apply Map_get_elem_of in Hs, Hs'.
    destruct (Hatt ws s Hs) as [? ?], (Hatt' ws s' Hs') as [? ?].
    apply session_eq; congruence.
Qed.

(** ** Handlers keep the room consistent *)

Lemma keeps_room_bind {A B} (m : Handler A) (k : A → Handler B) :
  keeps_room m → (∀ a, keeps_room (k a)) → keeps_room (m ≫= k).
Proof.
  intros Hm Hk r log. unfold mbind, handler_bind.
  specialize (Hm r log). destruct (m r log) as [r' log' a| |]; [|done..].
  subst r'. apply Hk.
Qed.

Lemma keeps_room_property data key : keeps_room (property data key).
Proof. intros r log. unfold property. by destruct (member data key). Qed.

Lemma keeps_room_name_slice v : keeps_room (name_slice v).
Proof. intros r log. by destruct v as [[]|]. Qed.

Lemma keeps_room_as_string v : keeps_room (as_string v).
Proof. intros r log. by destruct v as [[]|]. Qed.

Lemma keeps_room_JSON_parse message : keeps_room (JSON_parse message).
Proof. intros r log. by destruct message. Qed.

Lemma keeps_room_send throws ws m : keeps_room (send throws ws m).
Proof. intros r log. unfold send. by destruct (throws ws). Qed.

Lemma consistent_after {A B} (m : Handler A) (k : A → Handler B) r log :
  keeps_room m →
  (∀ a log', consistent_at (k a r log')) →
  consistent r →
  consistent_at ((m ≫= k) r log).
Proof.
  intros Hm Hk Hr. unfold mbind, handler_bind.
  specialize (Hm r log). destruct (m r log) as [r' log' a|r' log' err|]; subst; simpl; auto.
Qed.

Lemma consistent_try_catch body handler r log :
  consistent_at (body r log) →
  (∀ err, keeps_room (handler err)) →
  consistent_at (try_catch body handler r log).
Proof.
  unfold try_catch. intros Hbody Hh.
  destruct (body r log) as [r' log' a|r' log' err|]; [done| |done].
  specialize (Hh err r' log'). simpl in Hbody.
  destruct (handler err r' log'); simpl; by subst.
Qed.

Lemma consistent_broadcast throws message exclude r log :
  consistent r → consistent_at (broadcast throws message exclude r log).
Proof. intros Hr. rewrite broadcast_run. simpl. by apply consistent_drop. Qed.

Lemma consistent_webSocketMessage throws r ws message :
  consistent r → consistent_at (webSocketMessage throws ws message r []).
Proof.
  intros Hr. unfold webSocketMessage.
  apply consistent_try_catch; [|intros; apply keeps_room_send].
  unfold mbind at 1, handler_bind at 1, gets at 1.
  destruct (Map_get ws (sessions r)) as [session|] eqn:Hget; [|done].
  apply consistent_after; [apply keeps_room_JSON_parse| |done]. intros data log1.
  apply consistent_after; [apply keeps_room_property| |done]. intros type log2.
  destruct (switch type) as [[]|]; [| | | | |done].
  - apply consistent_after; [|clear log2; intros sliced log2|done].
    { apply keeps_room_bind; [apply keeps_room_property|intros; apply keeps_room_name_slice]. }
    unfold mbind at 1 2 3 4, handler_bind at 1 2 3 4, set_sessions, serializeAttachment, gets.
    simpl.
    assert (Hr1 := consistent_update r Hr ws session (with_name session sliced) (revealed r)
                     Hget eq_refl eq_refl).
    apply consistent_after; [apply keeps_room_send| |done]. intros [] log3.
    apply consistent_after; [apply keeps_room_send| |done]. intros [] log4.
    by apply consistent_broadcast.
  - destruct (truthy (name session)); simpl.
    2:{ pose proof (keeps_room_send throws ws (s_error "Must join first") r log2) as Hk.
        unfold must_join_first. destruct (send _ _ _ _ _); simpl; by subst. }
    apply consistent_after; [|clear log2; intros card log2|done].
    { apply keeps_room_property. }
    unfold mbind at 1 2, handler_bind at 1 2, set_sessions, serializeAttachment.
    simpl.
    assert (Hr1 := consistent_update r Hr ws session (with_vote session card) (revealed r)
                     Hget eq_refl eq_refl).
    by apply consistent_broadcast.
  - destruct (truthy (name session)); simpl.
    2:{ pose proof (keeps_room_send throws ws (s_error "Must join first") r log2) as Hk.
        unfold must_join_first. destruct (send _ _ _ _ _); simpl; by subst. }
    unfold mbind at 1 2, handler_bind at 1 2, set_revealed, gets. simpl.
    apply consistent_broadcast. by apply consistent_revealed.
  - destruct (truthy (name session)); simpl.
    2:{ pose proof (keeps_room_send throws ws (s_error "Must join first") r log2) as Hk.
        unfold must_join_first. destruct (send _ _ _ _ _); simpl; by subst. }
    apply consistent_after; [|clear log2; intros toUserId log2|done].
    { apply keeps_room_bind; [apply keeps_room_property|intros; apply keeps_room_as_string]. }
    apply consistent_after; [|clear log2; intros emoji log2|done].
    { apply keeps_room_bind; [apply keeps_room_property|intros; apply keeps_room_as_string]. }
    by apply consistent_broadcast.
  - destruct (truthy (name session)); simpl.
    2:{ pose proof (keeps_room_send throws ws (s_error "Must join first") r log2) as Hk.
        unfold must_join_first. destruct (send _ _ _ _ _); simpl; by subst. }
    unfold mbind at 1 2 3, handler_bind at 1 2 3, set_revealed, gets, set_sessions. simpl.
    unfold mbind at 1, handler_bind at 1. rewrite serialize_all_run. simpl.
    apply consistent_broadcast. simpl.
    apply (consistent_reset r Hr false).
Qed.

Lemma consistent_closeOrErrorHandler throws r ws :
  consistent r → consistent_at (closeOrErrorHandler throws ws r []).
Proof.
  intros Hr. rewrite closeOrErrorHandler_run.
  destruct (Map_get ws (sessions r)) as [session|]; [destruct (truthy (name session))|];
    simpl; try by apply consistent_delete.
  apply (consistent_delete _ (consistent_drop r Hr _ (revealed r))).
Qed.

Lemma step_consistent throws r e r' :
  consistent r → step throws r e = Some r' → consistent r'.
Proof.
  intros Hr. destruct e as [ws uuid|ws message|ws|]; simpl.
  - case_decide as Hfresh; [|done]. destruct Hfresh as [Hnew Hfresh].
    intros [= <-]. by apply consistent_handleSession.
  - case_decide; [|done]. intros Hafter.
    pose proof (consistent_webSocketMessage throws r ws message Hr) as Hc.
    destruct (webSocketMessage throws ws message r []); simpl in *; by simplify_eq.
  - case_decide; [|done]. intros Hafter.
    pose proof (consistent_closeOrErrorHandler throws r ws Hr) as Hc.
    destruct (closeOrErrorHandler throws ws r []); simpl in *; simplify_eq;
      by apply consistent_disconnected.
  - intros Hwake. destruct (constructor_consistent r Hr) as (r1 & Hr1 & ? & _).
    by simplify_eq.
Qed.

Lemma initial_consistent : consistent initial.
Proof.
  split; simpl.
  - apply NoDup_nil_2.
  - intros ws s Hin. by apply elem_of_nil in Hin.
  - intros ws Hin. by apply elem_of_nil in Hin.
  - intros k1 k2 a1 a2 H1. by rewrite lookup_empty in H1.
Qed.

Lemma reachable_consistent r : reachable r → consistent r.
Proof.
  induction 1 as [|throws r e r' _ IH Hstep]; [apply initial_consistent|].
  by eapply step_consistent.
Qed.

(** The user ids of the sessions of a consistent room are distinct. *)
Lemma consistent_user_ids r :
  consistent r → NoDup (userId <$> named_sessions (sessions r)).
Proof.
  intros [Hnd Hatt Hacc Hids].
  assert (Hpairs : NoDup (sessions r)) by (by eapply NoDup_fmap_1).
  assert (Hkey : ∀ k1 s1 k2 s2, (k1, s1) ∈ sessions r → (k2, s2) ∈ sessions r →
                                userId s1 = userId s2 → k1 = k2 ∧ s1 = s2).
  { intros k1 s1 k2 s2 H1 H2 Heq.
    destruct (Hatt k1 s1 H1) as [A1 _], (Hatt k2 s2 H2) as [A2 _].
    assert (k1 = k2) as -> by (by eapply Hids).
    split; [done|].
    apply (Map_elem_of_get _ _ _ Hnd) in H1, H2. congruence. }
  apply NoDup_fmap_2_strong.
  - intros s1 s2 [_ [k1 H1]]%named_sessions_elem_of [_ [k2 H2]]%named_sessions_elem_of Heq.
    by destruct (Hkey k1 s1 k2 s2 H1 H2 Heq).
  - unfold named_sessions, Map_values. apply NoDup_filter.
    apply NoDup_fmap_2_strong; [|done].
    intros [k1 s1] [k2 s2] H1 H2. simpl. intros ->.
    by destruct (Hkey k1 s2 k2 s2 H1 H2 eq_refl) as [-> _].
Qed.

(** ** The worked scenario is reachable *)

Lemma reachable_run throws events r r' :
  reachable r → run_events throws events r = Some r' → reachable r'.
Proof.
  unfold run_events. revert r.
  induction events as [|e events IH]; simpl; intros r Hr Hrun.
  - by simplify_eq.
  - destruct (step throws r e) as [r1|] eqn:Hstep; simpl in Hrun.
    + eapply IH; [|exact Hrun]. by eapply reachable_step.
    + exfalso. clear -Hrun. induction events; simpl in *; [done | auto].
Qed.

Lemma lobby_reachable : reachable lobby.
Proof. apply (reachable_run no_failure to_lobby initial); [constructor | by vm_compute]. Qed.

Lemma alice_alone_reachable : reachable alice_alone.
Proof.
  apply (reachable_run no_failure to_alice_alone initial); [constructor | by vm_compute].
Qed.

Lemma voting_reachable : reachable voting.
Proof. apply (reachable_run no_failure to_voting initial); [constructor | by vm_compute]. Qed.

Lemma shown_reachable : reachable shown.
Proof. apply (reachable_run no_failure to_shown initial); [constructor | by vm_compute]. Qed.



(** The scenarios of the specification, run on the model. *)

Example scenario_1_alice_joins :
  webSocketMessage no_failure 1 (msg_join "Alice") lobby []
  = Returned alice_alone
      [Sent 1 (s_state [mkUser "A" "Alice" false] false None);
       Sent 1 (s_joined "A" "Alice")] ().
Proof. by vm_compute. Qed.

Example scenario_2_bob_joins :
  webSocketMessage no_failure 2 (msg_join "Bob") alice_alone []
  = Returned (room_of alice bob false)
      [Sent 2 (s_state [mkUser "A" "Alice" false; mkUser "B" "Bob" false] false None);
       Sent 2 (s_joined "B" "Bob");
       Sent 1 (s_userJoined "B" "Bob")] ().
Proof. by vm_compute. Qed.

Example scenario_3_alice_votes :
  webSocketMessage no_failure 1 (msg_vote "5") (room_of alice bob false) []
  = Returned voting [Sent 1 (s_voted "A" true); Sent 2 (s_voted "A" true)] ().
Proof. by vm_compute. Qed.

Example scenario_4_bob_reveals :
  webSocketMessage no_failure 2 msg_reveal voting []
  = let votes := <["B" := JNull]> (<["A" := JString "5"]> ∅) in
    Returned shown [Sent 1 (s_revealed votes); Sent 2 (s_revealed votes)] ().
Proof. by vm_compute. Qed.

Example scenario_5_alice_resets :
  webSocketMessage no_failure 1 msg_reset shown []
  = Returned (room_of alice bob false) [Sent 1 s_reset; Sent 2 s_reset] ().
Proof. by vm_compute. Qed.

Example scenario_6_bob_disconnects :
  closeOrErrorHandler no_failure 2 (room_of alice bob false) []
  = Returned (mkRoom (state (room_of alice bob false)) [(1, alice)] false)
      [Sent 1 (s_userLeft "B"); Sent 2 (s_userLeft "B")] ().
Proof. by vm_compute. Qed.

(** A vote without a card counts as a vote, and the reveal has no entry for
    it. *)
Example scenario_7_vote_without_card :
  webSocketMessage no_failure 2 msg_vote_no_card voting []
  = Returned no_card [Sent 1 (s_voted "B" true); Sent 2 (s_voted "B" true)] ()
  ∧ webSocketMessage no_failure 1 msg_reveal no_card []
    = let votes := <["A" := JString "5"]> ∅ in
      Returned no_card_shown [Sent 1 (s_revealed votes); Sent 2 (s_revealed votes)] ().
Proof. split; by vm_compute. Qed.

(** A stale connection met by a broadcast is dropped without a [userLeft]. *)
Example stale_connection_dropped :
  webSocketMessage stale_1 2 (msg_vote "3") (room_of alice bob false) []
  = Returned (mkRoom (mkState [1; 2] (<[2 := mkMeta "B" "Bob" (Some (JString "3"))]>
                                        (<[1 := meta_of alice]> ∅)))
                     [(2, mkSession "B" "Bob" (Some (JString "3")) 2)] false)
      [SendThrew 1 (s_voted "B" true); Sent 2 (s_voted "B" true)] ().
Proof. by vm_compute. Qed.

(** ** The cases of [webSocketMessage] *)

Lemma switch_Some type c :
  switch type = Some c →
  type = Some (JString (match c with
                        | case_join => "join" | case_vote => "vote"
                        | case_reveal => "reveal" | case_emoji => "emoji"
                        | case_reset => "reset" end)).
Proof.
  unfold switch. destruct type as [[]|]; try done.
  repeat case_decide; intros [= <-]; by subst.
Qed.

Lemma truthy_false s : truthy s = false → s = "".
Proof. by destruct s. Qed.

(** A join-gated case on a session without a name. *)
Lemma guard_run throws r ws session data c :
  Map_get ws (sessions r) = Some session →
  truthy (name session) = false →
  member data "type" = inr (Some (JString (match c with
                        | case_join => "join" | case_vote => "vote"
                        | case_reveal => "reveal" | case_emoji => "emoji"
                        | case_reset => "reset" end))) →
  c ≠ case_join →
  webSocketMessage throws ws (inr data) r []
  = match throws ws with
    | None => Returned r [Sent ws (s_error "Must join first")] ()
    | Some err =>
        Threw r [SendThrew ws (s_error "Must join first"); SendThrew ws (s_error err)] err
    end.
Proof.
  intros Hget Hname Hmember Hc.
  rewrite <- must_join_first_run.
  run_handler. rewrite Hget, Hmember, Hname. by destruct c.
Qed.

Lemma webSocketMessage_handled throws r ws message :
  handled throws r ws message (webSocketMessage throws ws message r []).
Proof.
  destruct (Map_get ws (sessions r)) as [session|] eqn:Hget.
  2:{ replace (webSocketMessage throws ws message r [])
        with (Returned r [Closed ws 1011 "Session not found"] ()).
      - by constructor.
      - run_handler. by rewrite Hget. }
  destruct message as [err|data].
  { replace (webSocketMessage throws ws (inl err) r []) with (error_reply throws ws r [] err).
    - econstructor; [done | by left].
    - run_handler. rewrite Hget. simpl. unfold error_reply. by destruct (throws ws). }
  destruct (member data "type") as [err|type] eqn:Htype.
  { replace (webSocketMessage throws ws (inr data) r []) with (error_reply throws ws r [] err).
    - econstructor; [done | left; simpl; by rewrite Htype].
    - run_handler. rewrite Hget, Htype. simpl. unfold error_reply. by destruct (throws ws). }
  assert (Hcase : case_of (inr data) = switch type) by (simpl; by rewrite Htype).
  destruct (switch type) as [c|] eqn:Hswitch.
  2:{ replace (webSocketMessage throws ws (inr data) r []) with (Returned r [] ()).
      - by econstructor.
      - run_handler. by rewrite Hget, Htype, Hswitch. }
  pose proof (switch_Some _ _ Hswitch) as ->.
  destruct c.
  - (* join *)
    destruct (member data "name") as [err|v] eqn:Hname.
    { replace (webSocketMessage throws ws (inr data) r [])
        with (error_reply throws ws r [] err).
      - econstructor; [done | by right].
      - run_handler. rewrite Hget, Htype, Hname. simpl. unfold error_reply.
        by destruct (throws ws). }
    destruct v as [[| | |n| |]|].
    4:{ rewrite (join_run throws r ws session data Hget n Htype Hname).
        by apply (handled_join throws r ws (inr data) session n). }
    4:{ replace (webSocketMessage throws ws (inr data) r []) with (@Unmodelled ()).
        - eapply handled_unmodelled; [done | done].
        - run_handler. by rewrite Hget, Htype, Hname. }
    all: match goal with
         | |- handled _ _ _ _ ?o =>
             let err := fresh "err" in
             evar (err : string);
             replace o with (error_reply throws ws r [] err);
             [ econstructor; [done | by right]
             | run_handler; rewrite Hget, Htype, Hname; simpl; unfold error_reply;
               subst err; destruct (throws ws); reflexivity ]
         end.
  - (* vote *)
    destruct (truthy (name session)) eqn:Hnamed.
    2:{ rewrite (guard_run throws r ws session data case_vote Hget Hnamed Htype); [|done].
        apply (handled_unjoined throws r ws (inr data) session case_vote);
          auto using truthy_false. }
    destruct (member data "card") as [err|v] eqn:Hcard.
    { destruct data; simpl in *; simplify_eq. }
    rewrite (vote_run throws r ws session data Hget v Hnamed Htype Hcard).
    by apply (handled_vote throws r ws (inr data) session v).
  - (* reveal *)
    destruct (truthy (name session)) eqn:Hnamed.
    2:{ rewrite (guard_run throws r ws session data case_reveal Hget Hnamed Htype); [|done].
        apply (handled_unjoined throws r ws (inr data) session case_reveal);
          auto using truthy_false. }
    rewrite (reveal_run throws r ws session data Hget Hnamed Htype).
    by apply (handled_reveal throws r ws (inr data) session).
  - (* emoji *)
    destruct (truthy (name session)) eqn:Hnamed.
    2:{ rewrite (guard_run throws r ws session data case_emoji Hget Hnamed Htype); [|done].
        apply (handled_unjoined throws r ws (inr data) session case_emoji);
          auto using truthy_false. }
    destruct (member data "targetUserId") as [err|v1] eqn:Hto.
    { destruct data; simpl in *; simplify_eq. }
    destruct (member data "emoji") as [err|v2] eqn:Hemoji.
    { destruct data; simpl in *; simplify_eq. }
    assert (Hv : (∃ t e, v1 = Some (JString t) ∧ v2 = Some (JString e))
                 ∨ as_string v1 = unmodelled
                 ∨ (∃ t, v1 = Some (JString t)) ∧ as_string v2 = unmodelled).
    { destruct v1 as [[| | |t| |]|]; auto.
      destruct v2 as [[| | |e| |]|]; eauto 6. }
    destruct Hv as [(t & e & -> & ->)|Hbad].
    + rewrite (emoji_run throws r ws session data Hget t e Hnamed Htype Hto Hemoji).
      by apply (handled_emoji throws r ws (inr data) session t e).
    + replace (webSocketMessage throws ws (inr data) r []) with (@Unmodelled ()).
      * eapply handled_unmodelled; [done | done].
      * run_handler. rewrite Hget, Htype, Hnamed, Hto, Hemoji. simpl.
        unfold mbind, handler_bind in *.
        destruct Hbad as [Hun|[[t ->] Hun]]; simpl; by rewrite Hun.
  - (* reset *)
    destruct (truthy (name session)) eqn:Hnamed.
    2:{ rewrite (guard_run throws r ws session data case_reset Hget Hnamed Htype); [|done].
        apply (handled_unjoined throws r ws (inr data) session case_reset);
          auto using truthy_false. }
    rewrite (reset_run throws r ws session data Hget Hnamed Htype).
    by apply (handled_reset throws r ws (inr data) session).
Qed.

(** ** More laws of the registry *)

Lemma Map_set_elem_of_weak {V} ws (v : V) k w (m : list (WebSocket * V)) :
  (k, w) ∈ Map_set ws v m → (k = ws ∧ w = v) ∨ (k, w) ∈ m.
Proof.
  induction m as [|[k' w'] m IH]; simpl.
  - intros ?%list_elem_of_singleton. left. by simplify_eq.
  - destruct (decide (k' = ws)) as [->|Hne]; rewrite !elem_of_cons.
    + intros [?|?]; [left; by simplify_eq | right; by right].
    + intros [?|?]; [right; by left|]. destruct IH as [?|?]; auto.
Qed.

Lemma Map_get_fmap {V W} (f : V → W) ws (m : list (WebSocket * V)) :
  Map_get ws ((λ e, (e.1, f e.2)) <$> m) = f <$> Map_get ws m.
Proof.
  induction m as [|[k v] m IH]; simpl; [done|].
  destruct (decide (k = ws)); [done | apply IH].
Qed.

Lemma Map_keys_fmap {V W} (f : V → W) (m : list (WebSocket * V)) :
  Map_keys ((λ e, (e.1, f e.2)) <$> m) = Map_keys m.
Proof. unfold Map_keys. by rewrite <- list_fmap_compose. Qed.

(** Replacing a session by one that is named alike leaves the recipients of
    a broadcast as they were. *)
Lemma eligible_keys_Map_set exclude ws s s' (m : list (WebSocket * SessionData)) :
  Map_get ws m = Some s → truthy (name s') = truthy (name s) →
  (filter (eligible exclude) (Map_set ws s' m)).*1 = (filter (eligible exclude) m).*1.
Proof.
  intros Hget Hname. induction m as [|[k v] m IH]; simpl in *; [done|].
  destruct (decide (k = ws)) as [->|Hne].
  - simplify_eq.
    destruct (decide (eligible exclude (ws, s))) as [Hel|Hel].
    + rewrite !filter_cons_True; [done|done|].
      destruct Hel. split; simpl in *; [done | by rewrite Hname].
    + rewrite !filter_cons_False; [done|done|].
      intros [? Hn]. apply Hel. split; simpl in *; [done | by rewrite Hname in Hn].
  - destruct (decide (eligible exclude (k, v))).
    + rewrite !filter_cons_True by done. simpl. f_equal. by apply IH.
    + rewrite !filter_cons_False by done. by apply IH.
Qed.

Lemma eligible_keys_fmap exclude (f : SessionData → SessionData)
    (m : list (WebSocket * SessionData)) :
  (∀ s, name (f s) = name s) →
  (filter (eligible exclude) ((λ e, (e.1, f e.2)) <$> m)).*1 = (filter (eligible exclude) m).*1.
Proof.
  intros Hf. induction m as [|[k v] m IH]; [done|]. rewrite fmap_cons.
  destruct (decide (eligible exclude (k, v))) as [Hel|Hel].
  - rewrite !filter_cons_True; [simpl; by f_equal|done|].
    destruct Hel. split; simpl in *; [done | by rewrite Hf].
  - rewrite !filter_cons_False; [done|done|].
    intros [? Hn]. apply Hel. split; simpl in *; [done | by rewrite Hf in Hn].
Qed.

Lemma eligible_keys_elem_of exclude (m : list (WebSocket * SessionData)) k :
  k ∈ (filter (eligible exclude) m).*1
  ↔ exclude ≠ Some k ∧ ∃ s, (k, s) ∈ m ∧ truthy (name s) = true.
Proof.
  rewrite list_elem_of_fmap. split.
  - intros ([k' s] & -> & [[? ?] ?]%list_elem_of_filter). eauto.
  - intros (? & s & ? & ?). exists (k, s). split; [done|].
    apply list_elem_of_filter. by split.
Qed.

(** Who is dropped by a broadcast. *)
Lemma Map_get_after_broadcast throws message exclude st all shown k :
  Map_get k (sessions (after_broadcast throws message exclude st all shown))
  = if decide (throws k ≠ None ∧ k ∈ (filter (eligible exclude) all).*1)
    then None else Map_get k all.
Proof.
  simpl. rewrite Map_get_drop, fanOut_quitters.
  destruct (decide (throws k ≠ None ∧ k ∈ (filter (eligible exclude) all).*1)) as [[? ?]|Hn].
  - rewrite decide_True; [done|]. by apply list_elem_of_filter.
  - rewrite decide_False; [done|]. intros [? ?]%list_elem_of_filter. by apply Hn.
Qed.

(** ** Voting, clearing, cheering *)

(** X1. A vote of a named participant is announced to every named session, the
    voter included, as [voted] with the flag [card !== null], whatever the
    message has as [card]: a string, [null], another value, or nothing, which
    is [undefined] and not [null]. The card is stored in the voter's attachment
    and, when the send to the voter went through, in its session; the flag of
    the room, the other sessions that remain and the other attachments are as
    before. *)
Theorem vote_is_recorded_and_announced throws r ws session data card :
  Map_get ws (sessions r) = Some session →
  truthy (name session) = true →
  member data "type" = inr (Some (JString "vote")) →
  member data "card" = inr card →
  ∃ r',
    webSocketMessage throws ws (inr data) r []
    = Returned r' (attempt throws (s_voted (userId session) (notNull card))
                     <$> (filter (eligible None) (sessions r)).*1) ()
    ∧ ws ∈ (filter (eligible None) (sessions r)).*1
    ∧ (throws ws = None → Map_get ws (sessions r') = Some (with_vote session card))
    ∧ attachments (state r') !! ws = Some (mkMeta (userId session) (name session) card)
    ∧ revealed r' = revealed r
    ∧ (∀ k s, k ≠ ws → Map_get k (sessions r') = Some s → Map_get k (sessions r) = Some s)
    ∧ (∀ k, k ≠ ws → attachments (state r') !! k = attachments (state r) !! k).
Proof.
  intros Hget Hnamed Htype Hcard.
  rewrite (vote_run throws r ws session data Hget card Hnamed Htype Hcard).
  eexists. split.
  { rewrite fanOut_log. by rewrite (eligible_keys_Map_set None ws session). }
  split.
  { apply eligible_keys_elem_of. split; [done|]. exists session.
    split; [by apply Map_get_elem_of | done]. }
  split.
  { intros Hok. pose proof (Map_get_after_broadcast throws
      (s_voted (userId session) (notNull card)) None
      (mkState (webSockets (state r))
         (<[ws := meta_of (with_vote session card)]> (attachments (state r))))
      (Map_set ws (with_vote session card) (sessions r)) (revealed r) ws) as Hk.
    unfold after_broadcast in Hk. rewrite Hk.
    rewrite decide_False by (intros [? _]; done). apply Map_get_set_eq. }
  split; [apply lookup_insert_eq|]. split; [done|]. split.
  - intros k s Hne. simpl. rewrite Map_get_drop. case_decide; [done|].
    by rewrite Map_get_set_ne.
  - intros k Hne. simpl. by rewrite lookup_insert_ne.
Qed.

Lemma vote_is_recorded_and_announced_witness :
  ∃ r',
    webSocketMessage no_failure 2 (msg_vote "3") voting []
    = Returned r' [Sent 1 (s_voted "B" true); Sent 2 (s_voted "B" true)] ()
    ∧ Map_get 2 (sessions r') = Some (mkSession "B" "Bob" (Some (JString "3")) 2).
Proof.
  destruct (vote_is_recorded_and_announced no_failure voting 2 bob
              (JObject [("type", JString "vote"); ("card", JString "3")])
              (Some (JString "3"))
              eq_refl eq_refl eq_refl eq_refl)
    as (r' & Hrun & _ & Hget & _).
  exists r'. split; [exact Hrun | exact (Hget eq_refl)].
Defined.

(** X2. A reset by a named participant hides the votes and announces [reset]
    to every named session. A session is dropped exactly when the send to it
    threw; each session that remains keeps its id, name and socket and has the
    vote [null]. *)
Theorem reset_clears_every_vote throws r ws session data :
  Map_get ws (sessions r) = Some session →
  truthy (name session) = true →
  member data "type" = inr (Some (JString "reset")) →
  ∃ r',
    webSocketMessage throws ws (inr data) r []
    = Returned r' (attempt throws s_reset <$> (filter (eligible None) (sessions r)).*1) ()
    ∧ revealed r' = false
    ∧ (∀ k, Map_get k (sessions r')
            = if decide (throws k ≠ None ∧ k ∈ (filter (eligible None) (sessions r)).*1)
              then None
              else (λ s, mkSession (userId s) (name s) null (webSocket s))
                     <$> Map_get k (sessions r))
    ∧ (∀ k s', (k, s') ∈ sessions r' → vote s' = null)
    ∧ webSockets (state r') = webSockets (state r).
Proof.
  intros Hget Hnamed Htype.
  rewrite (reset_run throws r ws session data Hget Hnamed Htype).
  set (all := (λ e, (e.1, with_vote e.2 null)) <$> sessions r).
  assert (Hkeys : (filter (eligible None) all).*1 = (filter (eligible None) (sessions r)).*1).
  { unfold all. by rewrite (eligible_keys_fmap None (λ s, with_vote s null)). }
  eexists. split; [by rewrite fanOut_log, Hkeys|].
  split; [done|]. split; [|split; [|done]].
  - intros k.
    pose proof (Map_get_after_broadcast throws s_reset None
                  (mkState (webSockets (state r))
                     (reset_attachments (sessions r) (attachments (state r))))
                  all false k) as Hk.
    unfold after_broadcast in Hk. rewrite Hk, Hkeys. clear Hk.
    case_decide; [done|]. unfold all.
    rewrite (Map_get_fmap (λ s, with_vote s null)).
    by destruct (Map_get k (sessions r)).
  - intros k s'. simpl. intros [_ Hin]%drop_elem_of.
    unfold all in Hin. apply list_elem_of_fmap in Hin as ([k0 s] & [= -> ->] & _). done.
Qed.

Lemma reset_clears_every_vote_witness :
  ∃ r',
    webSocketMessage no_failure 2 msg_reset shown []
    = Returned r' [Sent 1 s_reset; Sent 2 s_reset] ()
    ∧ revealed r' = false.
Proof.
  destruct (reset_clears_every_vote no_failure shown 2 bob
              (JObject [("type", JString "reset")]) eq_refl eq_refl eq_refl)
    as (r' & Hrun & Hhidden & _).
  exists r'. split; [exact Hrun | exact Hhidden].
Defined.

(** X3. An emoji of a named participant is relayed to every named session, the
    sender included, under the sender's user id and with the target and the
    emoji as received. The durable state and the flag are untouched, and a
    session is dropped exactly when the send to it threw. *)
Theorem emoji_is_relayed_to_all_named throws r ws session data toUserId emoji :
  Map_get ws (sessions r) = Some session →
  truthy (name session) = true →
  member data "type" = inr (Some (JString "emoji")) →
  member data "targetUserId" = inr (Some (JString toUserId)) →
  member data "emoji" = inr (Some (JString emoji)) →
  ∃ r',
    webSocketMessage throws ws (inr data) r []
    = Returned r' (attempt throws (s_emoji (userId session) toUserId emoji)
                     <$> (filter (eligible None) (sessions r)).*1) ()
    ∧ ws ∈ (filter (eligible None) (sessions r)).*1
    ∧ state r' = state r
    ∧ revealed r' = revealed r
    ∧ (∀ k, Map_get k (sessions r')
            = if decide (throws k ≠ None ∧ k ∈ (filter (eligible None) (sessions r)).*1)
              then None else Map_get k (sessions r)).
Proof.
  intros Hget Hnamed Htype Hto Hemoji.
  rewrite (emoji_run throws r ws session data Hget toUserId emoji Hnamed Htype Hto Hemoji).
  eexists. split; [by rewrite fanOut_log|]. split.
  { apply eligible_keys_elem_of. split; [done|]. exists session.
    split; [by apply Map_get_elem_of | done]. }
  split; [done|]. split; [done|].
  intros k. apply (Map_get_after_broadcast throws _ None (state r) (sessions r) (revealed r) k).
Qed.

Lemma emoji_is_relayed_to_all_named_witness :
  ∃ r',
    webSocketMessage no_failure 2
      (inr (JObject [("type", JString "emoji"); ("targetUserId", JString "A");
                     ("emoji", JString "tada")])) voting []
    = Returned r' [Sent 1 (s_emoji "B" "A" "tada"); Sent 2 (s_emoji "B" "A" "tada")] ().
Proof.
  destruct (emoji_is_relayed_to_all_named no_failure voting 2 bob
              (JObject [("type", JString "emoji"); ("targetUserId", JString "A");
                        ("emoji", JString "tada")]) "A" "tada"
              eq_refl eq_refl eq_refl eq_refl eq_refl)
    as (r' & Hrun & _).
  exists r'. exact Hrun.
Defined.

(** ** What no message does *)

Lemma fanOut_target throws message exclude all e :
  e ∈ (fanOut throws message exclude all).1 →
  exclude ≠ Some (target e) ∧ ∃ s, (target e, s) ∈ all ∧ truthy (name s) = true.
Proof.
  rewrite fanOut_log. intros (k & -> & Hk)%list_elem_of_fmap.
  rewrite attempt_target. by apply eligible_keys_elem_of.
Qed.

(** X4. Whatever the message, every send and every close it causes is on the
    sender's connection or on the connection of a named session: an unnamed
    connection hears nothing of what others do. *)
Theorem only_sender_and_named_are_sent_to throws r ws message e :
  e ∈ effects_of (webSocketMessage throws ws message r []) →
  target e = ws ∨ ∃ s, (target e, s) ∈ sessions r ∧ truthy (name s) = true.
Proof.
  destruct (webSocketMessage_handled throws r ws message)
    as [ | session err | | | session c | session n | session card | session
       | session toUserId emoji | session ];
    unfold unjoined_outcome, join_outcome, vote_outcome, reveal_outcome, emoji_outcome,
      reset_outcome; simpl.
  - intros ->%list_elem_of_singleton. by left.
  - unfold error_reply. destruct (throws ws); simpl;
      intros ->%list_elem_of_singleton; by left.
  - intros Hin. by apply elem_of_nil in Hin.
  - intros Hin. by apply elem_of_nil in Hin.
  - destruct (throws ws); simpl; intros Hin; left;
      repeat (apply elem_of_cons in Hin as [->|Hin]; [done|]);
      by apply elem_of_nil in Hin.
  - destruct (throws ws); simpl; intros Hin.
    + left. repeat (apply elem_of_cons in Hin as [->|Hin]; [done|]).
      by apply elem_of_nil in Hin.
    + apply elem_of_cons in Hin as [->|Hin]; [by left|].
      apply elem_of_cons in Hin as [->|Hin]; [by left|].
      apply fanOut_target in Hin as (Hne & s & [[? ?]|Hin]%Map_set_elem_of_weak & Hn).
      * by left.
      * right. eauto.
  - intros (_ & s & [[? ?]|Hin]%Map_set_elem_of_weak & Hn)%fanOut_target.
    + by left.
    + right. eauto.
  - intros (_ & s & Hin & Hn)%fanOut_target. right. eauto.
  - intros (_ & s & Hin & Hn)%fanOut_target. right. eauto.
  - intros (_ & s & Hin & Hn)%fanOut_target. right.
    apply list_elem_of_fmap in Hin as ([k s0] & [= Hk ->] & Hin). simpl in *.
    exists s0. split; [by rewrite Hk | done].
Qed.

Lemma only_sender_and_named_are_sent_to_witness :
  Sent 2 (s_voted "A" true)
    ∈ effects_of (webSocketMessage no_failure 1 (msg_vote "8") voting [])
  ∧ ((2 : WebSocket) = 1 ∨ ∃ s, (2, s) ∈ sessions voting ∧ truthy (name s) = true).
Proof.
  assert (Hin : Sent 2 (s_voted "A" true)
                  ∈ effects_of (webSocketMessage no_failure 1 (msg_vote "8") voting [])).
  { vm_compute. apply list_elem_of_further, list_elem_of_here. }
  split; [exact Hin|].
  exact (only_sender_and_named_are_sent_to no_failure voting 1 (msg_vote "8") _ Hin).
Defined.

(** X5. The flag of the room after a message: [true] after a reveal and
    [false] after a reset, each from a registered and named sender, and
    unchanged by every other message. *)
Theorem revealed_follows_reveal_and_reset throws r ws message r' :
  room_after (webSocketMessage throws ws message r []) = Some r' →
  revealed r'
  = match case_of message, Map_get ws (sessions r) with
    | Some case_reveal, Some session => if truthy (name session) then true else revealed r
    | Some case_reset, Some session => if truthy (name session) then false else revealed r
    | _, _ => revealed r
    end.
Proof.
  destruct (webSocketMessage_handled throws r ws message)
    as [ Hget | session err Hget Hc | session Hget Hc | session c Hget Hc
       | session c Hget Hc Hne Hname | session n Hget Hc | session card Hget Hc Hn
       | session Hget Hc Hn | session toUserId emoji Hget Hc Hn | session Hget Hc Hn ];
    unfold unjoined_outcome, join_outcome, vote_outcome, reveal_outcome, emoji_outcome,
      reset_outcome; simpl; rewrite Hget.
  - intros [= <-]. by destruct (case_of message) as [[]|].
  - unfold error_reply. destruct Hc as [-> | ->]; destruct (throws ws); by intros [= <-].
  - rewrite Hc. by intros [= <-].
  - done.
  - rewrite Hname. simpl. destruct (throws ws); intros [= <-]; rewrite Hc; by destruct c.
  - rewrite Hc. destruct (throws ws); by intros [= <-].
  - rewrite Hc. by intros [= <-].
  - rewrite Hc, Hn. by intros [= <-].
  - rewrite Hc. by intros [= <-].
  - rewrite Hc, Hn. by intros [= <-].
Qed.

Lemma revealed_follows_reveal_and_reset_witness :
  room_after (webSocketMessage no_failure 2 msg_reveal voting []) = Some shown
  ∧ revealed shown = true.
Proof.
  assert (Hrun : room_after (webSocketMessage no_failure 2 msg_reveal voting []) = Some shown)
    by (by vm_compute).
  split; [exact Hrun|].
  exact (revealed_follows_reveal_and_reset no_failure voting 2 msg_reveal shown Hrun).
Defined.

Lemma message_sessions throws r ws message r' k s' :
  room_after (webSocketMessage throws ws message r []) = Some r' →
  Map_get k (sessions r') = Some s' →
  ∃ s,
    Map_get k (sessions r) = Some s
    ∧ userId s' = userId s
    ∧ webSocket s' = webSocket s
    ∧ (k ≠ ws → name s' = name s)
    ∧ (k ≠ ws →
       vote s' = vote s
       ∨ vote s' = null ∧ case_of message = Some case_reset
         ∧ ∃ session, Map_get ws (sessions r) = Some session ∧ truthy (name session) = true).
Proof.
  destruct (webSocketMessage_handled throws r ws message)
    as [ Hget | session err Hget Hc | session Hget Hc | session c Hget Hc
       | session c Hget Hc Hne Hname | session n Hget Hc | session card Hget Hc Hn
       | session Hget Hc Hn | session toUserId emoji Hget Hc Hn | session Hget Hc Hn ];
    unfold unjoined_outcome, join_outcome, vote_outcome, reveal_outcome, emoji_outcome,
      reset_outcome; simpl.
  - intros [= <-] Hk. exists s'. repeat split; auto.
  - unfold error_reply. destruct (throws ws); intros [= <-] Hk; exists s'; repeat split; auto.
  - intros [= <-] Hk. exists s'. repeat split; auto.
  - done.
  - destruct (throws ws); intros [= <-] Hk; exists s'; repeat split; auto.
  - assert (Hall : ∀ s0, Map_get k (Map_set ws (with_name session (slice_0_32 n)) (sessions r))
                         = Some s0 →
                   ∃ s, Map_get k (sessions r) = Some s ∧ userId s0 = userId s
                        ∧ webSocket s0 = webSocket s ∧ (k ≠ ws → name s0 = name s)
                        ∧ (k ≠ ws → vote s0 = vote s ∨ vote s0 = null
                             ∧ case_of message = Some case_reset
                             ∧ ∃ session, Map_get ws (sessions r) = Some session
                                          ∧ truthy (name session) = true)).
    { intros s0. destruct (decide (k = ws)) as [->|Hne].
      - rewrite Map_get_set_eq. intros [= <-]. exists session. repeat split; auto; done.
      - rewrite Map_get_set_ne by done. intros Hk. exists s0. repeat split; auto. }
    destruct (throws ws); intros [= <-]; simpl; [by apply Hall|].
    rewrite Map_get_drop. case_decide; [done | by apply Hall].
  - intros [= <-]. simpl. rewrite Map_get_drop. case_decide; [done|].
    destruct (decide (k = ws)) as [->|Hne].
    + rewrite Map_get_set_eq. intros [= <-]. exists session. repeat split; auto; done.
    + rewrite Map_get_set_ne by done. intros Hk. exists s'. repeat split; auto.
  - intros [= <-]. simpl. rewrite Map_get_drop. case_decide; [done|].
    intros Hk. exists s'. repeat split; auto.
  - intros [= <-]. simpl. rewrite Map_get_drop. case_decide; [done|].
    intros Hk. exists s'. repeat split; auto.
  - intros [= <-]. simpl. rewrite Map_get_drop. case_decide; [done|].
    rewrite (Map_get_fmap (λ s, with_vote s null)).
    destruct (Map_get k (sessions r)) as [s|]; [|done].
    intros [= <-]. exists s. repeat split; eauto 10.
Qed.

(** X6. A session that is in the registry after a message was there before,
    with the same user id and socket. A message of another connection leaves
    its name alone, and changes its vote only to [null], by a reset of a named
    sender. *)
Theorem sessions_keep_identity throws r ws message r' k s' :
  room_after (webSocketMessage throws ws message r []) = Some r' →
  Map_get k (sessions r') = Some s' →
  ∃ s,
    Map_get k (sessions r) = Some s
    ∧ userId s' = userId s
    ∧ webSocket s' = webSocket s
    ∧ (k ≠ ws → name s' = name s)
    ∧ (k ≠ ws →
       vote s' = vote s
       ∨ vote s' = null ∧ case_of message = Some case_reset
         ∧ ∃ session, Map_get ws (sessions r) = Some session ∧ truthy (name session) = true).
Proof.
  intros Hafter Hs'. by apply (message_sessions throws r ws message r' k s').
Qed.

Lemma sessions_keep_identity_witness :
  ∃ s, Map_get 2 (sessions voting) = Some s ∧ userId bob = userId s ∧ name bob = name s.
Proof.
  assert (Hrun : room_after (webSocketMessage no_failure 1 (msg_vote "8") voting [])
                 = Some (room_of (mkSession "A" "Alice" (Some (JString "8")) 1) bob false))
    by (by vm_compute).
  destruct (sessions_keep_identity no_failure voting 1 (msg_vote "8") _ 2 bob Hrun eq_refl)
    as (s & Hs & Hid & _ & Hname & _).
  exists s. split; [exact Hs|]. split; [exact Hid|]. apply Hname. discriminate.
Defined.

(** ** Between events *)

Lemma Map_keys_get {V} k (m : list (WebSocket * V)) :
  k ∈ Map_keys m ↔ is_Some (Map_get k m).
Proof.
  rewrite <- not_eq_None_Some, Map_get_None. split; [auto|].
  intros Hn. by destruct (decide (k ∈ Map_keys m)).
Qed.

(** What a message leaves of the durable state: the sockets, and the user id
    in every attachment. *)
Lemma message_durable throws r ws message r' :
  consistent r →
  room_after (webSocketMessage throws ws message r []) = Some r' →
  webSockets (state r') = webSockets (state r)
  ∧ ∀ k a, attachments (state r) !! k = Some a →
           ∃ a', attachments (state r') !! k = Some a' ∧ meta_userId a' = meta_userId a.
Proof.
  intros [Hnd Hatt Hacc Hids].
  assert (Hsame : ∀ st, st = state r →
            webSockets st = webSockets (state r)
            ∧ ∀ k a, attachments (state r) !! k = Some a →
                     ∃ a', attachments st !! k = Some a' ∧ meta_userId a' = meta_userId a).
  { intros st ->. eauto. }
  assert (Hupd : ∀ session s', Map_get ws (sessions r) = Some session →
            userId s' = userId session →
            ∀ k a, attachments (state r) !! k = Some a →
                   ∃ a', <[ws := meta_of s']> (attachments (state r)) !! k = Some a'
                         ∧ meta_userId a' = meta_userId a).
  { intros session s' Hget%Map_get_elem_of Hid k a Hk.
    destruct (decide (ws = k)) as [->|Hne].
    - rewrite lookup_insert_eq. eexists. split; [done|].
      destruct (Hatt k session Hget) as [Hm _]. rewrite Hm in Hk. simplify_eq. done.
    - rewrite lookup_insert_ne by done. eauto. }
  destruct (webSocketMessage_handled throws r ws message)
    as [ Hget | session err Hget Hc | session Hget Hc | session c Hget Hc
       | session c Hget Hc Hne Hname | session n Hget Hc | session card Hget Hc Hn
       | session Hget Hc Hn | session toUserId emoji Hget Hc Hn | session Hget Hc Hn ];
    unfold unjoined_outcome, join_outcome, vote_outcome, reveal_outcome, emoji_outcome,
      reset_outcome, error_reply; simpl.
  - intros [= <-]. by apply Hsame.
  - destruct (throws ws); intros [= <-]; by apply Hsame.
  - intros [= <-]. by apply Hsame.
  - done.
  - destruct (throws ws); intros [= <-]; by apply Hsame.
  - destruct (throws ws); intros [= <-]; simpl; (split; [done|]);
      by apply (Hupd session).
  - intros [= <-]. simpl. split; [done|]. by apply (Hupd session).
  - intros [= <-]. by apply Hsame.
  - intros [= <-]. by apply Hsame.
  - intros [= <-]. simpl. split; [done|]. intros k a Hk.
    rewrite (reset_attachments_lookup (sessions r) (attachments (state r)) k Hnd
               (λ ws s Hin, proj2 (Hatt ws s Hin))).
    destruct (Map_get k (sessions r)) as [s|] eqn:Hs; [|eauto].
    eexists. split; [done|]. apply Map_get_elem_of in Hs.
    destruct (Hatt k s Hs) as [Hm _]. rewrite Hm in Hk. by simplify_eq.
Qed.

Lemma message_keys throws r ws message r' k :
  room_after (webSocketMessage throws ws message r []) = Some r' →
  k ∈ Map_keys (sessions r') → k ∈ Map_keys (sessions r).
Proof.
  intros Hafter [s' Hs']%Map_keys_get.
  destruct (message_sessions throws r ws message r' k s' Hafter Hs') as (s & Hs & _).
  apply Map_keys_get. eauto.
Qed.

Lemma close_sessions throws r ws r' k s :
  room_after (closeOrErrorHandler throws ws r []) = Some r' →
  state r' = state r
  ∧ (Map_get k (sessions r') = Some s → k ≠ ws ∧ Map_get k (sessions r) = Some s).
Proof.
  rewrite closeOrErrorHandler_run.
  assert (Hdel : ∀ m : list (WebSocket * SessionData),
            Map_get k (Map_delete ws m) = Some s → k ≠ ws ∧ Map_get k m = Some s).
  { intros m. destruct (decide (k = ws)) as [->|Hne].
    - by rewrite Map_get_delete_eq.
    - by rewrite Map_get_delete_ne. }
  destruct (Map_get ws (sessions r)) as [session|];
    [destruct (truthy (name session))|]; simpl; intros [= <-]; simpl;
    (split; [done|]); try apply Hdel.
  intros [? Hk]%Hdel. split; [done|]. rewrite Map_get_drop in Hk. by case_decide.
Qed.

(** The constructor lists the connected sockets in their order. *)
Lemma restore_fold_keys (st : DurableObjectState) wss acc restored :
  foldl (λ acc webSocket,
           all ← acc;
           meta ← attachments st !! webSocket;
           Some (Map_set webSocket (restored_session webSocket meta) all))
        (Some acc) wss = Some restored →
  NoDup (Map_keys acc ++ wss) →
  Map_keys restored = Map_keys acc ++ wss.
Proof.
  revert acc. induction wss as [|w wss IH]; intros acc; simpl.
  - intros [= <-] _. by rewrite app_nil_r.
  - destruct (attachments st !! w) as [meta|] eqn:Hmeta; simpl.
    + intros Hfold Hnd. rewrite (IH _ Hfold).
      * rewrite Map_set_keys_absent; [by rewrite <- app_assoc|].
        apply NoDup_app in Hnd as (_ & Hdisj & _). intros Hin.
        apply (Hdisj w Hin), list_elem_of_here.
      * rewrite Map_set_keys_absent.
        -- by rewrite <- app_assoc.
        -- apply NoDup_app in Hnd as (_ & Hdisj & _). intros Hin.
           apply (Hdisj w Hin), list_elem_of_here.
    + intros Hfold. exfalso. clear -Hfold. induction wss; simpl in *; [done | auto].
Qed.

Lemma constructor_keys r r' :
  NoDup (webSockets (state r)) →
  constructor (state r) = Some r' →
  Map_keys (sessions r') = webSockets (state r) ∧ state r' = state r.
Proof.
  intros Hnd. unfold constructor.
  destruct (foldl _ _ _) as [restored|] eqn:Hfold; simpl; [|done].
  intros [= <-]. simpl. split; [|done].
  by rewrite (restore_fold_keys _ _ _ _ Hfold).
Qed.

Lemma step_connected throws r e r' :
  consistent r → connected r → step throws r e = Some r' → connected r'.
Proof.
  intros Hr [Hnd Hsub]. destruct e as [ws uuid|ws message|ws|]; simpl.
  - case_decide as Hfresh; [|done]. destruct Hfresh as [Hnew _]. intros [= <-]. simpl.
    split.
    + apply NoDup_app. split; [done|]. split; [|apply NoDup_singleton].
      intros k Hk ->%list_elem_of_singleton.
      destruct (accepted_attached r Hr ws Hk) as [? ?]. congruence.
    + intros k [s Hs]%Map_keys_get. apply elem_of_app.
      destruct (decide (k = ws)) as [->|Hne]; [right; apply list_elem_of_here|].
      simpl in Hs. rewrite Map_get_set_ne in Hs by done. left.
      apply Hsub, Map_keys_get. eauto.
  - case_decide; [|done]. intros Hafter.
    destruct (message_durable throws r ws message r' Hr Hafter) as [Hws _].
    split; rewrite Hws; [done|].
    intros k Hk. apply Hsub. by eapply message_keys.
  - case_decide; [|done].
    destruct (closeOrErrorHandler throws ws r []) as [r1 log []|r1 log err|] eqn:Hclose;
      simpl; [| |done]; intros [= <-]; simpl.
    all: assert (Hafter : room_after (closeOrErrorHandler throws ws r []) = Some r1)
           by (by rewrite Hclose).
    all: split; [apply NoDup_filter;
                 by rewrite (proj1 (close_sessions throws r ws r1 0 anonymous_A Hafter))|].
    all: intros k [s Hs]%Map_keys_get;
         destruct (close_sessions throws r ws r1 k s Hafter) as [Hst Hk];
         destruct (Hk Hs) as [Hne Hold];
         apply list_elem_of_filter; split; [done|]; rewrite Hst;
         apply Hsub, Map_keys_get; eauto.
  - intros Hwake. destruct (constructor_keys r r' Hnd Hwake) as [Hkeys Hst].
    split; rewrite Hst; [done|]. by rewrite Hkeys.
Qed.

Lemma reachable_connected r : reachable r → connected r.
Proof.
  induction 1 as [|throws r e r' Hr IH Hstep].
  - split; simpl; [apply NoDup_nil_2 | intros k Hk; by apply elem_of_nil in Hk].
  - eapply step_connected; [by apply reachable_consistent | done | done].
Qed.

(** The user ids of all sessions, named or not, are distinct. *)
Lemma consistent_all_user_ids r :
  consistent r → NoDup (userId <$> Map_values (sessions r)).
Proof.
  intros [Hnd Hatt Hacc Hids].
  assert (Hkey : ∀ k1 s1 k2 s2, (k1, s1) ∈ sessions r → (k2, s2) ∈ sessions r →
                                userId s1 = userId s2 → (k1, s1) = (k2, s2)).
  { intros k1 s1 k2 s2 H1 H2 Heq.
    destruct (Hatt k1 s1 H1) as [A1 _], (Hatt k2 s2 H2) as [A2 _].
    assert (k1 = k2) as -> by (by eapply Hids).
    apply (Map_elem_of_get _ _ _ Hnd) in H1, H2. congruence. }
  unfold Map_values. rewrite <- list_fmap_compose.
  apply NoDup_fmap_2_strong; [|by eapply NoDup_fmap_1].
  intros [k1 s1] [k2 s2] H1 H2. simpl. by apply Hkey.
Qed.

(** X7. In every reachable room the registry has one entry per connection, the
    user ids of the sessions are distinct, the host lists each connected
    socket once, and every session is stored under its own socket, which is
    connected. *)
Theorem reachable_registry_is_well_formed r :
  reachable r →
  NoDup (Map_keys (sessions r))
  ∧ NoDup (userId <$> Map_values (sessions r))
  ∧ NoDup (webSockets (state r))
  ∧ ∀ ws s, (ws, s) ∈ sessions r → webSocket s = ws ∧ ws ∈ webSockets (state r).
Proof.
  intros Hr. pose proof (reachable_consistent r Hr) as Hc.
  destruct (reachable_connected r Hr) as [Hnd Hsub].
  split; [apply (keys_distinct r Hc)|]. split; [by apply consistent_all_user_ids|].
  split; [done|]. intros ws s Hin. split; [by apply (attached r Hc)|].
  apply Hsub. unfold Map_keys. apply list_elem_of_fmap. by exists (ws, s).
Qed.

Lemma reachable_registry_is_well_formed_witness :
  NoDup (Map_keys (sessions voting)) ∧ NoDup (userId <$> Map_values (sessions voting)).
Proof.
  destruct (reachable_registry_is_well_formed voting voting_reachable) as (H1 & H2 & _).
  split; [exact H1 | exact H2].
Defined.

(** No event changes the user id in an attachment. *)
Lemma step_durable_ids throws r e r' k a :
  consistent r → step throws r e = Some r' →
  attachments (state r) !! k = Some a →
  ∃ a', attachments (state r') !! k = Some a' ∧ meta_userId a' = meta_userId a.
Proof.
  intros Hr Hstep Hk. destruct e as [ws uuid|ws message|ws|]; simpl in Hstep.
  - case_decide as Hfresh; [|done]. destruct Hfresh as [Hnew _].
    simplify_eq. simpl. exists a. split; [|done].
    rewrite lookup_insert_ne; [done|]. intros ->. congruence.
  - case_decide; [|done].
    by apply (proj2 (message_durable throws r ws message r' Hr Hstep)).
  - case_decide; [|done].
    destruct (closeOrErrorHandler throws ws r []) as [r1 log []|r1 log err|] eqn:Hclose;
      simpl in Hstep; [| |done]; simplify_eq; simpl.
    all: assert (Hafter : room_after (closeOrErrorHandler throws ws r []) = Some r1)
           by (by rewrite Hclose).
    all: rewrite (proj1 (close_sessions throws r ws r1 0 anonymous_A Hafter)); eauto.
  - unfold constructor in Hstep. destruct (foldl _ _ _); simpl in Hstep; [|done].
    simplify_eq. simpl. eauto.
Qed.

Lemma step_consistent_reaches r r' : consistent r → reaches r r' → consistent r'.
Proof.
  intros Hr. induction 1 as [|throws r1 e r2 _ IH Hstep]; [done|].
  by eapply step_consistent.
Qed.

(** X8. The user id of a connection never changes: whatever events happen in
    between, wake-ups included, a connection that is registered before and
    after has the same user id. *)
Theorem user_id_is_stable r r' ws s s' :
  reachable r → reaches r r' →
  Map_get ws (sessions r) = Some s →
  Map_get ws (sessions r') = Some s' →
  userId s' = userId s.
Proof.
  intros Hr%reachable_consistent Hreach Hs Hs'.
  assert (Hids : ∃ a', attachments (state r') !! ws = Some a'
                       ∧ meta_userId a' = userId s).
  { clear Hs'. induction Hreach as [|throws r1 e r2 Hreach IH Hstep].
    - exists (meta_of s). split; [|done].
      by apply (attached r Hr), Map_get_elem_of.
    - destruct IH as (a1 & Ha1 & Hid1).
      destruct (step_durable_ids throws r1 e r2 ws a1) as (a2 & Ha2 & Hid2);
        [by eapply step_consistent_reaches | done | done |].
      exists a2. split; [done | congruence]. }
  destruct Hids as (a' & Ha' & Hid).
  pose proof (step_consistent_reaches r r' Hr Hreach) as Hr'.
  apply Map_get_elem_of in Hs'. destruct (attached r' Hr' ws s' Hs') as [Hm _].
  rewrite Hm in Ha'. simplify_eq. done.
Qed.

Lemma user_id_is_stable_witness : userId alice_5 = userId alice.
Proof.
  refine (user_id_is_stable alice_alone voting 1 alice alice_5 alice_alone_reachable _
            eq_refl eq_refl).
  eapply (reaches_step _ no_failure (room_of alice bob false) (ev_message 1 (msg_vote "5")));
    [|by vm_compute].
  eapply (reaches_step _ no_failure alice_alone (ev_message 2 (msg_join "Bob")));
    [constructor | by vm_compute].
Defined.

(** ** Waking up, again *)

(** Two registries with the same keys, in the same order, and the same
    session under each key are the same. *)
Lemma Map_eq {V} (m1 m2 : list (WebSocket * V)) :
  Map_keys m1 = Map_keys m2 → NoDup (Map_keys m1) →
  (∀ k, Map_get k m1 = Map_get k m2) → m1 = m2.
Proof.
  unfold Map_keys. revert m2.
  induction m1 as [|[k v] m1 IH]; intros [|[k' v'] m2]; simpl; try done.
  intros [= <- Hkeys] [Hk Hnd]%NoDup_cons Hget.
  pose proof (Hget k) as Hk0. simpl in Hk0. rewrite !decide_True in Hk0 by done.
  simplify_eq. f_equal. apply IH; [done..|].
  intros k0. specialize (Hget k0). simpl in Hget.
  destruct (decide (k = k0)) as [->|Hne]; [|done].
  assert (Hk2 : k0 ∉ Map_keys m2).
  { intros Hin. apply Hk. rewrite Hkeys. exact Hin. }
  transitivity (@None V); [|symmetry]; by apply Map_get_None.
Qed.

(** X9. Hibernation loses nothing of a room whose votes are hidden: if the
    registry holds exactly the connected sockets, in the host's order, the
    constructor rebuilds the same room from the durable state. *)
Theorem wake_up_round_trip r :
  consistent r →
  NoDup (webSockets (state r)) →
  Map_keys (sessions r) = webSockets (state r) →
  revealed r = false →
  constructor (state r) = Some r.
Proof.
  intros Hr Hnd Hkeys Hhidden.
  destruct (constructor_consistent r Hr) as (r' & Hctor & Hr' & Hst & Hrev & Hback).
  destruct (constructor_keys r r' Hnd Hctor) as [Hkeys' _].
  rewrite Hctor. f_equal. destruct r as [st m b], r' as [st' m' b']. simpl in *.
  subst. f_equal. apply Map_eq; [by rewrite Hkeys' | by rewrite Hkeys'|].
  intros k. destruct (Map_get k m) as [s|] eqn:Hs.
  - apply Hback; [done|]. rewrite <- Hkeys. apply Map_keys_get. eauto.
  - apply Map_get_None. rewrite Hkeys', <- Hkeys. by apply Map_get_None.
Qed.

Lemma wake_up_round_trip_witness : constructor (state voting) = Some voting.
Proof.
  refine (wake_up_round_trip voting (reachable_consistent voting voting_reachable) _
            eq_refl eq_refl).
  apply (proj1 (reachable_connected voting voting_reachable)).
Defined.

(** X10. Waking up a reachable room registers exactly the connected sockets,
    each with the session that its attachment describes; no connection that
    was registered is lost. *)
Theorem wake_up_registers_every_connected_socket r :
  reachable r →
  ∃ r',
    constructor (state r) = Some r'
    ∧ Map_keys (sessions r') = webSockets (state r)
    ∧ (∀ k, k ∈ Map_keys (sessions r) → k ∈ Map_keys (sessions r'))
    ∧ (∀ k s', Map_get k (sessions r') = Some s' →
         ∃ meta, attachments (state r) !! k = Some meta
                 ∧ s' = mkSession (meta_userId meta) (meta_name meta) (meta_vote meta) k).
Proof.
  intros Hreach. pose proof (reachable_consistent r Hreach) as Hr.
  destruct (reachable_connected r Hreach) as [Hnd Hsub].
  destruct (constructor_consistent r Hr) as (r' & Hctor & Hr' & Hst & Hrev & Hback).
  destruct (constructor_keys r r' Hnd Hctor) as [Hkeys _].
  exists r'. split; [done|]. split; [done|]. split; [by rewrite Hkeys|].
  intros k s' Hs'%Map_get_elem_of. destruct (attached r' Hr' k s' Hs') as [Hm Hws].
  rewrite Hst in Hm. exists (meta_of s'). split; [done|].
  destruct s'. simpl in *. by subst.
Qed.

Lemma wake_up_registers_every_connected_socket_witness :
  ∃ r', constructor (state shown) = Some r' ∧ Map_keys (sessions r') = [1; 2].
Proof.
  destruct (wake_up_registers_every_connected_socket shown shown_reachable)
    as (r' & Hrun & Hkeys & _).
  exists r'. split; [exact Hrun | exact Hkeys].
Defined.

(** ** Connections that come and go *)

Lemma Map_set_absent {V} ws (v : V) (m : list (WebSocket * V)) :
  Map_get ws m = None → Map_set ws v m = m ++ [(ws, v)].
Proof.
  induction m as [|[k w] m IH]; simpl; [done|].
  destruct (decide (k = ws)); [done|]. intros Hnone. by rewrite IH.
Qed.

Lemma Map_delete_absent {V} ws (m : list (WebSocket * V)) :
  Map_get ws m = None → Map_delete ws m = m.
Proof.
  induction m as [|[k w] m IH]; simpl; [done|].
  destruct (decide (k = ws)); [done|]. intros Hnone. by rewrite IH.
Qed.

(** X11. Accepting a connection sends nothing. The new session is appended
    without a name or a vote, the socket is accepted and its attachment
    written, and neither the list of participants nor the recipients of any
    later broadcast change. *)
Theorem accepting_a_connection_is_silent ws uuid r :
  Map_get ws (sessions r) = None →
  ∃ r',
    handleSession ws uuid r [] = Returned r' [] ()
    ∧ sessions r' = sessions r ++ [(ws, mkSession uuid "" null ws)]
    ∧ webSockets (state r') = webSockets (state r) ++ [ws]
    ∧ attachments (state r') = <[ws := mkMeta uuid "" null]> (attachments (state r))
    ∧ revealed r' = revealed r
    ∧ named_sessions (sessions r') = named_sessions (sessions r)
    ∧ (∀ throws message exclude,
         (fanOut throws message exclude (sessions r')).1
         = (fanOut throws message exclude (sessions r)).1).
Proof.
  intros Hnew. eexists. split; [run_handler; reflexivity|]. simpl.
  rewrite (Map_set_absent _ _ _ Hnew).
  split; [done|]. split; [done|]. split; [done|]. split; [done|]. split.
  - unfold named_sessions, Map_values. rewrite fmap_app, filter_app. simpl.
    rewrite filter_cons_False by (simpl; congruence). by rewrite filter_nil, app_nil_r.
  - intros throws message exclude. rewrite !fanOut_log, filter_app.
    rewrite (filter_cons_False _ (ws, _)); [|by intros [_ ?]].
    by rewrite filter_nil, app_nil_r.
Qed.

Lemma accepting_a_connection_is_silent_witness :
  ∃ r', handleSession 3 "C" voting [] = Returned r' [] ()
        ∧ named_sessions (sessions r') = named_sessions (sessions voting).
Proof.
  destruct (accepting_a_connection_is_silent 3 "C" voting eq_refl)
    as (r' & Hrun & _ & _ & _ & _ & Hnamed & _).
  exists r'. split; [exact Hrun | exact Hnamed].
Defined.



(** X13. Who joins after a reset is shown a clean round: the [state] message
    says that the votes are hidden, carries no votes, and lists nobody as
    having voted. *)
Theorem join_after_reset_shows_a_clean_round
    throws r ws session data r1 throws' ws' session' data' n :
  Map_get ws (sessions r) = Some session →
  truthy (name session) = true →
  member data "type" = inr (Some (JString "reset")) →
  room_after (webSocketMessage throws ws (inr data) r []) = Some r1 →
  Map_get ws' (sessions r1) = Some session' →
  member data' "type" = inr (Some (JString "join")) →
  member data' "name" = inr (Some (JString n)) →
  throws' ws' = None →
  ∃ users r2 rest,
    webSocketMessage throws' ws' (inr data') r1 []
    = Returned r2 (Sent ws' (s_state users false None) :: rest) ()
    ∧ (∀ u, u ∈ users → user_hasVoted u = false)
    ∧ (∀ k s, (k, s) ∈ sessions r2 → vote s = null)
    ∧ revealed r2 = false.
Proof.
  intros Hget Hnamed Htype Hafter Hget' Htype' Hname' Hok.
  rewrite (reset_run throws r ws session data Hget Hnamed Htype) in Hafter.
  simpl in Hafter. injection Hafter as <-.
  set (r1 := mkRoom _ _ _) in *.
  assert (Hvotes : ∀ k s, (k, s) ∈ sessions r1 → vote s = null).
  { intros k s [_ Hin]%drop_elem_of.
    apply list_elem_of_fmap in Hin as ([k0 s0] & [= -> ->] & _). done. }
  assert (Hall : ∀ k s, (k, s) ∈ Map_set ws' (with_name session' (slice_0_32 n)) (sessions r1) →
                        vote s = null).
  { intros k s [[-> ->]|Hin]%Map_set_elem_of_weak; [|by eapply Hvotes].
    simpl. apply (Hvotes ws'). by apply Map_get_elem_of. }
  rewrite (join_run throws' r1 ws' session' data' Hget' n Htype' Hname'), Hok.
  eexists _, _, _. split; [reflexivity|]. split; [|split; [|done]].
  - intros u (s & -> & [_ [k Hin]]%named_sessions_elem_of)%list_elem_of_fmap.
    simpl. by rewrite (Hall k s Hin).
  - intros k s. simpl. intros [_ Hin]%drop_elem_of. by eapply Hall.
Qed.

Lemma join_after_reset_shows_a_clean_round_witness :
  ∃ users r2 rest,
    webSocketMessage no_failure 1 (msg_join "Alice") (room_of alice bob false) []
    = Returned r2 (Sent 1 (s_state users false None) :: rest) ()
    ∧ (∀ u, u ∈ users → user_hasVoted u = false).
Proof.
  assert (Hrun : room_after (webSocketMessage no_failure 2 msg_reset shown [])
                 = Some (room_of alice bob false)) by (by vm_compute).
  destruct (join_after_reset_shows_a_clean_round no_failure shown 2 bob
              (JObject [("type", JString "reset")]) (room_of alice bob false)
              no_failure 1 alice
              (JObject [("type", JString "join"); ("name", JString "Alice")]) "Alice"
              eq_refl eq_refl eq_refl Hrun eq_refl eq_refl eq_refl eq_refl)
    as (users & r2 & rest & Hjoin & Hclean & _).
  exists users, r2, rest. split; [exact Hjoin | exact Hclean].
Defined.

(** ** What the host sees of a handler *)

(** X22. An exception escapes [webSocketMessage] only from a registered
    connection whose own sends throw: what escapes is the exception of the
    error reply of the catch clause, the last thing attempted. *)
Theorem only_own_send_failure_escapes throws r ws message r' log err :
  webSocketMessage throws ws message r [] = Threw r' log err →
  throws ws = Some err
  ∧ (∃ session, Map_get ws (sessions r) = Some session)
  ∧ ∃ reply, last log = Some (SendThrew ws (s_error reply)).
Proof.
  destruct (webSocketMessage_handled throws r ws message)
    as [Hget|session err0 Hget Hc|session Hget Hc|session c Hget Hc
        |session c Hget Hc Hnj Hanon|session n Hget Hc
        |session card Hget Hc Hnamed|session Hget Hc Hnamed
        |session to emoji Hget Hc Hnamed|session Hget Hc Hnamed];
    unfold error_reply, unjoined_outcome, join_outcome, vote_outcome, reveal_outcome,
      emoji_outcome, reset_outcome; try done.
  - destruct (throws ws) as [e|]; [|done]. intros [= <- <- <-]. eauto.
  - destruct (throws ws) as [e|]; [|done]. intros [= <- <- <-]. eauto.
  - destruct (throws ws) as [e|]; [|done]. intros [= <- <- <-]. eauto.
Qed.

Lemma only_own_send_failure_escapes_witness :
  stale_1 1 = Some "WebSocket is closed"
  ∧ ∃ reply, last [SendThrew 1 (s_error "Must join first");
                   SendThrew 1 (s_error "WebSocket is closed")]
             = Some (SendThrew 1 (s_error reply)).
Proof.
  destruct (only_own_send_failure_escapes stale_1 lobby 1 (msg_vote "5") lobby
              [SendThrew 1 (s_error "Must join first");
               SendThrew 1 (s_error "WebSocket is closed")] "WebSocket is closed" eq_refl)
    as (Hthrows & _ & Hlast).
  split; [exact Hthrows | exact Hlast].
Defined.

(** X23. After a close or an error was handled the connection is not
    registered, and a second close or error on it sends nothing and leaves the
    room as it is: an error followed by a close announces the leave once. *)
Theorem leave_is_announced_once throws throws' ws r r1 :
  room_after (closeOrErrorHandler throws ws r []) = Some r1 →
  Map_get ws (sessions r1) = None
  ∧ closeOrErrorHandler throws' ws r1 [] = Returned r1 [] ().
Proof.
  rewrite closeOrErrorHandler_run.
  assert (Hgone : ∀ st m b, Map_get ws (Map_delete ws m) = None →
            closeOrErrorHandler throws' ws (mkRoom st (Map_delete ws m) b) []
            = Returned (mkRoom st (Map_delete ws m) b) [] ()).
  { intros st m b Hnone. rewrite closeOrErrorHandler_run. simpl. rewrite Hnone.
    by rewrite (Map_delete_absent _ _ Hnone). }
  destruct (Map_get ws (sessions r)) as [session|];
    [destruct (truthy (name session))|]; simpl; intros [= <-]; simpl;
    (split; [apply Map_get_delete_eq | apply Hgone, Map_get_delete_eq]).
Qed.

Lemma leave_is_announced_once_witness :
  closeOrErrorHandler no_failure 2 (mkRoom (state voting) [(1, alice_5)] false) []
  = Returned (mkRoom (state voting) [(1, alice_5)] false) [] ().
Proof.
  assert (Hrun : room_after (closeOrErrorHandler no_failure 2 voting [])
                 = Some (mkRoom (state voting) [(1, alice_5)] false)) by (by vm_compute).
  exact (proj2 (leave_is_announced_once no_failure no_failure 2 voting _ Hrun)).
Defined.

(** ** Delivery *)

Lemma deliver_app log1 log2 clients :
  deliver (log1 ++ log2) clients = deliver log2 (deliver log1 clients).
Proof. unfold deliver. by rewrite foldl_app. Qed.

Lemma deliver_broadcast message (ks : list WebSocket) clients k :
  NoDup ks →
  deliver (attempt no_failure message <$> ks) clients k
  = if decide (k ∈ ks) then useWebSocket.onmessage message (clients k) else clients k.
Proof.
  revert clients. induction ks as [|k0 ks IH]; intros clients Hnd.
  - case_decide as Hin; [by apply elem_of_nil in Hin | done].
  - apply NoDup_cons in Hnd as [Hk0 Hnd].
    change (deliver (attempt no_failure message <$> k0 :: ks) clients)
      with (deliver (attempt no_failure message <$> ks)
              (λ k, if decide (k = k0)
                    then useWebSocket.onmessage message (clients k) else clients k)).
    rewrite IH by done.
    destruct (decide (k = k0)) as [->|Hne].
    + rewrite decide_False by done. by rewrite decide_True by apply list_elem_of_here.
    + destruct (decide (k ∈ ks)) as [Hin|Hnin].
      * by rewrite decide_True by (by apply list_elem_of_further).
      * by rewrite decide_False by (rewrite elem_of_cons; naive_solver).
Qed.

Lemma fanOut_no_failure message exclude (all : list (WebSocket * SessionData)) :
  (fanOut no_failure message exclude all).2 = [].
Proof.
  rewrite fanOut_quitters. induction ((filter (eligible exclude) all).*1) as [|k ks IH];
    [done|]. by rewrite filter_cons_False by (intros H; by apply H).
Qed.

Lemma after_broadcast_no_failure message exclude st all b :
  after_broadcast no_failure message exclude st all b = mkRoom st all b.
Proof. unfold after_broadcast. by rewrite fanOut_no_failure. Qed.

(** ** How the listing changes *)

Lemma listing_cons k s (m : list (WebSocket * SessionData)) :
  listing ((k, s) :: m) = if truthy (name s) then user_of s :: listing m else listing m.
Proof.
  unfold listing, named_sessions, Map_values. rewrite fmap_cons. simpl.
  destruct (truthy (name s)) eqn:Hn.
  - by rewrite filter_cons_True.
  - by rewrite filter_cons_False by congruence.
Qed.

Lemma listing_join ws s n (m : list (WebSocket * SessionData)) :
  Map_get ws m = Some s → name s = "" → truthy n = true →
  listing (Map_set ws (with_name s n) m) ≡ₚ listing m ++ [user_of (with_name s n)].
Proof.
  intros Hget Hanon Hn. induction m as [|[k v] m IH]; simpl in *; [done|].
  destruct (decide (k = ws)) as [->|Hne].
  - simplify_eq. rewrite !listing_cons. simpl. rewrite Hn, Hanon. simpl.
    apply Permutation_cons_append.
  - rewrite !listing_cons. destruct (truthy (name v)); simpl; [|by apply IH].
    f_equiv. by apply IH.
Qed.

(** [u.id === userId ? { ...u, hasVoted } : u]. *)
Lemma mark_others uid hv (m : list (WebSocket * SessionData)) :
  uid ∉ userId <$> Map_values m → mark uid hv <$> listing m = listing m.
Proof.
  unfold Map_values. induction m as [|[k v] m IH]; [done|].
  rewrite !fmap_cons, not_elem_of_cons. simpl. intros [Hne Hnin].
  rewrite listing_cons. destruct (truthy (name v)); [|by apply IH].
  rewrite fmap_cons, IH by done. f_equal. unfold mark. simpl.
  by rewrite decide_False.
Qed.

Lemma listing_vote ws s card (m : list (WebSocket * SessionData)) :
  Map_get ws m = Some s → NoDup (userId <$> Map_values m) →
  listing (Map_set ws (with_vote s card) m) = mark (userId s) (notNull card) <$> listing m.
Proof.
  unfold Map_values. intros Hget Hnd.
  induction m as [|[k v] m IH]; simpl in *; [done|].
  apply NoDup_cons in Hnd as [Hv Hnd].
  destruct (decide (k = ws)) as [->|Hne].
  - simplify_eq. rewrite !listing_cons. simpl. destruct (truthy (name s)).
    + rewrite fmap_cons, mark_others by done. f_equal. unfold mark. simpl.
      by rewrite decide_True.
    + by rewrite mark_others.
  - rewrite !listing_cons, IH by done. destruct (truthy (name v)); [|done].
    rewrite fmap_cons. f_equal. unfold mark. simpl. rewrite decide_False; [done|].
    intros Heq. apply Hv. rewrite Heq. apply list_elem_of_fmap. exists s. split; [done|].
    apply list_elem_of_fmap. exists (ws, s). split; [done|]. by apply Map_get_elem_of.
Qed.

Lemma listing_reset (m : list (WebSocket * SessionData)) :
  listing ((λ e, (e.1, with_vote e.2 null)) <$> m)
  = (λ u, mkUser (user_id u) (user_name u) false) <$> listing m.
Proof.
  induction m as [|[k v] m IH]; [done|]. rewrite fmap_cons. simpl.
  rewrite !listing_cons, IH. simpl. by destruct (truthy (name v)).
Qed.

Lemma listing_delete_absent ws (m : list (WebSocket * SessionData)) :
  ws ∉ Map_keys m → listing (Map_delete ws m) = listing m.
Proof. intros Hnin%Map_get_None. by rewrite Map_delete_absent. Qed.

Lemma listing_without uid (m : list (WebSocket * SessionData)) :
  uid ∉ userId <$> Map_values m →
  filter (λ u, user_id u ≠ uid) (listing m) = listing m.
Proof.
  unfold Map_values. induction m as [|[k v] m IH]; [done|].
  rewrite !fmap_cons, not_elem_of_cons. simpl. intros [Hne Hnin].
  rewrite listing_cons. destruct (truthy (name v)); [|by apply IH].
  rewrite filter_cons_True by (simpl; congruence). by rewrite IH.
Qed.

Lemma listing_delete ws s (m : list (WebSocket * SessionData)) :
  Map_get ws m = Some s → NoDup (Map_keys m) → NoDup (userId <$> Map_values m) →
  listing (Map_delete ws m)
  = if truthy (name s) then filter (λ u, user_id u ≠ userId s) (listing m) else listing m.
Proof.
  unfold Map_values, Map_keys. intros Hget Hkeys Hnd.
  induction m as [|[k v] m IH]; simpl in *; [done|].
  apply NoDup_cons in Hnd as [Hv Hnd]. apply NoDup_cons in Hkeys as [Hk Hkeys].
  destruct (decide (k = ws)) as [->|Hne].
  - simplify_eq. rewrite listing_delete_absent by done. rewrite listing_cons.
    destruct (truthy (name s)); [|done].
    rewrite filter_cons_False by (simpl; intros H; by apply H).
    by rewrite listing_without.
  - rewrite !listing_cons, IH by done.
    assert (userId v ≠ userId s).
    { intros Heq. apply Hv. rewrite Heq. apply list_elem_of_fmap. exists s. split; [done|].
      apply list_elem_of_fmap. exists (ws, s). split; [done|]. by apply Map_get_elem_of. }
    destruct (truthy (name v)), (truthy (name s)); try done.
    by rewrite filter_cons_True.
Qed.

(** ** The mirror is kept *)

Lemma deliver_harmless log clients k :
  (∀ ws m, Sent ws m ∈ log → harmless m) →
  useWebSocket.users (deliver log clients k) = useWebSocket.users (clients k)
  ∧ useWebSocket.revealed (deliver log clients k) = useWebSocket.revealed (clients k)
  ∧ useWebSocket.myUserId (deliver log clients k) = useWebSocket.myUserId (clients k).
Proof.
  revert clients. induction log as [|e log IH]; intros clients Hlog; [done|].
  change (deliver (e :: log) clients) with (deliver log (deliver [e] clients)).
  destruct (IH (deliver [e] clients)) as (-> & -> & ->).
  { intros ws m Hin. apply (Hlog ws m). by apply list_elem_of_further. }
  destruct e as [ws m| |]; try done. unfold deliver. simpl.
  destruct (decide (k = ws)); [|done].
  pose proof (Hlog ws m (list_elem_of_here _ _)) as Hm. by destruct m.
Qed.

Lemma mirrored_harmless r clients log :
  (∀ ws m, Sent ws m ∈ log → harmless m) →
  mirrored r clients → mirrored r (deliver log clients).
Proof.
  intros Hlog Hm ws session Hget Hn.
  destruct (deliver_harmless log clients ws Hlog) as (-> & -> & ->). by apply Hm.
Qed.

Lemma slice_nonempty n : n ≠ "" → truthy (slice_0_32 n) = true.
Proof. by destruct n. Qed.

Lemma fanOut_sent message exclude (all : list (WebSocket * SessionData)) :
  (fanOut no_failure message exclude all).1
  = attempt no_failure message <$> (filter (eligible exclude) all).*1.
Proof. apply fanOut_log. Qed.

Section Mirror.
Variables (r : PlanningPokerRoom) (clients : Clients).
Hypothesis Hr : consistent r.
Hypothesis Hunvoted : unnamed_unvoted r.
Hypothesis Hmirror : mirrored r clients.

Lemma mirrored_join ws session n :
  Map_get ws (sessions r) = Some session → name session = "" → n ≠ "" →
  let joined := with_name session (slice_0_32 n) in
  let all := Map_set ws joined (sessions r) in
  ∀ st,
    unnamed_unvoted (mkRoom st all (revealed r))
    ∧ mirrored (mkRoom st all (revealed r))
        (deliver ([Sent ws (stateMessage all (revealed r));
                   Sent ws (s_joined (userId session) (slice_0_32 n))]
                  ++ (fanOut no_failure (s_userJoined (userId session) (slice_0_32 n))
                        (Some ws) all).1) clients).
Proof.
  intros Hget Hanon Hn joined all st.
  pose proof (slice_nonempty n Hn) as Hnamed.
  split.
  { intros k s. simpl. intros [[-> ->]|Hin]%Map_set_elem_of_weak; [|exact (Hunvoted k s Hin)].
    simpl. intros Hempty. by rewrite Hempty in Hnamed. }
  intros k sk Hk Hnk. rewrite deliver_app. simpl in Hk |- *.
  rewrite fanOut_sent, deliver_broadcast
    by (apply eligible_keys_NoDup, Map_set_NoDup, (keys_distinct r Hr)).
  destruct (decide (k = ws)) as [->|Hne].
  - rewrite decide_False by (intros [? _]%eligible_keys_elem_of; done).
    unfold all in Hk. rewrite Map_get_set_eq in Hk. simplify_eq.
    unfold deliver. simpl. rewrite ?decide_True by done. done.
  - unfold all in Hk. rewrite Map_get_set_ne in Hk by done.
    destruct (Hmirror k sk Hk Hnk) as (Husers & Hshown & Hme).
    rewrite decide_True.
    2:{ apply eligible_keys_elem_of. split; [congruence|]. exists sk. split; [|done].
        apply Map_get_elem_of. unfold all. by rewrite Map_get_set_ne. }
    unfold deliver. simpl. rewrite ?decide_False by done. simpl.
    split; [|done]. rewrite Husers. unfold all, joined.
    rewrite (listing_join ws session (slice_0_32 n) (sessions r) Hget Hanon Hnamed).
    f_equiv. unfold user_of. simpl.
    by rewrite (Hunvoted ws session (Map_get_elem_of _ _ _ Hget) Hanon).
Qed.

Lemma mirrored_vote ws session card :
  Map_get ws (sessions r) = Some session → truthy (name session) = true →
  let all := Map_set ws (with_vote session card) (sessions r) in
  ∀ st,
    unnamed_unvoted (mkRoom st all (revealed r))
    ∧ mirrored (mkRoom st all (revealed r))
        (deliver (fanOut no_failure (s_voted (userId session) (notNull card)) None all).1
                 clients).
Proof.
  intros Hget Hnamed all st. split.
  { intros k s. simpl. intros [[-> ->]|Hin]%Map_set_elem_of_weak; [|exact (Hunvoted k s Hin)].
    simpl. intros Hempty. by rewrite Hempty in Hnamed. }
  intros k sk. simpl. intros Hk Hnk.
  rewrite fanOut_sent, deliver_broadcast
    by (apply eligible_keys_NoDup, Map_set_NoDup, (keys_distinct r Hr)).
  rewrite decide_True.
  2:{ apply eligible_keys_elem_of. split; [done|]. exists sk. split; [|done].
      by apply Map_get_elem_of. }
  assert (Hold : ∃ s0, Map_get k (sessions r) = Some s0 ∧ truthy (name s0) = true
                       ∧ userId s0 = userId sk).
  { unfold all in Hk. destruct (decide (k = ws)) as [->|Hne].
    - rewrite Map_get_set_eq in Hk. simplify_eq. eauto.
    - rewrite Map_get_set_ne in Hk by done. eauto. }
  destruct Hold as (s0 & Hs0 & Hn0 & Hid).
  destruct (Hmirror k s0 Hs0 Hn0) as (Husers & Hshown & Hme).
  simpl. split; [|split; [done | congruence]].
  unfold all. rewrite listing_vote; [|done|by apply consistent_all_user_ids].
  fold (mark (userId session) (notNull card)). by rewrite Husers.
Qed.

Lemma mirrored_reveal message :
  (∃ vs, message = s_revealed vs) →
  mirrored (mkRoom (state r) (sessions r) true)
           (deliver (fanOut no_failure message None (sessions r)).1 clients).
Proof.
  intros [vs ->] k sk. simpl. intros Hk Hnk.
  rewrite fanOut_sent, deliver_broadcast by (apply eligible_keys_NoDup, (keys_distinct r Hr)).
  rewrite decide_True.
  2:{ apply eligible_keys_elem_of. split; [done|]. exists sk. split; [|done].
      by apply Map_get_elem_of. }
  destruct (Hmirror k sk Hk Hnk) as (Husers & Hshown & Hme). done.
Qed.

Lemma mirrored_reset :
  let all := (λ e, (e.1, with_vote e.2 null)) <$> sessions r in
  ∀ st,
    unnamed_unvoted (mkRoom st all false)
    ∧ mirrored (mkRoom st all false) (deliver (fanOut no_failure s_reset None all).1 clients).
Proof.
  intros all st. split.
  { intros k s. simpl. intros ([k0 s0] & [= -> ->] & _)%list_elem_of_fmap. done. }
  intros k sk. simpl. intros Hk Hnk.
  rewrite fanOut_sent, deliver_broadcast.
  2:{ apply eligible_keys_NoDup. unfold all.
      rewrite (Map_keys_fmap (λ s, with_vote s null)). apply (keys_distinct r Hr). }
  rewrite decide_True.
  2:{ apply eligible_keys_elem_of. split; [done|]. exists sk. split; [|done].
      by apply Map_get_elem_of. }
  unfold all in Hk. rewrite (Map_get_fmap (λ s, with_vote s null)) in Hk.
  destruct (Map_get k (sessions r)) as [s0|] eqn:Hs0; [|done]. simpl in Hk. simplify_eq.
  destruct (Hmirror k s0 Hs0 Hnk) as (Husers & Hshown & Hme).
  simpl. split; [|done]. unfold all. by rewrite listing_reset, Husers.
Qed.

Lemma mirrored_close ws :
  let log := effects_of (closeOrErrorHandler no_failure ws r []) in
  ∀ r', room_after (closeOrErrorHandler no_failure ws r []) = Some r' →
        unnamed_unvoted (disconnected ws r') ∧ mirrored (disconnected ws r') (deliver log clients).
Proof.
  intros log r'. unfold log. rewrite closeOrErrorHandler_run.
  pose proof (keys_distinct r Hr) as Hnd.
  pose proof (consistent_all_user_ids r Hr) as Hids.
  assert (Hsub : ∀ m', (∀ k s, (k, s) ∈ m' → (k, s) ∈ sessions r) →
                       ∀ st b, unnamed_unvoted (mkRoom st m' b)).
  { intros m' Hm' st b k s Hin. exact (Hunvoted k s (Hm' k s Hin)). }
  destruct (Map_get ws (sessions r)) as [session|] eqn:Hget;
    [destruct (truthy (name session)) eqn:Hnamed|]; simpl; intros [= <-]; simpl.
  - rewrite fanOut_no_failure. simpl. split.
    { apply Hsub. by intros k s [_ ?]%Map_delete_elem_of. }
    intros k sk. simpl. intros Hk Hnk.
    destruct (decide (k = ws)) as [->|Hne]; [by rewrite Map_get_delete_eq in Hk|].
    rewrite Map_get_delete_ne in Hk by done.
    rewrite fanOut_sent, deliver_broadcast by (by apply eligible_keys_NoDup).
    rewrite decide_True.
    2:{ apply eligible_keys_elem_of. split; [done|]. exists sk. split; [|done].
        by apply Map_get_elem_of. }
    destruct (Hmirror k sk Hk Hnk) as (Husers & Hshown & Hme).
    simpl. split; [|done].
    rewrite (listing_delete ws session) by done. rewrite Hnamed. by rewrite Husers.
  - split.
    { apply Hsub. by intros k s [_ ?]%Map_delete_elem_of. }
    intros k sk. simpl. intros Hk Hnk.
    destruct (decide (k = ws)) as [->|Hne]; [by rewrite Map_get_delete_eq in Hk|].
    rewrite Map_get_delete_ne in Hk by done.
    rewrite (listing_delete ws session) by done. rewrite Hnamed. by apply Hmirror.
  - split.
    { apply Hsub. by intros k s [_ ?]%Map_delete_elem_of. }
    rewrite (Map_delete_absent _ _ Hget). intros k sk. simpl. by apply Hmirror.
Qed.

End Mirror.

Lemma serve_keeps r clients t r' clients' :
  consistent r → unnamed_unvoted r → mirrored r clients → polite r t →
  serve r clients t = Some (r', clients') →
  unnamed_unvoted r' ∧ mirrored r' clients'.
Proof.
  intros Hr Hu Hm Hpolite. destruct t as [ws uuid|ws message|ws]; simpl.
  - (* a connection is accepted *)
    case_decide as Hnew; [|done]. destruct Hnew as [Hnone _]. simpl. intros [= <- <-].
    assert (Habsent : Map_get ws (sessions r) = None).
    { destruct (Map_get ws (sessions r)) as [s|] eqn:Hget; [|done].
      destruct (attached r Hr ws s (Map_get_elem_of _ _ _ Hget)) as [Hatt _]. congruence. }
    simpl. rewrite (Map_set_absent _ _ _ Habsent). split.
    + intros k s [Hin|Hin]%elem_of_app; [exact (Hu k s Hin)|].
      apply list_elem_of_singleton in Hin. by simplify_eq.
    + intros k sk. simpl. intros Hk Hnk.
      assert (Hold : Map_get k (sessions r) = Some sk).
      { rewrite <- (Map_set_absent _ _ _ Habsent) in Hk.
        destruct (decide (k = ws)) as [->|Hne].
        - rewrite Map_get_set_eq in Hk. by simplify_eq.
        - by rewrite Map_get_set_ne in Hk. }
      destruct (Hm k sk Hold Hnk) as (Husers & Hshown & Hme). split; [|done].
      rewrite Husers. unfold listing, named_sessions, Map_values.
      rewrite fmap_app, filter_app. simpl. rewrite filter_cons_False by done.
      by rewrite filter_nil, app_nil_r.
  - (* a message *)
    case_decide as Hconn; [|done].
    destruct (decide (case_of message = Some case_join)) as [Hjoin|Hother].
    + destruct (Hpolite Hjoin) as (session & data & n & Hget & Hanon & -> & Hname & Hn).
      simpl in Hjoin. destruct (member data "type") as [|type] eqn:Htype; [done|].
      apply switch_Some in Hjoin as ->.
      rewrite (join_run no_failure r ws session data Hget n Htype Hname).
      simpl. rewrite fanOut_no_failure. simpl. intros [= <- <-].
      apply (mirrored_join r clients Hr Hu Hm ws session n Hget Hanon Hn).
    + pose proof (webSocketMessage_handled no_failure r ws message) as Hh.
      destruct Hh as [Hget|session err Hget Hc|session Hget Hc|session c Hget Hc
                      |session c Hget Hc Hnj Hanon|session n Hget Hc
                      |session card Hget Hc Hnamed|session Hget Hc Hnamed
                      |session to emoji Hget Hc Hnamed|session Hget Hc Hnamed];
        simpl; try done.
      * intros [= <- <-]. by split.
      * intros [= <- <-]. split; [done|].
        refine (mirrored_harmless r clients [Sent ws (s_error err)] _ Hm).
        intros k m Hin. apply list_elem_of_singleton in Hin. by simplify_eq.
      * intros [= <- <-]. by split.
      * intros [= <- <-]. split; [done|].
        refine (mirrored_harmless r clients [Sent ws (s_error "Must join first")] _ Hm).
        intros k m Hin. apply list_elem_of_singleton in Hin. by simplify_eq.
      * unfold vote_outcome. rewrite after_broadcast_no_failure. simpl. intros [= <- <-].
        apply (mirrored_vote r clients Hr Hu Hm ws session card Hget Hnamed).
      * unfold reveal_outcome. rewrite after_broadcast_no_failure. simpl. intros [= <- <-].
        split; [done|]. apply (mirrored_reveal r clients Hr Hm). eauto.
      * unfold emoji_outcome. rewrite after_broadcast_no_failure. simpl. intros [= <- <-].
        destruct r as [st all shown]. split; [done|].
        refine (mirrored_harmless _ clients
                  (fanOut no_failure (s_emoji (userId session) to emoji) None all).1 _ Hm).
        intros k m Hin. rewrite fanOut_sent in Hin.
        apply list_elem_of_fmap in Hin as (k0 & Heq & _). unfold attempt in Heq.
        simpl in Heq. by simplify_eq.
      * unfold reset_outcome. rewrite after_broadcast_no_failure. simpl. intros [= <- <-].
        apply (mirrored_reset r clients Hr Hm).
  - (* a close *)
    case_decide as Hconn; [|done].
    destruct (room_after (closeOrErrorHandler no_failure ws r [])) as [r0|] eqn:Hafter;
      [|done].
    simpl. intros [= <- <-]. by apply (mirrored_close r clients Hr Hu Hm ws r0).
Qed.

Lemma served_reachable r clients : served r clients → reachable r.
Proof.
  induction 1 as [|r clients t r' clients' _ IH _ Hserve]; [constructor|].
  destruct t as [ws uuid|ws message|ws]; unfold serve in Hserve.
  - destruct (step no_failure r (ev_connect ws uuid)) as [r0|] eqn:Hstep; [|done].
    simpl in Hserve. simplify_eq. by eapply reachable_step.
  - destruct (step no_failure r (ev_message ws message)) as [r0|] eqn:Hstep; [|done].
    simpl in Hserve. simplify_eq. by eapply reachable_step.
  - destruct (step no_failure r (ev_close ws)) as [r0|] eqn:Hstep; [|done].
    simpl in Hserve. simplify_eq. by eapply reachable_step.
Qed.

Lemma served_invariant r clients :
  served r clients → unnamed_unvoted r ∧ mirrored r clients.
Proof.
  induction 1 as [clients|r clients t r' clients' Hs [Hu Hm] Hp Hserve].
  - split; [by intros ws s Hin; apply elem_of_nil in Hin|]. by intros ws s.
  - eapply serve_keeps; eauto. by eapply reachable_consistent, served_reachable.
Qed.

Lemma two_joined_served : served (room_of alice bob false) two_joined.
Proof.
  assert (H0 : served initial (λ _, fresh_client)) by constructor.
  assert (H1 : served lobby (λ _, fresh_client)).
  { eapply (served_step _ _ (t_connect 2 "B")); [|done|].
    - eapply (served_step _ _ (t_connect 1 "A")); [exact H0|done|]. by vm_compute.
    - by vm_compute. }
  assert (H2 : served alice_alone one_joined).
  { eapply (served_step _ _ (t_message 1 (msg_join "Alice"))); [exact H1| |].
    - intros _. exists anonymous_A, (JObject [("type", JString "join"); ("name", JString "Alice")]),
        "Alice". by repeat split.
    - unfold serve, one_joined.
      replace (step no_failure lobby (ev_message 1 (msg_join "Alice")))
        with (Some alice_alone) by (by vm_compute). done. }
  eapply (served_step _ _ (t_message 2 (msg_join "Bob"))); [exact H2| |].
  - intros _. exists anonymous_B, (JObject [("type", JString "join"); ("name", JString "Bob")]),
      "Bob". by repeat split.
  - unfold serve, two_joined.
    replace (step no_failure alice_alone (ev_message 2 (msg_join "Bob")))
      with (Some (room_of alice bob false)) by (by vm_compute). done.
Qed.

(** X14. While no send fails and every connection joins once, under a name
    that is not empty, the hook of each joined connection agrees with the
    room: it lists the participants of the room (in some order), shows the
    cards exactly when the room does, and knows its own user id. *)
Theorem client_mirrors_the_room r clients ws session :
  served r clients →
  Map_get ws (sessions r) = Some session → truthy (name session) = true →
  useWebSocket.users (clients ws) ≡ₚ user_of <$> named_sessions (sessions r)
  ∧ useWebSocket.revealed (clients ws) = revealed r
  ∧ useWebSocket.myUserId (clients ws) = Some (userId session).
Proof.
  intros Hs. by apply served_invariant.
Qed.

Lemma client_mirrors_the_room_witness :
  useWebSocket.users (two_joined 1)
    ≡ₚ user_of <$> named_sessions (sessions (room_of alice bob false))
  ∧ useWebSocket.revealed (two_joined 1) = false
  ∧ useWebSocket.myUserId (two_joined 1) = Some "A".
Proof.
  exact (client_mirrors_the_room _ _ 1 alice two_joined_served eq_refl eq_refl).
Defined.

(** X15. A participant who joins a second time on the same connection is still
    listed once by the room, but every other joined client appends it again
    and lists its user id twice. *)
Theorem rejoin_is_listed_twice r clients ws session data n k sk :
  served r clients →
  Map_get ws (sessions r) = Some session → truthy (name session) = true →
  member data "type" = inr (Some (JString "join")) →
  member data "name" = inr (Some (JString n)) →
  k ≠ ws → Map_get k (sessions r) = Some sk → truthy (name sk) = true →
  let o := webSocketMessage no_failure ws (inr data) r [] in
  ∃ r', room_after o = Some r'
        ∧ NoDup (user_id <$> (user_of <$> named_sessions (sessions r')))
        ∧ useWebSocket.users (deliver (effects_of o) clients k)
          = useWebSocket.users (clients k) ++ [mkUser (userId session) (slice_0_32 n) false]
        ∧ ¬ NoDup (user_id <$> useWebSocket.users (deliver (effects_of o) clients k)).
Proof.
  intros Hs Hget Hnamed Htype Hname Hne Hk Hnk o.
  pose proof (reachable_consistent r (served_reachable r clients Hs)) as Hr.
  pose proof (consistent_webSocketMessage no_failure r ws (inr data) Hr) as Hr'.
  destruct (served_invariant r clients Hs) as [_ Hm].
  destruct (Hm k sk Hk Hnk) as (Husers & _ & _).
  unfold o in *. rewrite (join_run no_failure r ws session data Hget n Htype Hname) in *.
  simpl in Hr' |- *. eexists. split; [done|]. split.
  { rewrite <- list_fmap_compose. apply (consistent_user_ids _ Hr'). }
  assert (Hgrow : useWebSocket.users
                    (deliver ([Sent ws (stateMessage
                                          (Map_set ws (with_name session (slice_0_32 n))
                                                   (sessions r)) (revealed r));
                               Sent ws (s_joined (userId session) (slice_0_32 n))]
                              ++ (fanOut no_failure
                                    (s_userJoined (userId session) (slice_0_32 n)) (Some ws)
                                    (Map_set ws (with_name session (slice_0_32 n))
                                             (sessions r))).1) clients k)
                  = useWebSocket.users (clients k)
                    ++ [mkUser (userId session) (slice_0_32 n) false]).
  { rewrite deliver_app, fanOut_sent, deliver_broadcast
      by (apply eligible_keys_NoDup, Map_set_NoDup, (keys_distinct r Hr)).
    rewrite decide_True.
    2:{ apply eligible_keys_elem_of. split; [congruence|]. exists sk. split; [|done].
        apply Map_get_elem_of. by rewrite Map_get_set_ne. }
    unfold deliver. simpl. by rewrite !decide_False by done. }
  simpl in Hgrow. split; [exact Hgrow|]. rewrite Hgrow, fmap_app. simpl.
  intros [_ [Hnin _]]%NoDup_app. apply (Hnin (userId session)); [|apply list_elem_of_here].
  rewrite Husers. apply list_elem_of_fmap. exists (user_of session). split; [done|].
  apply list_elem_of_fmap. exists session. split; [done|].
  apply named_sessions_elem_of. split; [done|]. exists ws. by apply Map_get_elem_of.
Qed.

Lemma rejoin_is_listed_twice_witness :
  ¬ NoDup (user_id <$> useWebSocket.users
             (deliver (effects_of (webSocketMessage no_failure 1 (msg_join "Al")
                                     (room_of alice bob false) [])) two_joined 2)).
Proof.
  destruct (rejoin_is_listed_twice (room_of alice bob false) two_joined 1 alice
              (JObject [("type", JString "join"); ("name", JString "Al")]) "Al" 2 bob
              two_joined_served eq_refl eq_refl eq_refl eq_refl)
    as (r' & _ & _ & _ & Hdup); [discriminate | reflexivity | reflexivity | exact Hdup].
Defined.

(** ** The cards a client holds *)

Lemma deliver_keeps_cards log clients k :
  (∀ e m, e ∈ log → payload e = Some m → keeps_cards m) →
  useWebSocket.votes (deliver log clients k) = useWebSocket.votes (clients k).
Proof.
  revert clients. induction log as [|e log IH]; intros clients Hlog; [done|].
  change (deliver (e :: log) clients) with (deliver log (deliver [e] clients)).
  rewrite IH by (intros e' m Hin; apply Hlog; by apply list_elem_of_further).
  destruct e as [ws m| |]; try done. unfold deliver. simpl.
  destruct (decide (k = ws)); [|done].
  pose proof (Hlog (Sent ws m) m (list_elem_of_here _ _) eq_refl) as Hm. by destruct m.
Qed.

(** X16. A vote changes the cards that a client holds on no connection: a card
    that is changed after the reveal reaches the clients with the next reveal
    only. *)
Theorem vote_leaves_the_shown_cards throws r ws message clients k :
  case_of message = Some case_vote →
  useWebSocket.votes (deliver (effects_of (webSocketMessage throws ws message r [])) clients k)
  = useWebSocket.votes (clients k).
Proof.
  intros Hvote. apply deliver_keeps_cards. intros e m.
  destruct (webSocketMessage_handled throws r ws message)
    as [Hget|session err Hget Hc|session Hget Hc|session c Hget Hc
        |session c Hget Hc Hnj Hanon|session n Hget Hc
        |session card Hget Hc Hnamed|session Hget Hc Hnamed
        |session to emoji Hget Hc Hnamed|session Hget Hc Hnamed];
    try congruence; try (destruct Hc; congruence).
  - simpl. intros Hin%list_elem_of_singleton. by subst.
  - simpl. intros Hin. by apply elem_of_nil in Hin.
  - unfold unjoined_outcome. destruct (throws ws); simpl.
    + intros [Hin|Hin%list_elem_of_singleton]%elem_of_cons; subst; simpl; by intros [= <-].
    + intros Hin%list_elem_of_singleton. subst. simpl. by intros [= <-].
  - unfold vote_outcome. simpl. rewrite fanOut_log.
    intros (k0 & Heq & _)%list_elem_of_fmap. subst. rewrite attempt_payload. by intros [= <-].
Qed.

Lemma vote_leaves_the_shown_cards_witness :
  useWebSocket.votes
    (deliver (effects_of (webSocketMessage no_failure 1 (msg_vote "8") shown [])) two_joined 2)
  = useWebSocket.votes (two_joined 2).
Proof.
  exact (vote_leaves_the_shown_cards no_failure shown 1 (msg_vote "8") two_joined 2 eq_refl).
Defined.

(** ** Splitting and joining *)

Lemma split_cons sep s : ∃ seg rest, split sep s = seg :: rest.
Proof.
  induction s as [|a s (seg & rest & IH)]; simpl; [by eauto|].
  case_decide; [by eauto|]. rewrite IH. by eauto.
Qed.

Lemma join_cons sep part part' rest :
  join sep (part :: part' :: rest) = (part ++ sep ++ join sep (part' :: rest))%string.
Proof. done. Qed.

Lemma join_split sep s : join (String sep "") (split sep s) = s.
Proof.
  induction s as [|a s IH]; [done|]. simpl.
  destruct (split_cons sep s) as (seg & rest & Hs). rewrite Hs in *.
  case_decide as Ha.
  - subst a. by rewrite join_cons, IH.
  - destruct rest as [|seg' rest].
    + simpl in *. by rewrite IH.
    + rewrite join_cons in *. by rewrite <- IH.
Qed.

Lemma split_free sep s : sep ∉ chars s → split sep s = [s].
Proof.
  induction s as [|a s IH]; [done|]. simpl. rewrite not_elem_of_cons. intros [Hne Hs].
  rewrite decide_False by done. by rewrite IH.
Qed.

Lemma split_app sep pre rest :
  sep ∉ chars pre →
  split sep (pre ++ String sep rest) = pre :: split sep rest.
Proof.
  induction pre as [|a pre IH]; simpl.
  - intros _. by rewrite decide_True.
  - rewrite not_elem_of_cons. intros [Hne Hpre]. rewrite decide_False by done.
    by rewrite IH.
Qed.

Lemma split_segments_free sep s seg : seg ∈ split sep s → sep ∉ chars seg.
Proof.
  revert seg. induction s as [|a s IH]; simpl; intros seg.
  - intros ->%list_elem_of_singleton. apply not_elem_of_nil.
  - case_decide as Ha.
    + intros [->|Hin]%elem_of_cons; [apply not_elem_of_nil | by apply IH].
    + destruct (split_cons sep s) as (seg0 & rest & Hs). rewrite Hs in *.
      intros [->|Hin]%elem_of_cons.
      * simpl. rewrite not_elem_of_cons. split; [done|]. apply IH, list_elem_of_here.
      * by apply IH, list_elem_of_further.
Qed.

(** ** The worker's routing *)

Section Routing.
Variable team : option string.
Variable get_identity : string → string → option CloudflareIdentity.
Variable DurableObjectId : Type.
Variable newUniqueId : string.
Variable idFromString : string → option DurableObjectId.
Variable idFromName : string → DurableObjectId.

Local Abbreviation route := (Worker.fetch team get_identity DurableObjectId newUniqueId
                                           idFromString idFromName).
Local Abbreviation turned_back := (Worker.turned_back team get_identity).
Local Abbreviation room_id := (Worker.room_id DurableObjectId idFromString idFromName).

(** X17. A request goes on to a room only past the check of Cloudflare Access,
    and only under [/api/room/<name>] with a name that is not empty and is
    either 64 hex digits that make an id or at most 32 characters long; the
    room sees the rest of the path. *)
Theorem room_is_reached_only_when_admitted request id newPathname :
  route request = Worker.forwarded DurableObjectId id newPathname →
  turned_back request = false
  ∧ ∃ roomName rest,
      split "/" (slice_1 (pathname request)) = "api" :: "room" :: roomName :: rest
      ∧ roomName ≠ "" ∧ room_id roomName = Some id
      ∧ newPathname = ("/" ++ join "/" rest)%string.
Proof.
  unfold Worker.fetch. destruct (turned_back request); intros Hf; [by case_decide|].
  set (path := split "/" (slice_1 (pathname request))) in *.
  case_decide as Hapi; [|done]. unfold Worker.handleApiRequest in Hf.
  destruct path as [|p0 [|p1 [|roomName rest]]]; simpl in *; try done.
  - by repeat case_decide.
  - case_decide; [done|]. case_decide as Hroom; [|done]. simplify_eq.
    destruct (truthy roomName) eqn:Hname; [|by case_decide].
    split; [done|]. exists roomName, rest.
    assert (roomName ≠ "") by (intros ->; done).
    unfold Worker.room_id. destruct (matches_hex64 roomName).
    + destruct (idFromString roomName); [|done]. by simplify_eq.
    + case_decide; [|done]. by simplify_eq.
Qed.

(** X18. A request for [/api/room/<name>/<rest>] with an admitted name goes on
    to that room as a request for [/<rest>]: splitting the path and joining
    its tail gives the tail back. *)
Theorem forwarded_path_is_the_rest request roomName rest id :
  turned_back request = false →
  pathname request = ("/api/room/" ++ roomName ++ "/" ++ rest)%string →
  "/"%char ∉ chars roomName → roomName ≠ "" → room_id roomName = Some id →
  route request = Worker.forwarded DurableObjectId id ("/" ++ rest)%string.
Proof.
  intros Hopen Hpath Hfree Hname Hid. unfold Worker.fetch. rewrite Hopen, Hpath.
  change (slice_1 ("/api/room/" ++ roomName ++ "/" ++ rest))
    with ("api" ++ String "/" ("room" ++ String "/" (roomName ++ String "/" rest)))%string.
  rewrite !split_app by (done || (vm_compute; set_solver)).
  simpl. unfold Worker.handleApiRequest. simpl. rewrite drop_0.
  assert (truthy roomName = true) as -> by (by destruct roomName).
  unfold Worker.room_id in Hid. change "/"%string with (String "/" ""). rewrite join_split.
  destruct (matches_hex64 roomName).
  - by rewrite Hid.
  - case_decide; [|done]. by simplify_eq.
Qed.

(** X19. With a team set, a request without a [CF_Authorization] cookie
    reaches no room, whatever the identity endpoint would answer: a websocket
    request is answered by a socket that is sent an error and closed with
    1008, any other request with 401. *)
Theorem no_cookie_no_entry request teamName :
  team = Some teamName → teamName ≠ "" →
  getCFAuthorizationCookie request = None →
  route request
  = Worker.answered DurableObjectId
      (if decide (Upgrade request = Some "websocket")
       then switching (turned_away "Authentication required" 1008 "Authentication required")
       else mkResponse 401 (body_text "Authentication required") (Some "text/plain")
                       None None).
Proof.
  intros Hteam Hname Hcookie. unfold Worker.fetch, Worker.turned_back,
    Worker.verifyCloudflareAccess, Worker.getCloudflareAccessUserInfo.
  rewrite Hteam, Hcookie. assert (truthy teamName = true) as -> by (by destruct teamName).
  simpl. by case_decide.
Qed.

End Routing.

Lemma room_is_reached_only_when_admitted_witness :
  ∃ roomName rest,
    split "/" (slice_1 (pathname upgrade_request)) = "api" :: "room" :: roomName :: rest
    ∧ roomName ≠ "".
Proof.
  destruct (room_is_reached_only_when_admitted None (λ _ _, None) string "fresh" Some id
              upgrade_request "demo" "/websocket" eq_refl)
    as (_ & roomName & rest & Hpath & Hname & _).
  exists roomName, rest. split; [exact Hpath | exact Hname].
Defined.

Lemma forwarded_path_is_the_rest_witness :
  open_route upgrade_request = Worker.forwarded string "demo" "/websocket".
Proof.
  refine (forwarded_path_is_the_rest None (λ _ _, None) string "fresh" Some id
            upgrade_request "demo" "websocket" "demo" eq_refl eq_refl _ _ eq_refl).
  - apply (bool_decide_unpack _). by vm_compute.
  - discriminate.
Defined.

Lemma no_cookie_no_entry_witness :
  team_route upgrade_request
  = Worker.answered string
      (switching (turned_away "Authentication required" 1008 "Authentication required")).
Proof.
  refine (no_cookie_no_entry (Some "acme") (λ _ _, None) string "fresh" Some id
            upgrade_request "acme" eq_refl _ eq_refl).
  discriminate.
Defined.

(** ** The room's [fetch] *)

(** X20. The room's [fetch] always returns and sends nothing on any
    connection. It answers 101 exactly to an upgrade request for [/websocket],
    and then the new socket is registered without a name or a vote; otherwise
    the room is left as it is. *)
Theorem room_fetch_registers_on_upgrade_only request pair1 randomUUID r :
  ∃ r' response,
    fetch request pair1 randomUUID r [] = Returned r' [] response
    ∧ if decide (pathname request = "/websocket" ∧ Upgrade request = Some "websocket")
      then response = switching (in_session pair1)
           ∧ Map_get pair1 (sessions r') = Some (mkSession randomUUID "" null pair1)
           ∧ attachments (state r') !! pair1 = Some (mkMeta randomUUID "" null)
      else r' = r ∧ status response ≠ 101%nat.
Proof.
  unfold fetch, handleErrors. destruct (decide (pathname request = "/websocket")) as [Hp|Hp].
  - destruct (decide (Upgrade request ≠ Some "websocket")) as [Hu|Hu].
    + eexists _, _. split; [done|]. rewrite decide_False by (by intros [_ ?]). done.
    + apply dec_stable in Hu. eexists _, _. split; [done|].
      rewrite decide_True by done. simpl. split; [done|].
      split; [apply Map_get_set_eq | apply lookup_insert_eq].
  - eexists _, _. split; [done|]. rewrite decide_False by (by intros [? _]). done.
Qed.

(** ** The cookie header *)

Lemma chars_app s1 s2 : chars (s1 ++ s2) = chars s1 ++ chars s2.
Proof. induction s1 as [|a s1 IH]; [done|]. simpl. by rewrite IH. Qed.

Lemma trimEnd_no_blank s : (∀ a, a ∈ chars s → is_space a = false) → trimEnd s = s.
Proof.
  induction s as [|a s IH]; [done|]. simpl. intros Hs.
  rewrite IH by (intros b Hb; apply Hs; by right).
  destruct s; [|done]. by rewrite (Hs a) by left.
Qed.

Lemma trim_no_blank s : (∀ a, a ∈ chars s → is_space a = false) → trim s = s.
Proof.
  intros Hs. unfold trim. destruct s as [|a s]; [done|]. simpl.
  rewrite (Hs a) by left. by apply trimEnd_no_blank.
Qed.

Lemma trim_after_blank s :
  (∀ a, a ∈ chars s → is_space a = false) → trim (String " " s) = s.
Proof. intros Hs. unfold trim. simpl. by apply trim_no_blank. Qed.

Lemma split_cookie_header pieces :
  Forall (λ p, ";"%char ∉ chars p) pieces →
  split ";" (join "; " pieces)
  = match pieces with
    | [] => [""]
    | p :: rest => p :: (String " " <$> rest)
    end.
Proof.
  induction 1 as [|p rest Hp Hrest IH]; [done|].
  destruct rest as [|p' rest].
  - simpl. by apply split_free.
  - rewrite join_cons.
    change ("; " ++ join "; " (p' :: rest))%string
      with (String ";" (String " " (join "; " (p' :: rest)))).
    rewrite split_app by done. f_equal.
    change (split ";" (String " " (join "; " (p' :: rest))))
      with (match split ";" (join "; " (p' :: rest)) with
            | seg :: rest => String " " seg :: rest
            | [] => [String " " ""]
            end).
    by rewrite IH.
Qed.

Lemma first_CF_Authorization_pairs (cookies : list (string * string)) :
  Forall (λ c, token_text c.1 ∧ token_text c.2) cookies →
  first_CF_Authorization ((λ c, c.1 ++ "=" ++ c.2)%string <$> cookies)
  = snd <$> List.find (λ c, bool_decide (c.1 = "CF_Authorization")) cookies.
Proof.
  induction 1 as [|[n v] cookies [Hn Hv] _ IH]; [done|]. simpl in *.
  unfold token_text in Hn, Hv. rewrite Forall_forall in Hn, Hv.
  change (n ++ "=" ++ v)%string with (n ++ String "=" v)%string.
  rewrite split_app by (intros Hin; by destruct (Hn _ Hin) as (_ & ? & _)).
  rewrite split_free by (intros Hin; by destruct (Hv _ Hin) as (_ & ? & _)).
  simpl. destruct (decide (n = "CF_Authorization")) as [->|Hne].
  - by rewrite decide_True, bool_decide_true.
  - rewrite decide_False by congruence. by rewrite bool_decide_false.
Qed.

(** X21. Of a header of well-formed cookies, written [name=value] and
    separated by a semicolon and a blank, [getCFAuthorizationCookie] returns
    the value of the first cookie named [CF_Authorization], and [null] if
    there is none. *)
Theorem cookie_is_found_by_name method pathname Upgrade cookies :
  Forall (λ c, token_text c.1 ∧ token_text c.2) cookies →
  getCFAuthorizationCookie (mkRequest method pathname Upgrade (Some (cookie_header cookies)))
  = snd <$> List.find (λ c, bool_decide (c.1 = "CF_Authorization")) cookies.
Proof.
  intros Hc. unfold getCFAuthorizationCookie, cookie_header. simpl.
  destruct cookies as [|c cookies]; [done|].
  set (piece := (λ c : string * string, c.1 ++ "=" ++ c.2)%string).
  assert (Hpieces : Forall (λ p, (∀ a, a ∈ chars p → is_space a = false)
                                  ∧ ";"%char ∉ chars p) (piece <$> c :: cookies)).
  { apply Forall_fmap. eapply Forall_impl; [exact Hc|]. intros [n v] [Hn Hv].
    unfold token_text in Hn, Hv. rewrite Forall_forall in Hn, Hv.
    unfold piece. simpl. rewrite !chars_app. simpl.
    split.
    - intros a [Hin|[->|Hin]%elem_of_cons]%elem_of_app; [by apply Hn|done|by apply Hv].
    - intros [Hin|[?|Hin]%elem_of_cons]%elem_of_app;
        [by destruct (Hn _ Hin)|done|by destruct (Hv _ Hin)]. }
  assert (truthy (join "; " (piece <$> c :: cookies)) = true) as ->.
  { rewrite fmap_cons. destruct c as [n v], (piece <$> cookies); unfold piece; simpl;
      by destruct n. }
  rewrite split_cookie_header by (eapply Forall_impl; [exact Hpieces|]; by intros ? [_ ?]).
  rewrite fmap_cons in *. apply Forall_cons in Hpieces as [[Hp _] Hrest].
  rewrite fmap_cons, trim_no_blank by done.
  assert (trim <$> (String " " <$> (piece <$> cookies)) = piece <$> cookies) as ->.
  { clear -Hrest. induction Hrest as [|p ps [Hp _] _ IH]; [done|].
    rewrite !fmap_cons, IH. by rewrite trim_after_blank. }
  by apply (first_CF_Authorization_pairs (c :: cookies)).
Qed.

Lemma cookie_is_found_by_name_witness :
  getCFAuthorizationCookie
    (mkRequest "GET" "/api/whoami" None (Some "theme=dark; CF_Authorization=tok"))
  = Some "tok".
Proof.
  refine (cookie_is_found_by_name "GET" "/api/whoami" None
            [("theme", "dark"); ("CF_Authorization", "tok")] _).
  apply (bool_decide_unpack _). by vm_compute.
Defined.

(** ** Properties of the room protocol *)

(** C1. While the revealed flag is false no message that carries votes is
    sent. In a room whose flag is false, handling a message that is not a
    [reveal] from a session with a name sends nothing that carries votes:
    [voted] has only the [hasVoted] boolean and the [state] message of a join
    has no votes map, so that no [revealed] message and no [state] message
    with votes is among what is sent. Whatever carries votes is sent by a
    [reveal] from a session with a name, which raises the flag first: all it
    sends, it sends in one [broadcast] that runs in the room with the flag
    true, and the flag is true when the handler returns. *)
Theorem hidden_votes_not_sent throws r ws message :
  revealed r = false →
  ((case_of message = Some case_reveal →
    ∀ session, Map_get ws (sessions r) = Some session → name session = "") →
   ∀ e m, e ∈ effects_of (webSocketMessage throws ws message r []) →
          payload e = Some m → carries_votes m = false)
  ∧ (∀ session r' e m,
       Map_get ws (sessions r) = Some session →
       room_after (webSocketMessage throws ws message r []) = Some r' →
       e ∈ effects_of (webSocketMessage throws ws message r []) →
       payload e = Some m → carries_votes m = true →
       case_of message = Some case_reveal ∧ truthy (name session) = true
       ∧ revealed r' = true)
  ∧ (∀ session,
       Map_get ws (sessions r) = Some session → truthy (name session) = true →
       case_of message = Some case_reveal →
       webSocketMessage throws ws message r []
       = broadcast throws (s_revealed (JSON_stringify (collect_votes (sessions r)))) None
                   (mkRoom (state r) (sessions r) true) [])
  ∧ ((case_of message = Some case_reveal →
      ∀ session, Map_get ws (sessions r) = Some session → name session = "") →
     ∀ e, e ∈ effects_of (webSocketMessage throws ws message r []) →
          (∀ k votes, e ≠ Sent k (s_revealed votes) ∧ e ≠ SendThrew k (s_revealed votes))
          ∧ (∀ k users shown votes,
               e ≠ Sent k (s_state users shown (Some votes))
               ∧ e ≠ SendThrew k (s_state users shown (Some votes)))).
Proof.
  intros Hr.
  assert (Hquiet : (case_of message = Some case_reveal →
                    ∀ session, Map_get ws (sessions r) = Some session → name session = "") →
                   ∀ e m, e ∈ effects_of (webSocketMessage throws ws message r []) →
                          payload e = Some m → carries_votes m = false).
  { intros Hguard e m Hin Hp.
    pose proof (hidden_webSocketMessage throws r ws message Hr Hguard) as Hh.
    destruct (webSocketMessage throws ws message r []); simpl in *.
    - destruct Hh as [_ Hq]. by eapply Hq.
    - destruct Hh as [_ Hq]. by eapply Hq.
    - by apply elem_of_nil in Hin. }
  assert (Hreveal : ∀ session,
            Map_get ws (sessions r) = Some session → truthy (name session) = true →
            case_of message = Some case_reveal →
            webSocketMessage throws ws message r []
            = broadcast throws (s_revealed (JSON_stringify (collect_votes (sessions r)))) None
                        (mkRoom (state r) (sessions r) true) []).
  { intros session Hget Hn Hcase.
    destruct message as [err|data]; [done|]. simpl in Hcase.
    destruct (member data "type") as [err|type] eqn:Hmember; [done|].
    assert (type = Some (JString "reveal")) as ->.
    { unfold switch in Hcase. destruct type as [[]|]; try done.
      repeat case_decide; by simplify_eq. }
    by rewrite (reveal_run throws r ws session data Hget Hn Hmember), broadcast_run. }
  split; [done|]. split; [|split; [done|]].
  2:{ intros Hguard e Hin.
      split; [intros k votes | intros k users shown votes];
        (split; intros ->;
         [pose proof (Hquiet Hguard _ _ Hin eq_refl) as Hno
         |pose proof (Hquiet Hguard _ _ Hin eq_refl) as Hno]; discriminate Hno). }
  intros session r' e m Hget Hafter Hin Hp Hc.
  destruct (decide (case_of message = Some case_reveal)) as [Hcase|Hcase].
  2:{ assert (carries_votes m = false) as Hno; [|congruence].
      apply (λ H, Hquiet H e m Hin Hp). intros H. done. }
  destruct (truthy (name session)) eqn:Hn.
  2:{ assert (name session = "") as Hempty by (by destruct (name session)).
      assert (carries_votes m = false) as Hno; [|congruence].
      apply (λ H, Hquiet H e m Hin Hp). intros _ s Hs. by simplify_eq. }
  split; [done|]. split; [done|].
  rewrite (Hreveal session Hget Hn Hcase), broadcast_run in Hafter.
  simpl in Hafter. by simplify_eq.
Qed.

Lemma hidden_votes_not_sent_witness :
  revealed voting = false
  ∧ Sent 2 (s_voted "A" true)
      ∈ effects_of (webSocketMessage no_failure 1 (msg_vote "8") voting [])
  ∧ carries_votes (s_voted "A" true) = false.
Proof.
  assert (Hin : Sent 2 (s_voted "A" true)
                  ∈ effects_of (webSocketMessage no_failure 1 (msg_vote "8") voting [])).
  { vm_compute. apply list_elem_of_further, list_elem_of_here. }
  split; [reflexivity|]. split; [exact Hin|].
  refine (proj1 (hidden_votes_not_sent no_failure voting 1 (msg_vote "8") eq_refl)
            _ (Sent 2 (s_voted "A" true)) _ Hin eq_refl).
  intros Hcase. vm_compute in Hcase. discriminate Hcase.
Defined.




(** C3. A session whose name is empty that sends [vote], [reveal], [reset] or
    [emoji] is answered with the error "Must join first" on its own connection
    and nothing else happens: the room (registry, attachments, revealed flag)
    is left as it was and no other connection is sent anything. Should the
    reply itself throw, the catch clause tries a second error reply on the
    same connection, which throws out of the handler. *)
Theorem unjoined_action_rejected throws r ws session data type c :
  Map_get ws (sessions r) = Some session →
  name session = "" →
  member data "type" = inr type →
  switch type = Some c →
  c ≠ case_join →
  webSocketMessage throws ws (inr data) r []
  = match throws ws with
    | None => Returned r [Sent ws (s_error "Must join first")] ()
    | Some err =>
        Threw r [SendThrew ws (s_error "Must join first"); SendThrew ws (s_error err)] err
    end.
Proof.
  intros Hget Hname Hmember Hswitch Hc.
  rewrite <- must_join_first_run.
  run_handler. rewrite Hget, Hmember, Hswitch, Hname. simpl.
  by destruct c.
Qed.

Lemma unjoined_action_rejected_witness :
  webSocketMessage no_failure 2 (msg_vote "5") alice_alone []
  = Returned alice_alone [Sent 2 (s_error "Must join first")] ().
Proof.
  refine (unjoined_action_rejected no_failure alice_alone 2 anonymous_B
            (JObject [("type", JString "vote"); ("card", JString "5")])
            (Some (JString "vote")) case_vote eq_refl eq_refl eq_refl eq_refl _).
  discriminate.
Defined.




(** The two listings of C5 that hold: whoever is listed in a [state] message
    has a name, and so has the owner of every key of a vote map. *)
Lemma listed_users_are_named (all : list (WebSocket * SessionData)) shown users votes :
  stateMessage all shown = s_state users shown votes →
  ∀ u, u ∈ users → truthy (user_name u) = true.
Proof.
  intros [= <- _] u (s & -> & [Hn _]%named_sessions_elem_of)%list_elem_of_fmap. done.
Qed.

Lemma vote_keys_are_named (all : list (WebSocket * SessionData)) u :
  u ∈ dom (collect_votes all) →
  ∃ k s, (k, s) ∈ all ∧ truthy (name s) = true ∧ userId s = u.
Proof.
  rewrite collect_votes_fromEntries, Object_fromEntries_dom.
  rewrite <- list_fmap_compose, list_elem_of_fmap.
  intros (s & -> & [? [k ?]]%named_sessions_elem_of). eauto.
Qed.

(** C5 fails on the code: B, connected but never joined, sends [join] with
    the empty name. Its name stays empty (the room is unchanged), it is left
    out of the users of its own [state] message, and yet Alice is sent
    [userJoined] for it. *)
Theorem join_with_empty_name_is_announced :
  reachable alice_alone
  ∧ Map_get 2 (sessions alice_alone) = Some anonymous_B
  ∧ name anonymous_B = ""
  ∧ webSocketMessage no_failure 2 (msg_join "") alice_alone []
    = Returned alice_alone
        [Sent 2 (s_state [mkUser "A" "Alice" false] false None);
         Sent 2 (s_joined "B" "");
         Sent 1 (s_userJoined "B" "")] ().
Proof.
  split; [apply alice_alone_reachable|].
  split; [reflexivity|]. split; [reflexivity|]. by vm_compute.
Qed.

(** C6, as the code has it. On a registered connection, a message that
    [JSON.parse] rejects, and likewise the text [null], whose [type] cannot be
    read, is answered with one error reply carrying the exception's message,
    on the originating connection only. A message that parses to a value
    whose [type] is none of the five tags is ignored without any reply: the
    [switch] has no default clause. In every case the room is left as it
    was, no other connection is sent anything and none is closed. *)
Theorem malformed_replied_unknown_ignored throws r ws session :
  Map_get ws (sessions r) = Some session →
  (∀ err,
     webSocketMessage throws ws (inl err) r []
     = match throws ws with
       | None => Returned r [Sent ws (s_error err)] ()
       | Some e => Threw r [SendThrew ws (s_error err)] e
       end) ∧
  (webSocketMessage throws ws (inr JNull) r []
   = let err := "Cannot read properties of null (reading 'type')" in
     match throws ws with
     | None => Returned r [Sent ws (s_error err)] ()
     | Some e => Threw r [SendThrew ws (s_error err)] e
     end) ∧
  (∀ data type,
     member data "type" = inr type →
     switch type = None →
     webSocketMessage throws ws (inr data) r [] = Returned r [] ()).
Proof.
  intros Hget. repeat split.
  - intros err. run_handler. rewrite Hget. simpl. by destruct (throws ws).
  - run_handler. rewrite Hget. simpl. by destruct (throws ws).
  - intros data type Hmember Hswitch. run_handler.
    by rewrite Hget, Hmember, Hswitch.
Qed.

Lemma malformed_replied_unknown_ignored_witness :
  webSocketMessage no_failure 2 (inl "Unexpected token") voting []
  = Returned voting [Sent 2 (s_error "Unexpected token")] ()
  ∧ webSocketMessage no_failure 2 msg_ping voting [] = Returned voting [] ().
Proof.
  destruct (malformed_replied_unknown_ignored no_failure voting 2 bob eq_refl)
    as (Hbad & _ & Hunknown).
  split.
  - exact (Hbad "Unexpected token").
  - exact (Hunknown (JObject [("type", JString "ping")]) (Some (JString "ping"))
             eq_refl eq_refl).
Defined.

(** C6 fails as stated: a joined session sends a well-formed message whose
    tag is [ping]; no error reply (indeed nothing at all) is sent. *)
Lemma unknown_tag_gets_no_error_reply :
  Map_get 2 (sessions voting) = Some bob
  ∧ case_of msg_ping = None
  ∧ webSocketMessage no_failure 2 msg_ping voting [] = Returned voting [] ()
  ∧ ¬ ∃ e err, e ∈ effects_of (webSocketMessage no_failure 2 msg_ping voting [])
               ∧ payload e = Some (s_error err).
Proof.
  repeat split; try reflexivity.
  intros (e & err & Hin & _). vm_compute in Hin. by apply elem_of_nil in Hin.
Qed.

(** C7. [broadcast] attempts the send on every eligible session of the
    registry as it was when the loop started, whatever the other sends do:
    each eligible session whose send returns receives the message. The log
    holds nothing but these attempts of the given message, so no [userLeft] is
    made up for a dropped connection. The registry is changed only once the
    loop is over, by deleting the collected quitters: afterwards exactly the
    eligible sessions whose send threw are gone, and the others are as before. *)
Theorem broadcast_isolates_failures throws message exclude r log :
  ∃ sent quitters r',
    fanOut throws message exclude (sessions r) = (sent, quitters)
    ∧ broadcast throws message exclude r log = Returned r' (log ++ sent) ()
    ∧ r' = mkRoom (state r) (drop quitters (sessions r)) (revealed r)
    ∧ (∀ ws s, (ws, s) ∈ sessions r → eligible exclude (ws, s) →
         (throws ws = None → Sent ws message ∈ sent)
         ∧ (throws ws ≠ None → SendThrew ws message ∈ sent))
    ∧ (∀ e, e ∈ sent →
         ∃ ws s, (ws, s) ∈ sessions r ∧ eligible exclude (ws, s)
                 ∧ e = attempt throws message ws)
    ∧ (∀ ws, ws ∈ quitters ↔
         throws ws ≠ None ∧ ∃ s, (ws, s) ∈ sessions r ∧ eligible exclude (ws, s))
    ∧ (∀ ws, Map_get ws (sessions r')
             = if decide (ws ∈ quitters) then None else Map_get ws (sessions r)).
Proof.
  pose proof (fanOut_log throws message exclude (sessions r)) as Hlog.
  pose proof (fanOut_quitters throws message exclude (sessions r)) as Hquit.
  destruct (fanOut throws message exclude (sessions r)) as [sent quitters] eqn:E.
  simpl in Hlog, Hquit.
  exists sent, quitters, (mkRoom (state r) (drop quitters (sessions r)) (revealed r)).
  split; [done|]. split; [by rewrite broadcast_run, E|]. split; [done|].
  assert (Hmem : ∀ ws, ws ∈ (filter (eligible exclude) (sessions r)).*1
                       ↔ ∃ s, (ws, s) ∈ sessions r ∧ eligible exclude (ws, s)).
  { intros ws. rewrite list_elem_of_fmap. split.
    - intros ([k s] & -> & [? ?]%list_elem_of_filter). by exists s.
    - intros (s & Hin & Hel). exists (ws, s). split; [done|].
      by apply list_elem_of_filter. }
  split; [|split; [|split]].
  - intros ws s Hin Hel. split.
    + intros Hok. subst sent. apply list_elem_of_fmap. exists ws.
      split; [unfold attempt; by rewrite Hok | apply Hmem; eauto].
    + intros Hfail. subst sent. apply list_elem_of_fmap. exists ws.
      split; [unfold attempt; by destruct (throws ws) | apply Hmem; eauto].
  - intros e He. subst sent. apply list_elem_of_fmap in He as (ws & -> & Hin).
    apply Hmem in Hin as (s & ? & ?). eauto.
  - intros ws. subst quitters. rewrite list_elem_of_filter, Hmem. done.
  - intros ws. simpl. apply Map_get_drop.
Qed.

Lemma broadcast_isolates_failures_witness :
  ∃ r',
    broadcast stale_1 s_reset None voting []
    = Returned r' [SendThrew 1 s_reset; Sent 2 s_reset] ()
    ∧ Map_get 1 (sessions r') = None
    ∧ Map_get 2 (sessions r') = Some bob.
Proof.
  destruct (broadcast_isolates_failures stale_1 s_reset None voting [])
    as (sent & quitters & r' & Hfan & Hrun & Hr' & _ & _ & _ & Hget).
  vm_compute in Hfan. injection Hfan as <- <-.
  exists r'. split; [exact Hrun|]. split.
  - rewrite (Hget 1). reflexivity.
  - rewrite (Hget 2). reflexivity.
Defined.

(** C8. When a connection closes or errors, the handler returns with that
    connection out of the registry, named or not. If its session had a name,
    the log is one fan-out of [userLeft] with that session's user id over the
    named sessions of the registry (the closing connection, still registered
    during the fan-out, is attempted too): every effect is an attempt of that
    one message, and every remaining named session is attempted exactly once.
    If the name was empty, or the connection had no session, nothing is sent.
    The other sessions stay as they were, except those dropped because
    their send threw. *)
Theorem disconnect_announces_named_only throws r ws :
  NoDup (Map_keys (sessions r)) →
  ∃ r' log,
    closeOrErrorHandler throws ws r [] = Returned r' log ()
    ∧ Map_get ws (sessions r') = None
    ∧ revealed r' = revealed r
    ∧ (∀ k s, Map_get k (sessions r') = Some s → k ≠ ws ∧ Map_get k (sessions r) = Some s)
    ∧ (∀ session,
         Map_get ws (sessions r) = Some session → truthy (name session) = true →
         log = attempt throws (s_userLeft (userId session))
                 <$> (filter (eligible None) (sessions r)).*1
         ∧ (∀ e, e ∈ log → payload e = Some (s_userLeft (userId session)))
         ∧ (∀ k s, (k, s) ∈ sessions r → k ≠ ws → truthy (name s) = true →
              filter (λ e, target e = k) log
              = [attempt throws (s_userLeft (userId session)) k]))
    ∧ (∀ session,
         Map_get ws (sessions r) = Some session → name session = "" → log = [])
    ∧ (Map_get ws (sessions r) = None → log = []).
Proof.
  intros Hnd. rewrite closeOrErrorHandler_run.
  destruct (Map_get ws (sessions r)) as [session|] eqn:Hget.
  - destruct (truthy (name session)) eqn:Hname; simpl.
    + eexists _, _. split; [done|]. simpl.
      split; [apply Map_get_delete_eq|]. split; [done|]. split.
      { intros k s Hk. destruct (decide (k = ws)) as [->|Hne].
        - by rewrite Map_get_delete_eq in Hk.
        - split; [done|]. rewrite Map_get_delete_ne, Map_get_drop in Hk by done.
          by case_decide. }
      split; [|split; [|done]].
      * intros ? [= <-] _. rewrite fanOut_log. split; [done|]. split.
        { intros e (k & -> & _)%list_elem_of_fmap. apply attempt_payload. }
        intros k s Hin Hne Hnamed. apply attempts_on.
        { by apply eligible_keys_NoDup. }
        apply list_elem_of_fmap. exists (k, s). split; [done|].
        apply list_elem_of_filter. by split.
      * intros ? [= <-] Hempty. rewrite Hempty in Hname. done.
    + eexists _, _. split; [done|]. simpl.
      split; [apply Map_get_delete_eq|]. split; [done|]. split.
      { intros k s Hk. destruct (decide (k = ws)) as [->|Hne].
        - by rewrite Map_get_delete_eq in Hk.
        - by rewrite Map_get_delete_ne in Hk. }
      split; [|done]. intros ? [= <-] Hnamed. congruence.
  - eexists _, _. split; [done|]. simpl.
    split; [apply Map_get_delete_eq|]. split; [done|]. split.
    { intros k s Hk. destruct (decide (k = ws)) as [->|Hne].
      - by rewrite Map_get_delete_eq in Hk.
      - by rewrite Map_get_delete_ne in Hk. }
    done.
Qed.

Lemma disconnect_announces_named_only_witness :
  ∃ r',
    closeOrErrorHandler no_failure 2 voting []
    = Returned r' [Sent 1 (s_userLeft "B"); Sent 2 (s_userLeft "B")] ()
    ∧ Map_get 2 (sessions r') = None
    ∧ filter (λ e, target e = 1) [Sent 1 (s_userLeft "B"); Sent 2 (s_userLeft "B")]
      = [Sent 1 (s_userLeft "B")].
Proof.
  assert (Hkeys : NoDup (Map_keys (sessions voting))).
  { vm_compute. apply NoDup_cons. split; [|apply NoDup_singleton].
    intros Hin%list_elem_of_singleton. discriminate Hin. }
  destruct (disconnect_announces_named_only no_failure voting 2 Hkeys)
    as (r' & log & Hrun & Hgone & _ & _ & Hnamed & _).
  destruct (Hnamed bob eq_refl eq_refl) as (Hlog & _ & Hone).
  vm_compute in Hlog. subst log.
  exists r'. split; [exact Hrun|]. split; [exact Hgone|].
  apply (Hone 1 alice_5); [apply list_elem_of_here | discriminate | reflexivity].
Defined.

(** C9. In every room the coordinator can reach, the attachment of each
    registered connection holds exactly the user id, name and vote of its
    session: no operation leaves the two apart. Hence constructing the object
    again from the durable state succeeds, puts every session whose socket is
    still connected back into the registry with the same user id, name and
    vote, restores nothing that is not in an attachment, and starts with the
    revealed flag false whatever it was before. *)
Theorem attachments_mirror_sessions r :
  reachable r →
  (∀ ws s, (ws, s) ∈ sessions r →
     attachments (state r) !! ws = Some (mkMeta (userId s) (name s) (vote s)))
  ∧ ∃ r',
      constructor (state r) = Some r'
      ∧ revealed r' = false
      ∧ (∀ ws s, Map_get ws (sessions r) = Some s → ws ∈ webSockets (state r) →
           Map_get ws (sessions r') = Some s)
      ∧ (∀ ws s, Map_get ws (sessions r') = Some s →
           attachments (state r) !! ws = Some (mkMeta (userId s) (name s) (vote s))).
Proof.
  intros Hr%reachable_consistent. split.
  - intros ws s Hin. by apply (attached r Hr).
  - destruct (constructor_consistent r Hr) as (r' & Hctor & Hr' & Hstate & Hrev & Hback).
    exists r'. split; [done|]. split; [done|]. split; [done|].
    intros ws s Hs%Map_get_elem_of. rewrite <- Hstate. by apply (attached r' Hr').
Qed.

Lemma attachments_mirror_sessions_witness :
  revealed shown = true
  ∧ attachments (state shown) !! 1 = Some (mkMeta "A" "Alice" (Some (JString "5")))
  ∧ ∃ r',
      constructor (state shown) = Some r'
      ∧ revealed r' = false
      ∧ Map_get 1 (sessions r') = Some alice_5.
Proof.
  destruct (attachments_mirror_sessions shown shown_reachable)
    as (Hatt & r' & Hctor & Hhidden & Hback & _).
  split; [reflexivity|]. split.
  - apply (Hatt 1 alice_5). apply list_elem_of_here.
  - exists r'. split; [exact Hctor|]. split; [exact Hhidden|].
    apply (Hback 1 alice_5); [reflexivity | apply list_elem_of_here].
Defined.

(** C10. A join changes nothing but the name of the session that sends it,
    in particular when that session already has a name: its user id, vote and
    connection stay, the revealed flag stays, and every other session found
    in the registry afterwards is there with the fields it had. (A session
    can only go missing when the [userJoined] send to it threw.) The
    attachments of the other connections and the list of accepted sockets are
    untouched too. This holds whether or not the sends to the requester go
    through. *)
Theorem rejoin_changes_only_the_name throws r ws session data n :
  Map_get ws (sessions r) = Some session →
  truthy (name session) = true →
  member data "type" = inr (Some (JString "join")) →
  member data "name" = inr (Some (JString n)) →
  ∃ r',
    room_after (webSocketMessage throws ws (inr data) r []) = Some r'
    ∧ Map_get ws (sessions r')
      = Some (mkSession (userId session) (slice_0_32 n) (vote session) (webSocket session))
    ∧ revealed r' = revealed r
    ∧ (∀ k s, k ≠ ws → Map_get k (sessions r') = Some s → Map_get k (sessions r) = Some s)
    ∧ (∀ k s, k ≠ ws → Map_get k (sessions r) = Some s →
         Map_get k (sessions r') = Some s
         ∨ (Map_get k (sessions r') = None ∧ throws k ≠ None ∧ throws ws = None))
    ∧ (∀ k, k ≠ ws → attachments (state r') !! k = attachments (state r) !! k)
    ∧ webSockets (state r') = webSockets (state r).
Proof.
  intros Hget _ Htype Hname.
  rewrite (join_run throws r ws session data Hget n Htype Hname).
  set (joined := with_name session (slice_0_32 n)).
  set (all := Map_set ws joined (sessions r)).
  set (announce := s_userJoined (userId session) (slice_0_32 n)).
  assert (Hws : ws ∉ (fanOut throws announce (Some ws) all).2).
  { rewrite fanOut_quitters.
    intros [_ ([k0 s0] & Hk & [[He _] _]%list_elem_of_filter)%list_elem_of_fmap]%list_elem_of_filter.
    simpl in *. by subst. }
  assert (Hq : ∀ k, k ∈ (fanOut throws announce (Some ws) all).2 → throws k ≠ None).
  { intros k. rewrite fanOut_quitters. by intros [? _]%list_elem_of_filter. }
  destruct (throws ws) as [err|] eqn:Ht; simpl; eexists; (split; [done|]); simpl;
    unfold all in *.
  - split; [apply Map_get_set_eq|]. split; [done|].
    split; [intros k s Hne; by rewrite Map_get_set_ne|].
    split; [intros k s Hne Hk; left; by rewrite Map_get_set_ne|].
    split; [intros k Hne; by rewrite lookup_insert_ne|done].
  - split; [rewrite Map_get_drop, decide_False by done; apply Map_get_set_eq|].
    split; [done|].
    split.
    { intros k s Hne. rewrite Map_get_drop. case_decide; [done|].
      by rewrite Map_get_set_ne. }
    split.
    { intros k s Hne Hk. rewrite Map_get_drop. case_decide.
      - right. auto.
      - left. by rewrite Map_get_set_ne. }
    split; [intros k Hne; by rewrite lookup_insert_ne|done].
Qed.

Lemma rejoin_changes_only_the_name_witness :
  ∃ r',
    room_after (webSocketMessage no_failure 1 (msg_join "Alicia") voting []) = Some r'
    ∧ Map_get 1 (sessions r') = Some (mkSession "A" "Alicia" (Some (JString "5")) 1)
    ∧ Map_get 2 (sessions r') = Some bob
    ∧ revealed r' = false.
Proof.
  destruct (rejoin_changes_only_the_name no_failure voting 1 alice_5
              (JObject [("type", JString "join"); ("name", JString "Alicia")]) "Alicia"
              eq_refl eq_refl eq_refl eq_refl)
    as (r' & Hafter & Hself & Hflag & _ & Hothers & _).
  exists r'. split; [exact Hafter|]. split; [exact Hself|]. split; [|exact Hflag].
  destruct (Hothers 2 bob) as [Hsame|[_ [Hthrew _]]];
    [discriminate | reflexivity | exact Hsame | by destruct Hthrew].
Defined.
